(** * Kernel set-up and hyperparameter codec of [atoml.regression.gpfunctions.kernel_setup]

    A shallow embedding of [prepare_kernels], its per-type set-up routines,
    [kdict2list], [kdicts2list] and [list2kdict], followed by the properties
    of the kernel-specification normaliser and of the hyperparameter codec.

    Conventions of the embedding.
    - A Python [dict] is an association list in insertion order with unique
      keys; assigning to a present key keeps its position, assigning to an
      absent key appends.
    - The functions mutate the caller's dictionaries in place.  Every
      function that does so is a computation over an explicit store and
      yields the store as it stands when the function returns or raises.
    - A Python [float] is the rational its decimal literal denotes; no
      floating-point arithmetic occurs in the module (only [float(x)],
      comparison of lengths and sequence repetition).
    - [x is 'lit'] compares objects.  The string literals of a program are
      interned, so a string written as a literal, here or by the caller, is
      the very object of the literal it equals: [VStr].  A string made at
      run time (read from a file, parsed, joined) equals the literal of its
      characters without being that object: [VText].  The two differ under
      [is] and [is not] only. *)

From Stdlib Require Import List String Ascii ZArith QArith Bool Lia.
Import ListNotations.
Local Open Scope string_scope.
Local Open Scope list_scope.
Local Open Scope Z_scope.

Set Implicit Arguments.
Set Warnings "-register-all".

(** ** Python values *)

Module Py.

(** [int] and [float]. *)
Inductive num : Type :=
| Int (z : Z)
| Float (q : Q).

Inductive value : Type :=
| VNone
| VStr (s : string)
| VNum (n : num)
| VList (xs : list value)
| VTuple (xs : list value)
| VText (s : string).

(** The assertions of the module, one constructor per [assert] statement;
    [UndefinedKey k t] is the message naming key [k] in a block of type [t]. *)
Inductive assertion : Type :=
| KernelTypeNotSet
| TooManyFeatures
| BadDimension
| ScalingNotFloat
| UndefinedKey (k : string) (ktype : string)
| ConstNotFloat
| WidthNotSet
| SlopeDegreeNotSet.

Inductive exn : Type :=
| AssertionError (a : assertion)
| NotImplementedError (ktype : string)
| KeyError (k : string)
| IndexError
| TypeError
| ValueError
| UnboundLocalError
| EvalOfText.

Inductive result (A : Type) : Type :=
| Ok (a : A)
| Raise (e : exn).
Arguments Raise {A} e.

(** [float(x)] on a number. *)
Definition to_float (n : num) : num :=
  match n with
  | Int z => Float (inject_Z z)
  | Float q => Float q
  end.

(** [isinstance(v, float)] *)
Definition is_float (v : value) : bool :=
  match v with VNum (Float _) => true | _ => false end.

(** [type(v) is float or type(v) is int] *)
Definition is_float_or_int (v : value) : bool :=
  match v with VNum _ => true | _ => false end.

(** [type(v) is float] *)
Definition type_is_float (v : value) : bool := is_float v.

(** The characters of a string, interned or not. *)
Definition text (v : value) : option string :=
  match v with VStr s | VText s => Some s | _ => None end.

(** [v == 'lit'] for a string literal. *)
Definition str_eq (v : value) (lit : string) : bool :=
  match v with VStr s | VText s => String.eqb s lit | _ => false end.

(** [v is 'lit'] for a string literal: [v] is the interned string. *)
Definition str_is (v : value) (lit : string) : bool :=
  match v with VStr s => String.eqb s lit | _ => false end.

Fixpoint chars (s : string) : list value :=
  match s with
  | EmptyString => []
  | String c s' => VStr (String c EmptyString) :: chars s'
  end.

(** [len(v)] *)
Definition len (v : value) : result nat :=
  match v with
  | VList xs | VTuple xs => Ok (List.length xs)
  | VStr s | VText s => Ok (String.length s)
  | _ => Raise TypeError
  end.

(** [list(v)] *)
Definition to_list (v : value) : result (list value) :=
  match v with
  | VList xs | VTuple xs => Ok xs
  | VStr s | VText s => Ok (chars s)
  | _ => Raise TypeError
  end.

(** [[v] * n] and [(v,) * n]: repetition, empty when [n <= 0]. *)
Definition times (xs : list value) (n : Z) : list value :=
  List.concat (List.repeat xs (Z.to_nat n)).

(** [xs[i:j]] on a list, [0 <= i]. *)
Definition slice {A} (xs : list A) (i j : nat) : list A :=
  firstn (j - i) (skipn i xs).

(** ** Dictionaries *)

Definition dict (V : Type) : Type := list (string * V).

Fixpoint get {V} (k : string) (d : dict V) : option V :=
  match d with
  | [] => None
  | (k', v) :: d' => if String.eqb k k' then Some v else get k d'
  end.

(** [k in d] *)
Definition has {V} (k : string) (d : dict V) : bool :=
  match get k d with Some _ => true | None => false end.

(** [d[k] = v] *)
Fixpoint set {V} (k : string) (v : V) (d : dict V) : dict V :=
  match d with
  | [] => [(k, v)]
  | (k', v') :: d' =>
      if String.eqb k k' then (k', v) :: d' else (k', v') :: set k v d'
  end.

Definition keys {V} (d : dict V) : list string := map fst d.

(** [k in allowed_keys] *)
Definition mem (k : string) (l : list string) : bool :=
  existsb (String.eqb k) l.

End Py.

Import Py.

(** A kernel block and a kernel dictionary. *)
Definition kdict : Type := dict value.
Definition kernel_dict : Type := dict kdict.

(** ** Computations over a mutable store *)

Definition M (S A : Type) : Type := S -> S * result A.

Definition ret {S A} (a : A) : M S A := fun s => (s, Ok a).

Definition raise {S A} (e : exn) : M S A := fun s => (s, Raise e).

Definition bind {S A B} (c : M S A) (k : A -> M S B) : M S B :=
  fun s =>
    match c s with
    | (s', Ok a) => k a s'
    | (s', Raise e) => (s', Raise e)
    end.

Notation "x <- c ;; k" := (bind c (fun x => k))
  (at level 61, c at next level, right associativity).
Notation "' pat <- c ;; k" := (bind c (fun x => match x with pat => k end))
  (at level 61, pat pattern, c at next level, right associativity).
Notation "c ;;; k" := (bind c (fun _ => k))
  (at level 61, right associativity).

Definition lift {S A} (r : result A) : M S A := fun s => (s, r).

(** [assert b, msg] *)
Definition assert {S} (b : bool) (a : assertion) : M S unit :=
  if b then ret tt else raise (AssertionError a).

(** [k in kdict], [kdict[k]] and [kdict[k] = v] on the block in the store. *)
Definition contains (k : string) : M kdict bool :=
  fun kd => (kd, Ok (has k kd)).

Definition item (k : string) : M kdict value :=
  fun kd =>
    match get k kd with
    | Some v => (kd, Ok v)
    | None => (kd, Raise (KeyError k))
    end.

Definition set_item (k : string) (v : value) : M kdict unit :=
  fun kd => (set k v kd, Ok tt).

(** [for key in kernel_dict: body] with the loop-carried locals [acc]: the
    body runs on each block in order; a raise leaves the blocks already
    visited as they were rewritten and the others untouched. *)
Fixpoint for_blocks {A} (body : A -> M kdict A) (acc : A) (kernel : kernel_dict)
  : kernel_dict * result A :=
  match kernel with
  | [] => ([], Ok acc)
  | (key, kd) :: rest =>
      match body acc kd with
      | (kd', Ok acc') =>
          let (rest', r) := for_blocks body acc' rest in
          ((key, kd') :: rest', r)
      | (kd', Raise e) => ((key, kd') :: rest, Raise e)
      end
  end.

(** ** The normaliser: [prepare_kernels] and its set-up routines *)

(** [bounds += t] on a tuple. *)
Definition tuple_add (bounds : list value) (t : value) : result (list value) :=
  match t with
  | VTuple xs => Ok (bounds ++ xs)
  | _ => Raise TypeError
  end.

(** [for k in kdict_param: assert k in allowed_keys, msg1 + k + msg2] *)
Fixpoint check_keys (allowed : list string) (ktype : string) (ks : list string)
  : result unit :=
  match ks with
  | [] => Ok tt
  | k :: ks' =>
      if mem k allowed then check_keys allowed ktype ks'
      else Raise (AssertionError (UndefinedKey k ktype))
  end.

Definition assert_allowed (allowed : list string) (ktype : string) : M kdict unit :=
  fun kd => (kd, check_keys allowed ktype (keys kd)).

(** The tail shared by the routines:
    [if 'bounds' in kdict_param: bounds += kdict_param['bounds']
     else: bounds += default] *)
Definition bounds_or (bounds default : list value) : M kdict (list value) :=
  b <- contains "bounds" ;;
  if b then (t <- item "bounds" ;; lift (tuple_add bounds t))
  else ret (bounds ++ default).

(** [theta = kdict_param[k]
     if type(theta) is float or type(theta) is int:
         kdict_param[k] = [theta] * N_D] *)
Definition broadcast (k : string) (N_D : Z) : M kdict unit :=
  theta <- item k ;;
  if is_float_or_int theta then set_item k (VList (times [theta] N_D))
  else ret tt.

Definition _scaling_setup (bounds default_bounds : list value)
  : M kdict (list value) :=
  s <- item "scaling" ;;
  assert (is_float s) ScalingNotFloat ;;;
  b <- contains "scaling_bounds" ;;
  if b then (t <- item "scaling_bounds" ;; lift (tuple_add bounds t))
  else ret (bounds ++ default_bounds).

Definition _constant_setup (bounds : list value) (N_D : Z)
    (default_bounds : list value) : M kdict (list value) :=
  assert_allowed ["type"; "operation"; "features"; "dimension"; "const"]
                 "constant" ;;;
  c <- item "const" ;;
  assert (is_float c) ConstNotFloat ;;;
  bounds_or bounds default_bounds.

Definition _gaussian_setup (bounds : list value) (N_D : Z)
    (default_bounds : list value) : M kdict (list value) :=
  w <- contains "width" ;;
  assert w WidthNotSet ;;;
  assert_allowed ["type"; "operation"; "features"; "dimension"; "scaling";
                  "width"] "gaussian" ;;;
  broadcast "width" N_D ;;;
  bounds_or bounds (times default_bounds N_D).

Definition _quadratic_setup (bounds : list value) (N_D : Z)
    (default_bounds : list value) : M kdict (list value) :=
  s <- contains "slope" ;;
  d <- contains "degree" ;;
  assert (s && d) SlopeDegreeNotSet ;;;
  assert_allowed ["type"; "operation"; "features"; "dimension"; "scaling";
                  "slope"; "degree"] "quadratic" ;;;
  broadcast "slope" N_D ;;;
  bounds1 <- bounds_or bounds (times default_bounds N_D) ;;
  bounds_or bounds1 default_bounds.

Definition _laplacian_setup (bounds : list value) (N_D : Z)
    (default_bounds : list value) : M kdict (list value) :=
  w <- contains "width" ;;
  assert w WidthNotSet ;;;
  assert_allowed ["type"; "operation"; "features"; "dimension"; "scaling";
                  "width"] "laplacian" ;;;
  broadcast "width" N_D ;;;
  bounds_or bounds (times default_bounds N_D).

(** The characters of a Python name after its first. *)
Definition name_char (c : ascii) : bool :=
  let n := nat_of_ascii c in
  ((48 <=? n) && (n <=? 57) || (65 <=? n) && (n <=? 90)
   || (97 <=? n) && (n <=? 122) || (n =? 95))%nat.

Fixpoint name_chars (s : string) : bool :=
  match s with
  | EmptyString => true
  | String c s' => name_char c && name_chars s'
  end.

(** [eval('_{}_setup(kdict, bounds, N_D, default_bounds)'.format(ktype))]
    under [try: ... except NameError: raise NotImplementedError(...)].
    The names in scope of that shape are the four routines of four
    parameters and [_scaling_setup], which has three, so that its call
    with four arguments is a [TypeError].  Any other name is unbound.
    A tag that is not made of name characters turns the command into
    other program text, which is not followed: [EvalOfText]. *)
Definition dispatch (ktype : value) (bounds : list value) (N_D : Z)
    (default_bounds : list value) : M kdict (list value) :=
  match ktype with
  | VStr t | VText t =>
      if String.eqb t "constant" then _constant_setup bounds N_D default_bounds
      else if String.eqb t "gaussian" then _gaussian_setup bounds N_D default_bounds
      else if String.eqb t "quadratic" then _quadratic_setup bounds N_D default_bounds
      else if String.eqb t "laplacian" then _laplacian_setup bounds N_D default_bounds
      else if String.eqb t "scaling" then raise TypeError
      else if name_chars t then raise (NotImplementedError t)
      else raise EvalOfText
  | _ => raise EvalOfText
  end.

(** The body of the loop of [prepare_kernels]; [N_D] and [bounds] are the
    locals it carries from one block to the next.  Its first statements,
    down to the scaling bound, are the same for every type.  The dimension
    is checked with [in], which compares by equality, and then tested with
    [is 'single'], which holds of the interned string only. *)
Definition common_setup (default_bounds : list value) (acc : Z * list value)
  : M kdict (Z * list value) :=
  let '(N_D, bounds) := acc in
  t <- contains "type" ;;
  assert t KernelTypeNotSet ;;;
  hf <- contains "features" ;;
  N_D <- (if hf then
            fs <- item "features" ;;
            n <- lift (len fs) ;;
            let f := N_D in
            let N_D := Z.of_nat n in
            assert (N_D <=? f) TooManyFeatures ;;;
            ret N_D
          else ret N_D) ;;
  hd <- contains "dimension" ;;
  N_D <- (if hd then
            d <- item "dimension" ;;
            assert (str_eq d "single" || str_eq d "features") BadDimension ;;;
            ret (if str_is d "single" then 1 else N_D)
          else ret N_D) ;;
  hs <- contains "scaling" ;;
  bounds <- (if hs then _scaling_setup bounds default_bounds else ret bounds) ;;
  ret (N_D, bounds).

(** [if ktype is not 'user' and ktype is not 'linear': bounds = eval(cmd)]:
    the routine is skipped for the interned ['user'] and ['linear'] only. *)
Definition typed_setup (default_bounds : list value) (acc : Z * list value)
  : M kdict (Z * list value) :=
  let '(N_D, bounds) := acc in
  ktype <- item "type" ;;
  bounds <- (if negb (str_is ktype "user") && negb (str_is ktype "linear")
             then dispatch ktype bounds N_D default_bounds
             else ret bounds) ;;
  ret (N_D, bounds).

Definition prepare_block (default_bounds : list value) (acc : Z * list value)
  : M kdict (Z * list value) :=
  acc <- common_setup default_bounds acc ;;
  typed_setup default_bounds acc.

Definition f1e_12 : Q := 1 # 1000000000000.
Definition f1e_6 : Q := 1 # 1000000.
Definition f1e6 : Q := 1000000 # 1.

(** [default_bounds = ((1e-12, None),)], or [((1e-6, 1e6),)] under
    [eval_gradients]. *)
Definition default_pair (eval_gradients : bool) : value :=
  if eval_gradients
  then VTuple [VNum (Float f1e_6); VNum (Float f1e6)]
  else VTuple [VNum (Float f1e_12); VNone].

Definition default_bounds (eval_gradients : bool) : list value :=
  [default_pair eval_gradients].

(** [prepare_kernels(kernel_dict, regularization_bounds, eval_gradients, N_D)]:
    the caller's dictionary after the call, and the returned bounds tuple
    (the dictionary returned is the caller's own). *)
Definition prepare_kernels (kernel : kernel_dict) (regularization_bounds : value)
    (eval_gradients : bool) (N_D : Z) : kernel_dict * result (list value) :=
  let (kernel', r) :=
    for_blocks (prepare_block (default_bounds eval_gradients)) (N_D, []) kernel in
  (kernel',
   match r with
   | Ok (_, bounds) => Ok (bounds ++ [regularization_bounds])
   | Raise e => Raise e
   end).

(** ** The codec: [kdict2list], [kdicts2list] and [list2kdict] *)

(** [xs + v] on a list. *)
Definition list_add (xs : list value) (v : value) : result (list value) :=
  match v with
  | VList ys => Ok (xs ++ ys)
  | _ => Raise TypeError
  end.

(** The generic branch of [kdict2list] for key [k]
    (['hyperparameters'] or ['theta']):
    [theta = kdict[k]
     if 'features' in kdict: N_D = len(kdict['features'])
     elif N_D is None: N_D = len(theta)
     if type(theta) is float: theta = [theta] * N_D]
    It yields [theta] and the new value of the local [N_D]. *)
Definition generic_theta (k : string) (N_D : option Z) : M kdict (value * Z) :=
  theta <- item k ;;
  hf <- contains "features" ;;
  N_D <- (if hf then
            fs <- item "features" ;; n <- lift (len fs) ;; ret (Z.of_nat n)
          else match N_D with
               | None => n <- lift (len theta) ;; ret (Z.of_nat n)
               | Some n => ret n
               end) ;;
  if type_is_float theta then ret (VList (times [theta] N_D), N_D)
  else ret (theta, N_D).

(** The body of [kdict2list]; [theta] is unbound ([None]) until a branch
    assigns it.  [str(kdict['type'])] is compared with the type names
    through [str_eq]: the text of a value that is not a string is never one
    of them. *)
Definition kdict2list_body (N_D : option Z) : M kdict (list value * value) :=
  ktype <- item "type" ;;
  hs <- contains "scaling" ;;
  scaling <- (if hs then s <- item "scaling" ;; ret [s] else ret []) ;;
  theta <- (if str_eq ktype "gaussian" || str_eq ktype "sqe"
               || str_eq ktype "laplacian"
            then w <- item "width" ;; l <- lift (to_list w) ;;
                 ret (Some (VList l))
            else ret None) ;;
  hh <- contains "hyperparameters" ;;
  ht <- contains "theta" ;;
  '(theta, N_D) <-
    (if str_eq ktype "scaled_sqe" then
       d <- item "d_scaling" ;; dl <- lift (to_list d) ;;
       w <- item "width" ;; wl <- lift (to_list w) ;;
       ret (Some (VList (dl ++ wl)), N_D)
     else if str_eq ktype "quadratic" then
       s <- item "slope" ;; sl <- lift (to_list s) ;;
       d <- item "degree" ;;
       ret (Some (VList (sl ++ [d])), N_D)
     else if str_eq ktype "linear" then ret (Some (VList []), N_D)
     else if str_eq ktype "constant" then
       c <- item "const" ;; ret (Some (VList [c]), N_D)
     else if hh then
       '(t, n) <- generic_theta "hyperparameters" N_D ;; ret (Some t, Some n)
     else if ht then
       '(t, n) <- generic_theta "theta" N_D ;; ret (Some t, Some n)
     else ret (theta, N_D)) ;;
  hc <- contains "constrained" ;;
  (if hc then
     constrained <- item "constrained" ;;
     hf <- contains "features" ;;
     (if hf then n <- lift (len constrained) ;; ret tt
      else match N_D with
           | None => n <- lift (len constrained) ;; ret tt
           | Some _ => ret tt
           end) ;;;
     match theta with
     | Some _ => ret tt
     | None => raise UnboundLocalError
     end
   else ret tt) ;;;
  match theta with
  | Some t => ret (scaling, t)
  | None => raise UnboundLocalError
  end.

(** [kdict2list(kdict, N_D)]; the block is only read. *)
Definition kdict2list (kd : kdict) (N_D : option Z) : result (list value * value) :=
  snd (kdict2list_body N_D kd).

(** [numpy.concatenate] on a Python list of lists of numbers.  An empty
    list of arrays is a [ValueError].  An empty inner list is a [float64]
    array, so the result is of floats as soon as one inner list is empty
    or holds a float, and of ints otherwise.  Only one-dimensional numeric
    input is followed: a list holding anything but numbers is reported as
    [ValueError], which numpy raises for ragged input. *)
Definition as_num (v : value) : option num :=
  match v with VNum n => Some n | _ => None end.

Fixpoint as_nums (vs : list value) : option (list num) :=
  match vs with
  | [] => Some []
  | v :: vs' =>
      match as_num v, as_nums vs' with
      | Some n, Some ns => Some (n :: ns)
      | _, _ => None
      end
  end.

Fixpoint as_arrays (ls : list (list value)) : option (list (list num)) :=
  match ls with
  | [] => Some []
  | l :: ls' =>
      match as_nums l, as_arrays ls' with
      | Some a, Some rest => Some (a :: rest)
      | _, _ => None
      end
  end.

Definition num_is_float (n : num) : bool :=
  match n with Float _ => true | Int _ => false end.

Definition float64_array (a : list num) : bool :=
  match a with
  | [] => true
  | _ => existsb num_is_float a
  end.

Definition np_concatenate (ls : list (list value)) : result (list num) :=
  match ls with
  | [] => Raise ValueError
  | _ =>
      match as_arrays ls with
      | None => Raise ValueError
      | Some arrays =>
          let flat := List.concat arrays in
          Ok (if existsb float64_array arrays then map to_float flat else flat)
      end
  end.

(** The loop of [kdicts2list]: the list of per-block lists
    [theta[0] + theta[1]]. *)
Fixpoint kdicts2list_loop (kernel : kernel_dict) (N_D : option Z)
  : result (list (list value)) :=
  match kernel with
  | [] => Ok []
  | (_, kd) :: rest =>
      match kdict2list kd N_D with
      | Raise e => Raise e
      | Ok (scaling, theta) =>
          match list_add scaling theta with
          | Raise e => Raise e
          | Ok l =>
              match kdicts2list_loop rest N_D with
              | Raise e => Raise e
              | Ok ls => Ok (l :: ls)
              end
          end
      end
  end.

(** [kdicts2list(kernel_dict, N_D)] *)
Definition kdicts2list (kernel : kernel_dict) (N_D : option Z) : result (list num) :=
  match kdicts2list_loop kernel N_D with
  | Raise e => Raise e
  | Ok ls => np_concatenate ls
  end.

(** [float(hyperparameters[ki])] *)
Definition float_at (hyperparameters : list num) (ki : nat) : result value :=
  match nth_error hyperparameters ki with
  | Some n => Ok (VNum (to_float n))
  | None => Raise IndexError
  end.

(** [list(hyperparameters[i:j])] *)
Definition list_slice (hyperparameters : list num) (i j : nat) : value :=
  VList (map VNum (slice hyperparameters i j)).

(** [len(kernel_dict[key][k])] *)
Definition len_item (k : string) : M kdict nat :=
  v <- item k ;; lift (len v).

(** The chain of branches on the type in the body of the loop of
    [list2kdict]; [ki] is the cursor into the flat vector.  The last branch
    leaves [ki] where it is. *)
Definition decode_params (hyperparameters : list num) (ktype : value) (ki : nat)
  : M kdict nat :=
  if str_eq ktype "gaussian" || str_eq ktype "sqe" || str_eq ktype "laplacian"
  then
    N_D <- len_item "width" ;;
    set_item "width" (list_slice hyperparameters ki (ki + N_D)) ;;;
    ret (ki + N_D)%nat
  else if str_eq ktype "scaled_sqe" then
    N_D <- len_item "width" ;;
    set_item "d_scaling" (list_slice hyperparameters ki (ki + N_D)) ;;;
    set_item "width"
      (list_slice hyperparameters (ki + N_D) (ki + 2 * N_D)) ;;;
    ret (ki + 2 * N_D)%nat
  else if str_eq ktype "quadratic" then
    N_D <- len_item "slope" ;;
    let theta := slice hyperparameters ki (ki + N_D + 1) in
    set_item "slope" (VList (map VNum (firstn N_D theta))) ;;;
    set_item "degree" (VList (map VNum (skipn N_D theta))) ;;;
    ret (ki + N_D + 1)%nat
  else if str_eq ktype "linear" then ret ki
  else if str_eq ktype "constant" then
    c <- lift (float_at hyperparameters ki) ;;
    set_item "const" c ;;;
    ret (ki + 1)%nat
  else
    N_D <- len_item "hyperparameters" ;;
    set_item "hyperparameters" (list_slice hyperparameters ki (ki + N_D)) ;;;
    ret ki.

(** The body of the loop of [list2kdict]: the type is read, the scaling,
    if the block has one, is taken from the vector, and the branch of the
    type follows. *)
Definition list2kdict_block (hyperparameters : list num) (ki : nat) : M kdict nat :=
  ktype <- item "type" ;;
  hs <- contains "scaling" ;;
  ki <- (if hs then
           s <- lift (float_at hyperparameters ki) ;;
           set_item "scaling" s ;;;
           ret (ki + 1)%nat
         else ret ki) ;;
  decode_params hyperparameters ktype ki.

(** [list2kdict(hyperparameters, kernel_dict)]: the caller's dictionary
    after the call and whether the call returned it ([Ok]) or raised. *)
Definition list2kdict (hyperparameters : list num) (kernel : kernel_dict)
  : kernel_dict * result unit :=
  let (kernel', r) := for_blocks (list2kdict_block hyperparameters) 0%nat kernel in
  (kernel', match r with Ok _ => Ok tt | Raise e => Raise e end).

(** * Specifications

    Functions and predicates in which the properties below are stated. *)

(** ** What the normaliser computes *)

(** The types that have a set-up routine. *)
Definition routine_types : list string :=
  ["constant"; "gaussian"; "quadratic"; "laplacian"].

(** The dimension a block resolves from the count [ambient] that reaches
    it; ['single'] counts when it is the interned string ([is]). *)
Definition block_dimension (kd : kdict) (ambient : Z) : Z :=
  let N_D :=
    match get "features" kd with
    | Some fs => match len fs with Ok n => Z.of_nat n | Raise _ => ambient end
    | None => ambient
    end in
  match get "dimension" kd with
  | Some d => if str_is d "single" then 1 else N_D
  | None => N_D
  end.

(** The entries the common part appends for the block's scaling. *)
Definition scaling_entries (db : list value) (kd : kdict) : list value :=
  if has "scaling" kd then
    match get "scaling_bounds" kd with
    | Some (VTuple xs) => xs
    | _ => db
    end
  else [].

(** The entries the routine of the block's type appends. *)
Definition type_entries (db : list value) (kd : kdict) (N_D : Z) : list value :=
  match get "type" kd with
  | Some (VStr t) | Some (VText t) =>
      if String.eqb t "constant" then db
      else if String.eqb t "gaussian" || String.eqb t "laplacian" then times db N_D
      else if String.eqb t "quadratic" then times db N_D ++ db
      else []
  | _ => []
  end.

(** The block a routine leaves behind: a scalar under key [k] is replaced by
    its broadcast over [N_D]. *)
Definition broadcast_block (k : string) (N_D : Z) (kd : kdict) : kdict :=
  match get k kd with
  | Some theta =>
      if is_float_or_int theta then set k (VList (times [theta] N_D)) kd else kd
  | None => kd
  end.

(** The block the routine of the block's type leaves behind. *)
Definition typed_block (kd : kdict) (N_D : Z) : kdict :=
  match get "type" kd with
  | Some (VStr t) | Some (VText t) =>
      if String.eqb t "gaussian" || String.eqb t "laplacian"
      then broadcast_block "width" N_D kd
      else if String.eqb t "quadratic" then broadcast_block "slope" N_D kd
      else kd
  | _ => kd
  end.

(** The bounds of a normalisation that returns, block by block; the
    dimension resolved for a block is the count that reaches the next. *)
Fixpoint block_bounds (db : list value) (kernel : kernel_dict) (N_D : Z)
  : list value :=
  match kernel with
  | [] => []
  | (_, kd) :: rest =>
      let N_D' := block_dimension kd N_D in
      scaling_entries db kd ++ type_entries db kd N_D'
        ++ block_bounds db rest N_D'
  end.

Fixpoint normalised (kernel : kernel_dict) (N_D : Z) : kernel_dict :=
  match kernel with
  | [] => []
  | (key, kd) :: rest =>
      let N_D' := block_dimension kd N_D in
      (key, typed_block kd N_D') :: normalised rest N_D'
  end.

(** An entry taken from the ['scaling_bounds'] tuple of some block. *)
Definition scaling_override (kernel : kernel_dict) (b : value) : Prop :=
  exists key kd xs,
    In (key, kd) kernel /\ get "scaling_bounds" kd = Some (VTuple xs) /\ In b xs.

(** ** How much of the vector a dictionary stands for *)

(** [len(kdict[k])], zero where there is none. *)
Definition size_of (k : string) (kd : kdict) : nat :=
  match get k kd with
  | Some v => match len v with Ok n => n | Raise _ => 0%nat end
  | None => 0%nat
  end.

(** The number of elements a block stands for: one for ['scaling'], then
    by type the length of ['width'], twice that length, the length of
    ['slope'] and one, none, one, or the length of ['hyperparameters']. *)
Definition block_length (kd : kdict) : nat :=
  ((if has "scaling" kd then 1 else 0) +
   match get "type" kd with
   | Some ktype =>
       if str_eq ktype "gaussian" || str_eq ktype "sqe"
          || str_eq ktype "laplacian"
       then size_of "width" kd
       else if str_eq ktype "scaled_sqe" then 2 * size_of "width" kd
       else if str_eq ktype "quadratic" then size_of "slope" kd + 1
       else if str_eq ktype "linear" then 0
       else if str_eq ktype "constant" then 1
       else size_of "hyperparameters" kd
   | None => 0
   end)%nat.

Definition required_length (kernel : kernel_dict) : nat :=
  list_sum (map (fun entry => block_length (snd entry)) kernel).

(** The positions of the vector a block reads by index rather than by
    slice: its ['scaling'], and the ['const'] of a constant block. *)
Definition block_reads (ki : nat) (kd : kdict) : list nat :=
  (if has "scaling" kd then [ki] else [])
    ++ match get "type" kd with
       | Some ktype =>
           if str_eq ktype "constant"
           then [(ki + (if has "scaling" kd then 1 else 0))%nat]
           else []
       | None => []
       end.

Fixpoint index_reads (ki : nat) (kernel : kernel_dict) : list nat :=
  match kernel with
  | [] => []
  | (_, kd) :: rest =>
      block_reads ki kd ++ index_reads (ki + block_length kd) rest
  end.

(** A block of one of the seven types the codec names, holding the
    sequence its type is measured by. *)
Definition has_len (k : string) (kd : kdict) : bool :=
  match get k kd with
  | Some v => match len v with Ok _ => true | Raise _ => false end
  | None => false
  end.

Definition codec_block (kd : kdict) : bool :=
  match get "type" kd with
  | Some (VStr t) | Some (VText t) =>
      if String.eqb t "gaussian" || String.eqb t "sqe"
         || String.eqb t "laplacian" || String.eqb t "scaled_sqe"
      then has_len "width" kd
      else if String.eqb t "quadratic" then has_len "slope" kd
      else String.eqb t "linear" || String.eqb t "constant"
  | _ => false
  end.

Definition codec_kernel (kernel : kernel_dict) : bool :=
  forallb (fun entry => codec_block (snd entry)) kernel.

Definition all_within (hp : list num) (positions : list nat) : bool :=
  forallb (fun p => (p <? List.length hp)%nat) positions.

(** ** Plain blocks and their part of the vector *)

(** A list of floats. *)
Definition float_list (v : value) : bool :=
  match v with VList xs => forallb is_float xs | _ => false end.

Definition nums_of (v : value) : list num :=
  match v with
  | VList xs =>
      flat_map (fun x => match as_num x with Some n => [n] | None => [] end) xs
  | VNum n => [n]
  | _ => []
  end.

(** The parameters of a block of type gaussian, sqe, laplacian, scaled_sqe,
    linear or constant: floats in the shape its type calls for. *)
Definition plain_params (kd : kdict) : bool :=
  match get "type" kd with
  | Some (VStr t) | Some (VText t) =>
      if String.eqb t "gaussian" || String.eqb t "sqe"
         || String.eqb t "laplacian"
      then negb (has "hyperparameters" kd) && negb (has "theta" kd)
           && match get "width" kd with
              | Some w => float_list w
              | None => false
              end
      else if String.eqb t "scaled_sqe" then
        match get "d_scaling" kd, get "width" kd with
        | Some d, Some w =>
            float_list d && float_list w
            && (List.length (nums_of d) =? List.length (nums_of w))%nat
        | _, _ => false
        end
      else if String.eqb t "linear" then true
      else if String.eqb t "constant" then
        match get "const" kd with Some c => is_float c | None => false end
      else false
  | _ => false
  end.

Definition plain_block (kd : kdict) : bool :=
  match get "scaling" kd with Some s => is_float s | None => true end
  && negb (has "constrained" kd)
  && plain_params kd.

(** The part of the flat vector a plain block stands for: its scaling, then
    its parameters. *)
Definition params_vector (kd : kdict) : list num :=
  match get "type" kd with
  | Some (VStr t) | Some (VText t) =>
      if String.eqb t "scaled_sqe" then
        match get "d_scaling" kd, get "width" kd with
        | Some d, Some w => nums_of d ++ nums_of w
        | _, _ => []
        end
      else if String.eqb t "constant" then
        match get "const" kd with Some c => nums_of c | None => [] end
      else if String.eqb t "linear" then []
      else match get "width" kd with Some w => nums_of w | None => [] end
  | _ => []
  end.

Definition block_vector (kd : kdict) : list num :=
  match get "scaling" kd with Some s => nums_of s | None => [] end
    ++ params_vector kd.

Definition kernel_vector (kernel : kernel_dict) : list num :=
  List.concat (map (fun entry => block_vector (snd entry)) kernel).

(** ** Auxiliary notions *)

(** Computations that only read the store. *)
Definition readonly {S A} (c : M S A) : Prop := forall s, fst (c s) = s.

(** ** Example inputs *)

Definition flt (q : Q) : value := VNum (Float q).
Definition int (z : Z) : value := VNum (Int z).

(** [{k1: gaussian(width=[1, 1]), k2: constant(const=1.0)}] *)
Definition gaussian_and_constant : kernel_dict :=
  [("k1", [("type", VStr "gaussian"); ("width", VList [int 1; int 1])]);
   ("k2", [("type", VStr "constant"); ("const", flt 1)])].

(** One block of each type that has a routine, each with a ['bounds']
    tuple [((0.0, 1.0),)]. *)
Definition unit_bounds : value := VTuple [VTuple [flt 0; flt 1]].

Definition gaussian_with_bounds : kdict :=
  [("type", VStr "gaussian"); ("width", VList [flt 1]); ("bounds", unit_bounds)].
Definition laplacian_with_bounds : kdict :=
  [("type", VStr "laplacian"); ("width", VList [flt 1]); ("bounds", unit_bounds)].
Definition constant_with_bounds : kdict :=
  [("type", VStr "constant"); ("const", flt 1); ("bounds", unit_bounds)].
Definition quadratic_with_bounds : kdict :=
  [("type", VStr "quadratic"); ("slope", VList [flt 1; flt 2]);
   ("degree", flt 3); ("bounds", unit_bounds)].

(** [{a: gaussian(features=[0, 1], width=1.0), b: gaussian(width=1.0)}] *)
Definition features_then_plain : kernel_dict :=
  [("a", [("type", VStr "gaussian"); ("features", VList [int 0; int 1]);
          ("width", flt 1)]);
   ("b", [("type", VStr "gaussian"); ("width", flt 1)])].

(** [{a: user(hyperparameters=[1.0, 2.0]), b: constant(const=3.0)}] *)
Definition generic_then_constant : kernel_dict :=
  [("a", [("type", VStr "user"); ("hyperparameters", VList [flt 1; flt 2])]);
   ("b", [("type", VStr "constant"); ("const", flt 3)])].

(** [{q: quadratic(slope=[1.0, 2.0], degree=3.0)}] *)
Definition one_quadratic : kernel_dict :=
  [("q", [("type", VStr "quadratic"); ("slope", VList [flt 1; flt 2]);
          ("degree", flt 3)])].

(** [{a: gaussian(width=[1.0, 2.0]), b: constant(const=3.0)}] *)
Definition gaussian_then_constant : kernel_dict :=
  [("a", [("type", VStr "gaussian"); ("width", VList [flt 1; flt 2])]);
   ("b", [("type", VStr "constant"); ("const", flt 3)])].

(** ** Predicates of the further properties *)

Unset Implicit Arguments.

(** The features of the block are no more than the count that reaches it. *)
Definition features_fit (kd : kdict) (N_D : Z) : bool :=
  match get "features" kd with
  | None => true
  | Some fs => match len fs with Ok n => Z.of_nat n <=? N_D | Raise _ => false end
  end.

(** [kdict['dimension'] in ['single', 'features']], by equality. *)
Definition dimension_known (kd : kdict) : bool :=
  match get "dimension" kd with
  | None => true
  | Some d => str_eq d "single" || str_eq d "features"
  end.

(** A scaling is a float, and its bounds, if given, are a tuple. *)
Definition scaling_fit (kd : kdict) : bool :=
  match get "scaling" kd with
  | None => true
  | Some s =>
      is_float s
      && match get "scaling_bounds" kd with
         | None | Some (VTuple _) => true
         | Some _ => false
         end
  end.

Definition common_accepts (kd : kdict) (N_D : Z) : bool :=
  has "type" kd && features_fit kd N_D && dimension_known kd && scaling_fit kd.

(** [allowed_keys] of the routine of type [t]. *)
Definition allowed_keys (t : string) : list string :=
  if String.eqb t "constant"
  then ["type"; "operation"; "features"; "dimension"; "const"]
  else if String.eqb t "quadratic"
  then ["type"; "operation"; "features"; "dimension"; "scaling"; "slope";
        "degree"]
  else ["type"; "operation"; "features"; "dimension"; "scaling"; "width"].

Definition keys_allowed (t : string) (kd : kdict) : bool :=
  forallb (fun k => mem k (allowed_keys t)) (keys kd).

(** What the dispatch on the type asks of a block.  Nothing of a block
    whose tag is the interned ['user'] or ['linear']; the checks of its
    routine of a block whose tag names one; any other tag has no routine,
    and so has a ['user'] or ['linear'] that is not the interned string. *)
Definition typed_accepts (kd : kdict) : bool :=
  match get "type" kd with
  | Some (VStr t) =>
      if String.eqb t "user" || String.eqb t "linear" then true
      else if String.eqb t "constant" then
        keys_allowed t kd
        && match get "const" kd with Some c => is_float c | None => false end
      else if String.eqb t "gaussian" || String.eqb t "laplacian" then
        has "width" kd && keys_allowed t kd
      else if String.eqb t "quadratic" then
        has "slope" kd && has "degree" kd && keys_allowed t kd
      else false
  | Some (VText t) =>
      if String.eqb t "constant" then
        keys_allowed t kd
        && match get "const" kd with Some c => is_float c | None => false end
      else if String.eqb t "gaussian" || String.eqb t "laplacian" then
        has "width" kd && keys_allowed t kd
      else if String.eqb t "quadratic" then
        has "slope" kd && has "degree" kd && keys_allowed t kd
      else false
  | _ => false
  end.

Definition block_accepts (kd : kdict) (N_D : Z) : bool :=
  common_accepts kd N_D && typed_accepts kd.

(** Every block is accepted with the count that reaches it. *)
Fixpoint accepts (kernel : kernel_dict) (N_D : Z) : bool :=
  match kernel with
  | [] => true
  | (_, kd) :: rest =>
      block_accepts kd N_D && accepts rest (block_dimension kd N_D)
  end.

(** The type tags for which the command of [dispatch] is the call of a
    name: strings of name characters. *)
Definition name_tag (kd : kdict) : bool :=
  match get "type" kd with
  | Some (VStr t) | Some (VText t) => name_chars t
  | Some _ => false
  | None => true
  end.

Definition name_tags (kernel : kernel_dict) : bool :=
  forallb (fun entry => name_tag (snd entry)) kernel.

(** The routine of a type writes under one key at most. *)
Definition written_key (kd : kdict) : option string :=
  match get "type" kd with
  | Some (VStr t) | Some (VText t) =>
      if String.eqb t "gaussian" || String.eqb t "laplacian" then Some "width"
      else if String.eqb t "quadratic" then Some "slope"
      else None
  | _ => None
  end.

(** A computation whose final store is related to its initial one by [R],
    whether it returns or raises. *)
Definition frames {S A} (R : S -> S -> Prop) (c : M S A) : Prop :=
  forall s, R s (fst (c s)).

(** The same entries in the same order, each block related by [R]. *)
Definition blockwise (R : kdict -> kdict -> Prop)
    (kernel kernel' : kernel_dict) : Prop :=
  Forall2 (fun entry entry' =>
             fst entry' = fst entry /\ R (snd entry) (snd entry'))
          kernel kernel'.

(** The keys are the same, in the same order, and so is every value under
    a key outside [written]. *)
Definition same_but (written : list string) (kd kd' : kdict) : Prop :=
  keys kd' = keys kd
  /\ forall k, ~ In k written -> get k kd' = get k kd.

(** No key is lost, and every value under a key outside [written] is the
    same. *)
Definition kept_but (written : list string) (kd kd' : kdict) : Prop :=
  incl (keys kd) (keys kd')
  /\ forall k, ~ In k written -> get k kd' = get k kd.

Definition normaliser_writes : list string := ["width"; "slope"].

Definition decoder_writes : list string :=
  ["scaling"; "width"; "d_scaling"; "slope"; "degree"; "const";
   "hyperparameters"].



(** The first key of the block, in its order, that the routine of type [t]
    does not allow. *)
Definition first_undefined (t : string) (kd : kdict) : option string :=
  find (fun k => negb (mem k (allowed_keys t))) (keys kd).

(** The error of the routine of type [t] on a block that lacks what the
    routine requires, or whose ['const'] is not a float. *)
Definition required_error (t : string) (kd : kdict) : option exn :=
  if String.eqb t "gaussian" || String.eqb t "laplacian" then
    if has "width" kd then None else Some (AssertionError WidthNotSet)
  else if String.eqb t "quadratic" then
    if has "slope" kd && has "degree" kd then None
    else Some (AssertionError SlopeDegreeNotSet)
  else if String.eqb t "constant" then
    match first_undefined t kd, get "const" kd with
    | Some _, _ => None
    | None, None => Some (KeyError "const")
    | None, Some c =>
        if is_float c then None else Some (AssertionError ConstNotFloat)
    end
  else None.

(** The parameter the routine of the block broadcasts is a scalar, or a
    sequence of as many elements as the dimension resolved for the block;
    the block is of a type with a routine or linear, and has no
    ['scaling_bounds']. *)
Definition measured (kd : kdict) (N_D : Z) : bool :=
  negb (has "scaling_bounds" kd)
  && match written_key kd with
     | Some k =>
         match get k kd with
         | Some v =>
             is_float_or_int v
             || match len v with
                | Ok n => (n =? Z.to_nat N_D)%nat
                | Raise _ => false
                end
         | None => false
         end
     | None =>
         match get "type" kd with
         | Some (VStr t) | Some (VText t) =>
             String.eqb t "constant" || String.eqb t "linear"
         | _ => false
         end
     end.

Fixpoint measured_kernel (kernel : kernel_dict) (N_D : Z) : bool :=
  match kernel with
  | [] => true
  | (_, kd) :: rest =>
      let N_D' := block_dimension kd N_D in
      measured kd N_D' && measured_kernel rest N_D'
  end.

(** The block is encoded from the keys it is decoded into: a gaussian, sqe
    or laplacian block has no ['hyperparameters'] or ['theta'] to take the
    place of its ['width'], a scaled_sqe block has as many ['d_scaling'] as
    ['width'], and a block of a generic type has a list of
    ['hyperparameters']. *)
Definition aligned (kd : kdict) : bool :=
  match get "type" kd with
  | Some ktype =>
      if str_eq ktype "gaussian" || str_eq ktype "sqe"
         || str_eq ktype "laplacian"
      then negb (has "hyperparameters" kd) && negb (has "theta" kd)
      else if str_eq ktype "scaled_sqe"
      then (size_of "d_scaling" kd =? size_of "width" kd)%nat
      else if str_eq ktype "quadratic" || str_eq ktype "linear"
              || str_eq ktype "constant"
      then true
      else match get "hyperparameters" kd with
           | Some (VList _) => true
           | _ => false
           end
  | None => true
  end.

(** The parameters of a block the decoder fills from floats: the type is
    gaussian, sqe, laplacian, scaled_sqe, linear or constant, the ['width']
    has a length where the type has one, and a block of the first three
    types has no ['hyperparameters'] and no ['theta']. *)
Definition decodable_params (kd : kdict) : bool :=
  match get "type" kd with
  | Some (VStr t) | Some (VText t) =>
      if String.eqb t "gaussian" || String.eqb t "sqe"
         || String.eqb t "laplacian"
      then negb (has "hyperparameters" kd) && negb (has "theta" kd)
           && has_len "width" kd
      else if String.eqb t "scaled_sqe" then has_len "width" kd
      else String.eqb t "linear" || String.eqb t "constant"
  | _ => false
  end.

(** Such a block without ['constrained']. *)
Definition decodable (kd : kdict) : bool :=
  negb (has "constrained" kd) && decodable_params kd.

(** The number of elements the parameters of a block stand for:
    [block_length] without the scaling. *)
Definition params_length (kd : kdict) : nat :=
  match get "type" kd with
  | Some ktype =>
      if str_eq ktype "gaussian" || str_eq ktype "sqe"
         || str_eq ktype "laplacian"
      then size_of "width" kd
      else if str_eq ktype "scaled_sqe" then 2 * size_of "width" kd
      else if str_eq ktype "quadratic" then size_of "slope" kd + 1
      else if str_eq ktype "linear" then 0
      else if str_eq ktype "constant" then 1
      else size_of "hyperparameters" kd
  | None => 0
  end%nat.

(** The keys the branches of these types assign. *)
Definition params_keys : list string := ["width"; "d_scaling"; "const"].

(** The type names [kdict2list] and [list2kdict] have a branch for. *)
Definition named_type (ktype : value) : bool :=
  str_eq ktype "gaussian" || str_eq ktype "sqe" || str_eq ktype "laplacian"
  || str_eq ktype "scaled_sqe" || str_eq ktype "quadratic"
  || str_eq ktype "linear" || str_eq ktype "constant".

(** A block whose type is one of them. *)
Definition named_block (kd : kdict) : bool :=
  match get "type" kd with
  | Some ktype => named_type ktype
  | None => false
  end.

(** The types whose ['width'] is read by the first [if] of [kdict2list]. *)
Definition width_type (ktype : value) : bool :=
  str_eq ktype "gaussian" || str_eq ktype "sqe" || str_eq ktype "laplacian".

(** The key of the generic branch [kdict2list] takes:
    ['hyperparameters'] before ['theta']. *)
Definition generic_key (kd : kdict) : option string :=
  if has "hyperparameters" kd then Some "hyperparameters"
  else if has "theta" kd then Some "theta"
  else None.

(** [scaling] of [kdict2list]. *)
Definition scaling_list (kd : kdict) : list value :=
  match get "scaling" kd with Some s => [s] | None => [] end.

(** [N_D] as the generic branch of [kdict2list] sets it for a float. *)
Definition repeat_count (kd : kdict) (N_D : option Z) : result nat :=
  match get "features" kd with
  | Some fs => len fs
  | None =>
      match N_D with
      | Some n => Ok (Z.to_nat n)
      | None => Raise TypeError
      end
  end.

(** A block whose type has no branch of its own and that holds neither
    ['hyperparameters'] nor ['theta']. *)
Definition unparameterised (kd : kdict) : bool :=
  match get "type" kd with
  | Some ktype => negb (named_type ktype)
  | None => false
  end
  && negb (has "hyperparameters" kd) && negb (has "theta" kd).

(** The block holds the keys the branch of type [ktype] assigns without
    reading them first: ['d_scaling'], ['degree'], ['const']. *)
Definition stocked_for (ktype : value) (kd : kdict) : bool :=
  if str_eq ktype "scaled_sqe" then has "d_scaling" kd
  else if str_eq ktype "quadratic" then has "degree" kd
  else if str_eq ktype "constant" then has "const" kd
  else true.

Definition stocked (kd : kdict) : bool :=
  match get "type" kd with
  | Some ktype => stocked_for ktype kd
  | None => true
  end.

(** A block that is not quadratic and has no ['constrained']. *)
Definition steady (kd : kdict) : bool :=
  match get "type" kd with
  | Some ktype => negb (str_eq ktype "quadratic")
  | None => true
  end
  && negb (has "constrained" kd).

(** A computation whose result is the same whatever the block holds under
    key [k]. *)
Definition ignores {A} (k : string) (c : M kdict A) : Prop :=
  forall s v, snd (c (set k v s)) = snd (c s).

(** * Properties *)

Unset Implicit Arguments.

(** ** Dictionaries and the monad *)

Ltac run :=
  unfold bind, ret, raise, lift, assert, contains, item, set_item,
    assert_allowed in *; simpl in *.

Lemma times_singleton (v : value) (n : Z) :
  times [v] n = List.repeat v (Z.to_nat n).
Proof.
  unfold times. induction (Z.to_nat n) as [|m IH]; simpl; [reflexivity|].
  now rewrite IH.
Qed.

Section Dictionaries.

Context {V : Type}.

Lemma has_true_get (k : string) (d : dict V) :
  has k d = true <-> exists v, get k d = Some v.
Proof.
  unfold has. destruct (get k d) as [v|]; split; intros H.
  - now exists v.
  - reflexivity.
  - discriminate.
  - destruct H as [v H]. discriminate.
Qed.

Lemma has_false_get (k : string) (d : dict V) :
  has k d = false <-> get k d = None.
Proof.
  unfold has. destruct (get k d); split; intros H; congruence.
Qed.

Lemma get_in_keys (k : string) (d : dict V) (v : V) :
  get k d = Some v -> In k (keys d).
Proof.
  induction d as [|[k' v'] d IH]; simpl; [discriminate|].
  destruct (String.eqb_spec k k') as [->|Hne]; intros H.
  - now left.
  - right. now apply IH.
Qed.

Lemma get_set_same (k : string) (v : V) (d : dict V) :
  get k (set k v d) = Some v.
Proof.
  induction d as [|[k' v'] d IH]; simpl.
  - now rewrite String.eqb_refl.
  - destruct (String.eqb_spec k k') as [->|Hne]; simpl.
    + now rewrite String.eqb_refl.
    + destruct (String.eqb_spec k k'); [contradiction|]. exact IH.
Qed.

Lemma get_set_other (k k' : string) (v : V) (d : dict V) :
  k <> k' -> get k (set k' v d) = get k d.
Proof.
  intros Hne. induction d as [|[k0 v0] d IH]; simpl.
  - destruct (String.eqb_spec k k'); [contradiction|reflexivity].
  - destruct (String.eqb_spec k' k0) as [->|Hne0]; simpl.
    + destruct (String.eqb_spec k k0); [contradiction|reflexivity].
    + destruct (String.eqb_spec k k0); [reflexivity|exact IH].
Qed.

Lemma set_get_id (k : string) (v : V) (d : dict V) :
  get k d = Some v -> set k v d = d.
Proof.
  induction d as [|[k' v'] d IH]; simpl; [discriminate|].
  destruct (String.eqb_spec k k') as [->|Hne]; intros H.
  - now inversion H.
  - now rewrite IH.
Qed.

End Dictionaries.

(** ** Key validation *)

Lemma check_keys_cases (allowed : list string) (t : string) (ks : list string) :
  (check_keys allowed t ks = Ok tt /\ forall k, In k ks -> mem k allowed = true)
  \/ exists k, In k ks /\ mem k allowed = false
               /\ check_keys allowed t ks = Raise (AssertionError (UndefinedKey k t)).
Proof.
  induction ks as [|k ks IH]; simpl.
  - left. split; [reflexivity|]. intros k [].
  - destruct (mem k allowed) eqn:Hm.
    + destruct IH as [[H1 H2]|(k' & Hin & Hk' & H)].
      * left. split; [exact H1|]. intros k' [<-|Hin]; auto.
      * right. exists k'. auto.
    + right. exists k. auto.
Qed.

Lemma check_keys_rejects (allowed : list string) (t k : string) (kd : kdict) :
  has k kd = true -> mem k allowed = false ->
  exists k', check_keys allowed t (keys kd)
             = Raise (AssertionError (UndefinedKey k' t)).
Proof.
  intros Hh Hm. apply has_true_get in Hh as [v Hg].
  apply get_in_keys in Hg.
  destruct (check_keys_cases allowed t (keys kd)) as [[_ H]|(k' & _ & _ & H)].
  - rewrite (H _ Hg) in Hm. discriminate.
  - now exists k'.
Qed.

Lemma check_keys_accepts (allowed : list string) (t k : string) (kd : kdict) :
  check_keys allowed t (keys kd) = Ok tt -> mem k allowed = false ->
  has k kd = false.
Proof.
  intros Hc Hm. destruct (has k kd) eqn:Hh; [|reflexivity].
  destruct (check_keys_rejects allowed t k kd Hh Hm) as [k' H].
  rewrite H in Hc. discriminate.
Qed.

(** The set-up routines on a block that carries a ['bounds'] key: each of
    them stops at an assertion, and leaves the block as it found it. *)
Lemma gaussian_setup_bounds_key (bounds db : list value) (N_D : Z) (kd : kdict) :
  has "bounds" kd = true ->
  exists a, _gaussian_setup bounds N_D db kd = (kd, Raise (AssertionError a)).
Proof.
  intros Hb. unfold _gaussian_setup. run.
  destruct (has "width" kd); simpl; [|now eexists].
  destruct (check_keys_rejects
              ["type"; "operation"; "features"; "dimension"; "scaling"; "width"]
              "gaussian" "bounds" kd Hb eq_refl) as [k' ->].
  now eexists.
Qed.

Lemma laplacian_setup_bounds_key (bounds db : list value) (N_D : Z) (kd : kdict) :
  has "bounds" kd = true ->
  exists a, _laplacian_setup bounds N_D db kd = (kd, Raise (AssertionError a)).
Proof.
  intros Hb. unfold _laplacian_setup. run.
  destruct (has "width" kd); simpl; [|now eexists].
  destruct (check_keys_rejects
              ["type"; "operation"; "features"; "dimension"; "scaling"; "width"]
              "laplacian" "bounds" kd Hb eq_refl) as [k' ->].
  now eexists.
Qed.

Lemma constant_setup_bounds_key (bounds db : list value) (N_D : Z) (kd : kdict) :
  has "bounds" kd = true ->
  exists a, _constant_setup bounds N_D db kd = (kd, Raise (AssertionError a)).
Proof.
  intros Hb. unfold _constant_setup. run.
  destruct (check_keys_rejects
              ["type"; "operation"; "features"; "dimension"; "const"]
              "constant" "bounds" kd Hb eq_refl) as [k' ->].
  now eexists.
Qed.

Lemma quadratic_setup_bounds_key (bounds db : list value) (N_D : Z) (kd : kdict) :
  has "bounds" kd = true ->
  exists a, _quadratic_setup bounds N_D db kd = (kd, Raise (AssertionError a)).
Proof.
  intros Hb. unfold _quadratic_setup. run.
  destruct (has "slope" kd && has "degree" kd); simpl; [|now eexists].
  destruct (check_keys_rejects
              ["type"; "operation"; "features"; "dimension"; "scaling"; "slope";
               "degree"]
              "quadratic" "bounds" kd Hb eq_refl) as [k' ->].
  now eexists.
Qed.

(** ** The loop over the blocks *)

Section Loop.

Context {A : Type} (body : A -> M kdict A).

Lemma for_blocks_app (pre post : kernel_dict) (acc : A) :
  for_blocks body acc (pre ++ post) =
  match for_blocks body acc pre with
  | (pre', Ok acc') =>
      let (post', r) := for_blocks body acc' post in (pre' ++ post', r)
  | (pre', Raise e) => (pre' ++ post, Raise e)
  end.
Proof.
  revert acc. induction pre as [|[key kd] pre IH]; intros acc; simpl.
  - now destruct (for_blocks body acc post).
  - destruct (body acc kd) as [kd' [acc'|e]]; [|reflexivity].
    rewrite IH. destruct (for_blocks body acc' pre) as [pre' [acc''|e]].
    + now destruct (for_blocks body acc'' post).
    + reflexivity.
Qed.

(** A block on which the body raises whatever the carried locals makes the
    whole loop raise. *)
Lemma for_blocks_raises (kernel : kernel_dict)
    (key : string) (kd : kdict) :
  In (key, kd) kernel ->
  (forall acc, exists kd' e, body acc kd = (kd', Raise e)) ->
  forall acc, exists kernel' e, for_blocks body acc kernel = (kernel', Raise e).
Proof.
  intros Hin Hbody. induction kernel as [|[key0 kd0] rest IH]; [destruct Hin|].
  intros acc. simpl.
  destruct (body acc kd0) as [kd0' [acc'|e]] eqn:Hb.
  - destruct Hin as [Heq|Hin].
    + inversion Heq; subst. destruct (Hbody acc) as (kd' & e & H).
      rewrite H in Hb. discriminate.
    + destruct (IH Hin acc') as (rest' & e & ->). now eexists _, _.
  - now eexists _, _.
Qed.

Lemma for_blocks_snd_cons (acc : A) (key : string)
    (kd : kdict) (rest : kernel_dict) :
  snd (for_blocks body acc ((key, kd) :: rest))
  = match snd (body acc kd) with
    | Ok acc' => snd (for_blocks body acc' rest)
    | Raise e => Raise e
    end.
Proof.
  simpl. destruct (body acc kd) as [kd' [acc'|e]]; simpl; [|reflexivity].
  now destruct (for_blocks body acc' rest).
Qed.

(** A raise in the loop keeps what the turns before it wrote. *)
Lemma for_blocks_raise_keeps_prefix
    (pre post pre' : kernel_dict) (key : string) (kd kd' : kdict)
    (acc acc' : A) (e : exn) :
  for_blocks body acc pre = (pre', Ok acc') ->
  body acc' kd = (kd', Raise e) ->
  for_blocks body acc (pre ++ (key, kd) :: post)
  = (pre' ++ (key, kd') :: post, Raise e).
Proof.
  intros Hpre Hb. rewrite for_blocks_app, Hpre. simpl. now rewrite Hb.
Qed.

End Loop.

(** ** Computations that only read the store *)

Lemma ro_ret {S A} (a : A) : readonly (@ret S A a).
Proof. now intros s. Qed.

Lemma ro_raise {S A} (e : exn) : readonly (@raise S A e).
Proof. now intros s. Qed.

Lemma ro_lift {S A} (r : result A) : readonly (@lift S A r).
Proof. now intros s. Qed.

Lemma ro_assert {S} (b : bool) (a : assertion) : readonly (@assert S b a).
Proof. intros s. now destruct b. Qed.

Lemma ro_contains (k : string) : readonly (contains k).
Proof. now intros s. Qed.

Lemma ro_item (k : string) : readonly (item k).
Proof. intros s. unfold item. now destruct (get k s). Qed.

Lemma ro_assert_allowed (allowed : list string) (t : string) :
  readonly (assert_allowed allowed t).
Proof. now intros s. Qed.

Lemma ro_bind {S A B} (c : M S A) (k : A -> M S B) :
  readonly c -> (forall a, readonly (k a)) -> readonly (bind c k).
Proof.
  intros Hc Hk s. unfold bind. specialize (Hc s).
  destruct (c s) as [s' [a|e]]; simpl in *; subst; [apply Hk|reflexivity].
Qed.

Create HintDb readonly.

#[local] Hint Resolve ro_ret ro_raise ro_lift ro_assert ro_contains ro_item
  ro_assert_allowed : readonly.

Ltac ro_step :=
  first
    [ apply ro_bind
    | solve [auto with readonly]
    | match goal with
      | |- readonly (if ?b then _ else _) => destruct b
      | |- readonly (match ?x with _ => _ end) => destruct x
      | |- forall _, _ => intro
      end ].

Ltac ro := repeat ro_step.

(** The common part of the loop body only reads the block. *)
Lemma ro_scaling_setup (bounds db : list value) :
  readonly (_scaling_setup bounds db).
Proof. unfold _scaling_setup. ro. Qed.

Lemma ro_common_setup (db : list value) (acc : Z * list value) :
  readonly (common_setup db acc).
Proof.
  destruct acc as [N_D bounds]. unfold common_setup. ro.
  all: apply ro_scaling_setup.
Qed.

(** [kdict2list] only reads the block. *)
Lemma ro_kdict2list_body (N_D : option Z) : readonly (kdict2list_body N_D).
Proof. unfold kdict2list_body, generic_theta. ro. Qed.

(** ** Blocks the normaliser cannot accept *)

Lemma dispatch_bounds_key (t : string) (bounds db : list value) (N_D : Z)
    (kd : kdict) :
  In t routine_types -> has "bounds" kd = true ->
  exists a, dispatch (VStr t) bounds N_D db kd = (kd, Raise (AssertionError a)).
Proof.
  intros Ht Hb. unfold routine_types in Ht. simpl in Ht.
  destruct Ht as [<-|[<-|[<-|[<-|[]]]]]; simpl.
  - now apply constant_setup_bounds_key.
  - now apply gaussian_setup_bounds_key.
  - now apply quadratic_setup_bounds_key.
  - now apply laplacian_setup_bounds_key.
Qed.

(** The loop body on a block: the common part leaves the block alone and
    hands its result to the typed part. *)
Lemma prepare_block_unfold (db : list value) (acc : Z * list value) (kd : kdict) :
  prepare_block db acc kd =
  match snd (common_setup db acc kd) with
  | Ok acc' => typed_setup db acc' kd
  | Raise e => (kd, Raise e)
  end.
Proof.
  unfold prepare_block, bind. pose proof (ro_common_setup db acc kd) as H.
  destruct (common_setup db acc kd) as [kd' [acc'|e]]; simpl in *; now subst.
Qed.

Lemma typed_setup_dispatch (db : list value) (N_D : Z) (bounds : list value)
    (t : string) (kd : kdict) :
  get "type" kd = Some (VStr t) -> t <> "user" -> t <> "linear" ->
  typed_setup db (N_D, bounds) kd =
  match dispatch (VStr t) bounds N_D db kd with
  | (kd', Ok bounds') => (kd', Ok (N_D, bounds'))
  | (kd', Raise e) => (kd', Raise e)
  end.
Proof.
  intros Hg Hu Hl. unfold typed_setup, bind, item. rewrite Hg. cbn [str_eq str_is].
  destruct (String.eqb_spec t "user"); [contradiction|].
  destruct (String.eqb_spec t "linear"); [contradiction|]. cbn [negb andb].
  destruct (dispatch (VStr t) bounds N_D db kd) as [kd' [b|e]]; reflexivity.
Qed.

Lemma routine_type_not_user_linear (t : string) :
  In t routine_types -> t <> "user" /\ t <> "linear".
Proof.
  unfold routine_types. simpl.
  intros [<-|[<-|[<-|[<-|[]]]]]; split; discriminate.
Qed.

(** A block of a type that has a set-up routine and that carries a
    ['bounds'] key stops the loop body, whatever the carried locals. *)
Lemma prepare_block_bounds_key (db : list value) (t : string) (kd : kdict) :
  get "type" kd = Some (VStr t) -> In t routine_types -> has "bounds" kd = true ->
  forall acc, exists kd' e, prepare_block db acc kd = (kd', Raise e).
Proof.
  intros Hg Ht Hb acc. rewrite prepare_block_unfold.
  destruct (snd (common_setup db acc kd)) as [[N_D bounds]|e]; [|now eexists _, _].
  destruct (routine_type_not_user_linear t Ht) as [Hu Hl].
  rewrite (typed_setup_dispatch db N_D bounds t kd Hg Hu Hl).
  destruct (dispatch_bounds_key t bounds db N_D kd Ht Hb) as [a ->].
  now eexists _, _.
Qed.

Lemma prepare_kernels_raises (kernel : kernel_dict) (rb : value) (eg : bool)
    (N_D : Z) (key : string) (kd : kdict) :
  In (key, kd) kernel ->
  (forall acc, exists kd' e,
      prepare_block (default_bounds eg) acc kd = (kd', Raise e)) ->
  exists kernel' e, prepare_kernels kernel rb eg N_D = (kernel', Raise e).
Proof.
  intros Hin Hb. unfold prepare_kernels.
  destruct (for_blocks_raises (prepare_block (default_bounds eg)) kernel key kd
              Hin Hb (N_D, [])) as (kernel' & e & ->).
  now eexists _, _.
Qed.

(** No kernel dictionary with a ['bounds'] key in a block of a type that has
    a set-up routine is normalised: [prepare_kernels] raises. *)
Lemma prepare_kernels_bounds_key (kernel : kernel_dict) (rb : value) (eg : bool)
    (N_D : Z) (key t : string) (kd : kdict) :
  In (key, kd) kernel -> get "type" kd = Some (VStr t) -> In t routine_types ->
  has "bounds" kd = true ->
  exists kernel' e, prepare_kernels kernel rb eg N_D = (kernel', Raise e).
Proof.
  intros Hin Hg Ht Hb. apply (prepare_kernels_raises kernel rb eg N_D key kd Hin).
  now apply prepare_block_bounds_key with (t := t).
Qed.

(** What the two tails of [_quadratic_setup] would do on a block with a
    ['bounds'] tuple, could they be reached: the tuple is added twice. *)
Lemma quadratic_tails_add_twice (bounds d1 d2 xs : list value) (kd : kdict) :
  get "bounds" kd = Some (VTuple xs) ->
  (b1 <- bounds_or bounds d1 ;; bounds_or b1 d2) kd
  = (kd, Ok (bounds ++ xs ++ xs)).
Proof.
  intros Hg. unfold bounds_or, bind, contains, item, lift, has.
  repeat (rewrite Hg; simpl). now rewrite app_assoc.
Qed.

(** Types the codec knows and the normaliser has no routine for. *)
Lemma dispatch_sqe (t : string) (bounds db : list value) (N_D : Z) (kd : kdict) :
  t = "sqe" \/ t = "scaled_sqe" ->
  dispatch (VStr t) bounds N_D db kd = (kd, Raise (NotImplementedError t)).
Proof. intros [->| ->]; reflexivity. Qed.

Lemma prepare_block_sqe (db : list value) (t : string) (kd : kdict)
    (acc : Z * list value) :
  t = "sqe" \/ t = "scaled_sqe" -> get "type" kd = Some (VStr t) ->
  prepare_block db acc kd =
  (kd, match snd (common_setup db acc kd) with
       | Ok _ => Raise (NotImplementedError t)
       | Raise e => Raise e
       end).
Proof.
  intros Ht Hg. rewrite prepare_block_unfold.
  destruct (snd (common_setup db acc kd)) as [[N_D bounds]|e]; [|reflexivity].
  rewrite (typed_setup_dispatch db N_D bounds t kd Hg).
  - now rewrite dispatch_sqe.
  - destruct Ht as [->| ->]; discriminate.
  - destruct Ht as [->| ->]; discriminate.
Qed.

(** The same for a tag that is a string of these characters, interned or
    not. *)
Lemma prepare_block_sqe_text (db : list value) (t : string) (ktype : value)
    (kd : kdict) (acc : Z * list value) :
  t = "sqe" \/ t = "scaled_sqe" ->
  get "type" kd = Some ktype -> text ktype = Some t ->
  prepare_block db acc kd =
  (kd, match snd (common_setup db acc kd) with
       | Ok _ => Raise (NotImplementedError t)
       | Raise e => Raise e
       end).
Proof.
  intros Ht Hg Htext.
  destruct ktype as [|s| | | |s]; try discriminate; inversion Htext; subst s.
  - now apply prepare_block_sqe.
  - rewrite prepare_block_unfold.
    destruct (snd (common_setup db acc kd)) as [[N_D bounds]|e]; [|reflexivity].
    unfold typed_setup, bind, item. rewrite Hg.
    destruct Ht as [->| ->]; reflexivity.
Qed.

(** No kernel dictionary with an ['sqe'] or ['scaled_sqe'] block is
    normalised. *)
Lemma prepare_kernels_sqe_raises (kernel : kernel_dict) (rb : value) (eg : bool)
    (N_D : Z) (key t : string) (kd : kdict) :
  In (key, kd) kernel -> t = "sqe" \/ t = "scaled_sqe" ->
  get "type" kd = Some (VStr t) ->
  exists kernel' e, prepare_kernels kernel rb eg N_D = (kernel', Raise e).
Proof.
  intros Hin Ht Hg. apply (prepare_kernels_raises kernel rb eg N_D key kd Hin).
  intros acc. rewrite (prepare_block_sqe _ t kd acc Ht Hg).
  destruct (snd (common_setup (default_bounds eg) acc kd)); now eexists _, _.
Qed.

Lemma prepare_kernels_sqe_text_raises (kernel : kernel_dict) (rb : value)
    (eg : bool) (N_D : Z) (key t : string) (ktype : value) (kd : kdict) :
  In (key, kd) kernel -> t = "sqe" \/ t = "scaled_sqe" ->
  get "type" kd = Some ktype -> text ktype = Some t ->
  exists kernel' e, prepare_kernels kernel rb eg N_D = (kernel', Raise e).
Proof.
  intros Hin Ht Hg Htext.
  apply (prepare_kernels_raises kernel rb eg N_D key kd Hin).
  intros acc. rewrite (prepare_block_sqe_text _ t ktype kd acc Ht Hg Htext).
  destruct (snd (common_setup (default_bounds eg) acc kd)); now eexists _, _.
Qed.

(** ** What a successful normalisation appends *)

(** Case analysis on the innermost scrutinee of a hypothesis or of the goal. *)
Ltac break_in H :=
  match type of H with
  | context [match ?x with _ => _ end] =>
      lazymatch x with
      | context [match _ with _ => _ end] => fail
      | _ => destruct x eqn:?
      end
  end.

Ltac reuse H :=
  match goal with
  | E : get ?k ?d = _ |- _ =>
      match type of H with context [get k d] => rewrite E in H end
  | E : check_keys ?a ?t ?ks = _ |- _ =>
      match type of H with context [check_keys a t ks] => rewrite E in H end
  end.

Ltac crunch H :=
  unfold has in H;
  repeat (simpl in H; try discriminate H; first [reuse H | break_in H]);
  simpl in H; try discriminate H.

Lemma common_setup_ok (db : list value) (N_D : Z) (bounds : list value)
    (kd kd' : kdict) (N_D' : Z) (bounds' : list value) :
  common_setup db (N_D, bounds) kd = (kd', Ok (N_D', bounds')) ->
  kd' = kd /\ has "type" kd = true /\ N_D' = block_dimension kd N_D
  /\ bounds' = bounds ++ scaling_entries db kd.
Proof.
  intros H. unfold common_setup in H. run.
  unfold block_dimension, scaling_entries, _scaling_setup, tuple_add, has in *.
  run.
  crunch H; inversion H; subst; rewrite ?app_nil_r; auto.
Qed.

Ltac crunch_set H :=
  unfold has in H;
  repeat (simpl in H; try discriminate H;
          first [ rewrite get_set_other in H by discriminate
                | reuse H | break_in H ]);
  simpl in H; try discriminate H.

Lemma constant_setup_ok (bounds db : list value) (N_D : Z) (kd kd' : kdict)
    (bounds' : list value) :
  _constant_setup bounds N_D db kd = (kd', Ok bounds') ->
  kd' = kd /\ bounds' = bounds ++ db.
Proof.
  intros H. unfold _constant_setup in H. run. unfold keys in *.
  destruct (check_keys ["type"; "operation"; "features"; "dimension"; "const"]
              "constant" (map fst kd)) as [[]|e] eqn:Hc; [|discriminate].
  pose proof (check_keys_accepts _ _ "bounds" kd Hc eq_refl) as Hnb.
  apply has_false_get in Hnb. unfold bounds_or in H. run.
  crunch_set H. now inversion H.
Qed.

Lemma gaussian_setup_ok (bounds db : list value) (N_D : Z) (kd kd' : kdict)
    (bounds' : list value) :
  _gaussian_setup bounds N_D db kd = (kd', Ok bounds') ->
  kd' = broadcast_block "width" N_D kd /\ bounds' = bounds ++ times db N_D.
Proof.
  intros H. unfold _gaussian_setup in H. run. unfold keys in *.
  destruct (check_keys
              ["type"; "operation"; "features"; "dimension"; "scaling"; "width"]
              "gaussian" (map fst kd)) as [[]|e] eqn:Hc; [|crunch H].
  pose proof (check_keys_accepts _ _ "bounds" kd Hc eq_refl) as Hnb.
  apply has_false_get in Hnb. unfold bounds_or, broadcast, broadcast_block in *.
  run. crunch_set H; inversion H; subst; auto.
Qed.

Lemma laplacian_setup_ok (bounds db : list value) (N_D : Z) (kd kd' : kdict)
    (bounds' : list value) :
  _laplacian_setup bounds N_D db kd = (kd', Ok bounds') ->
  kd' = broadcast_block "width" N_D kd /\ bounds' = bounds ++ times db N_D.
Proof.
  intros H. unfold _laplacian_setup in H. run. unfold keys in *.
  destruct (check_keys
              ["type"; "operation"; "features"; "dimension"; "scaling"; "width"]
              "laplacian" (map fst kd)) as [[]|e] eqn:Hc; [|crunch H].
  pose proof (check_keys_accepts _ _ "bounds" kd Hc eq_refl) as Hnb.
  apply has_false_get in Hnb. unfold bounds_or, broadcast, broadcast_block in *.
  run. crunch_set H; inversion H; subst; auto.
Qed.

Lemma quadratic_setup_ok (bounds db : list value) (N_D : Z) (kd kd' : kdict)
    (bounds' : list value) :
  _quadratic_setup bounds N_D db kd = (kd', Ok bounds') ->
  kd' = broadcast_block "slope" N_D kd
  /\ bounds' = bounds ++ times db N_D ++ db.
Proof.
  intros H. unfold _quadratic_setup in H. run. unfold keys in *.
  destruct (check_keys
              ["type"; "operation"; "features"; "dimension"; "scaling"; "slope";
               "degree"]
              "quadratic" (map fst kd)) as [[]|e] eqn:Hc; [|crunch H].
  pose proof (check_keys_accepts _ _ "bounds" kd Hc eq_refl) as Hnb.
  apply has_false_get in Hnb. unfold bounds_or, broadcast, broadcast_block in *.
  run. crunch_set H; inversion H; subst; rewrite <- ?app_assoc; auto.
Qed.

Lemma typed_setup_ok (db : list value) (N_D : Z) (bounds : list value)
    (kd kd' : kdict) (N_D' : Z) (bounds' : list value) :
  typed_setup db (N_D, bounds) kd = (kd', Ok (N_D', bounds')) ->
  kd' = typed_block kd N_D /\ N_D' = N_D
  /\ bounds' = bounds ++ type_entries db kd N_D.
Proof.
  intros H. unfold typed_setup in H. unfold bind at 1 in H. unfold item in H.
  unfold typed_block, type_entries.
  destruct (get "type" kd) as [ktype|]; [|discriminate].
  unfold bind, ret in H. unfold dispatch, raise in H.
  assert (Hroutine : forall t,
             (if String.eqb t "constant" then _constant_setup bounds N_D db
              else if String.eqb t "gaussian" then _gaussian_setup bounds N_D db
              else if String.eqb t "quadratic"
                   then _quadratic_setup bounds N_D db
              else if String.eqb t "laplacian"
                   then _laplacian_setup bounds N_D db
              else if String.eqb t "scaling" then fun s => (s, Raise TypeError)
              else if name_chars t
                   then fun s => (s, Raise (NotImplementedError t))
              else fun s => (s, Raise EvalOfText)) kd
             = (kd', Ok bounds') ->
             kd' = (if String.eqb t "gaussian" || String.eqb t "laplacian"
                    then broadcast_block "width" N_D kd
                    else if String.eqb t "quadratic"
                         then broadcast_block "slope" N_D kd
                    else kd)
             /\ bounds' = bounds
                  ++ (if String.eqb t "constant" then db
                      else if String.eqb t "gaussian" || String.eqb t "laplacian"
                           then times db N_D
                      else if String.eqb t "quadratic" then times db N_D ++ db
                      else [])).
  { intros t Ht.
    destruct (String.eqb_spec t "constant") as [E0|Hc]; [subst t|]; simpl in *.
    { now apply constant_setup_ok in Ht. }
    destruct (String.eqb_spec t "gaussian") as [E0|Hg]; [subst t|]; simpl in *.
    { now apply gaussian_setup_ok in Ht. }
    destruct (String.eqb_spec t "quadratic") as [E0|Hq]; [subst t|]; simpl in *.
    { now apply quadratic_setup_ok in Ht. }
    destruct (String.eqb_spec t "laplacian") as [E0|Hlap]; [subst t|];
      simpl in *.
    { now apply laplacian_setup_ok in Ht. }
    destruct (String.eqb t "scaling"); [discriminate|].
    destruct (name_chars t); discriminate. }
  destruct ktype as [|t| | | |t]; simpl in H; try discriminate.
  - destruct (String.eqb_spec t "user") as [E0|Hu]; [subst t|]; simpl in H.
    { inversion H; subst. simpl. now rewrite app_nil_r. }
    destruct (String.eqb_spec t "linear") as [E0|Hl]; [subst t|]; simpl in H.
    { inversion H; subst. simpl. now rewrite app_nil_r. }
    match type of H with
    | (let (_, _) := ?c in _) = _ =>
        destruct c as [kd1 [b1|e]] eqn:E; [|discriminate]
    end.
    inversion H; subst. apply Hroutine in E as [-> ->].
    destruct (String.eqb_spec t "user"); [contradiction|].
    destruct (String.eqb_spec t "linear"); [contradiction|]. auto.
  - match type of H with
    | (let (_, _) := ?c in _) = _ =>
        destruct c as [kd1 [b1|e]] eqn:E; [|discriminate]
    end.
    inversion H; subst. apply Hroutine in E as [-> ->]. auto.
Qed.

(** One turn of the loop that does not raise. *)
Lemma prepare_block_ok (db : list value) (N_D : Z) (bounds : list value)
    (kd kd' : kdict) (N_D' : Z) (bounds' : list value) :
  prepare_block db (N_D, bounds) kd = (kd', Ok (N_D', bounds')) ->
  N_D' = block_dimension kd N_D
  /\ kd' = typed_block kd N_D'
  /\ bounds' = bounds ++ scaling_entries db kd ++ type_entries db kd N_D'.
Proof.
  intros H. unfold prepare_block, bind in H.
  destruct (common_setup db (N_D, bounds) kd) as [kd1 [[N1 b1]|e]] eqn:E;
    [|discriminate].
  apply common_setup_ok in E as (-> & _ & -> & ->).
  apply typed_setup_ok in H as (-> & -> & ->).
  now rewrite <- app_assoc.
Qed.

Lemma for_blocks_prepare_ok (db : list value) (kernel kernel' : kernel_dict)
    (N_D : Z) (bounds : list value) (acc' : Z * list value) :
  for_blocks (prepare_block db) (N_D, bounds) kernel = (kernel', Ok acc') ->
  kernel' = normalised kernel N_D
  /\ snd acc' = bounds ++ block_bounds db kernel N_D.
Proof.
  revert kernel' N_D bounds acc'.
  induction kernel as [|[key kd] rest IH]; intros kernel' N_D bounds acc' H;
    simpl in H.
  - inversion H; subst. simpl. now rewrite app_nil_r.
  - destruct (prepare_block db (N_D, bounds) kd) as [kd1 [[N1 b1]|e]] eqn:E;
      [|discriminate].
    apply prepare_block_ok in E as (-> & -> & ->).
    destruct (for_blocks (prepare_block db)
                (block_dimension kd N_D,
                 bounds ++ scaling_entries db kd
                   ++ type_entries db kd (block_dimension kd N_D)) rest)
      as [rest' r] eqn:Er.
    inversion H; subst. apply IH in Er as [-> ->]. simpl.
    split; [reflexivity|]. now rewrite <- !app_assoc.
Qed.

Lemma prepare_kernels_ok (kernel kernel' : kernel_dict) (rb : value) (eg : bool)
    (N_D : Z) (bounds : list value) :
  prepare_kernels kernel rb eg N_D = (kernel', Ok bounds) ->
  kernel' = normalised kernel N_D
  /\ bounds = block_bounds (default_bounds eg) kernel N_D ++ [rb].
Proof.
  unfold prepare_kernels. intros H.
  destruct (for_blocks (prepare_block (default_bounds eg)) (N_D, []) kernel)
    as [k1 [[N1 b1]|e]] eqn:E; [|discriminate].
  apply for_blocks_prepare_ok in E as [-> Hb]. simpl in Hb. subst b1.
  now inversion H.
Qed.

(** ** The normaliser: claims *)

(** C2 (the code departs from the claim).  A ['bounds'] key on a block of a
    type that has a set-up routine is not accepted: for one block of each
    of the types gaussian, constant, laplacian and quadratic carrying
    [bounds = ((0.0, 1.0),)], [prepare_kernels] raises the assertion that
    names ['bounds'] as an undefined key of that type, and returns no
    bounds.  The branch of each routine that would append the override lies
    behind that assertion. *)
Theorem bounds_key_is_rejected (rb : value) (eg : bool) (N_D : Z) :
  prepare_kernels [("k", gaussian_with_bounds)] rb eg N_D
  = ([("k", gaussian_with_bounds)],
     Raise (AssertionError (UndefinedKey "bounds" "gaussian")))
  /\ prepare_kernels [("k", constant_with_bounds)] rb eg N_D
     = ([("k", constant_with_bounds)],
        Raise (AssertionError (UndefinedKey "bounds" "constant")))
  /\ prepare_kernels [("k", laplacian_with_bounds)] rb eg N_D
     = ([("k", laplacian_with_bounds)],
        Raise (AssertionError (UndefinedKey "bounds" "laplacian")))
  /\ prepare_kernels [("k", quadratic_with_bounds)] rb eg N_D
     = ([("k", quadratic_with_bounds)],
        Raise (AssertionError (UndefinedKey "bounds" "quadratic"))).
Proof. repeat split; reflexivity. Qed.

(** C3 (the code departs from the claim).  The count that reaches a block
    is the one the block before it resolved, not the caller's.  With the
    caller's count 5, block [a] with two features resolves 2, and block
    [b], which has neither ['features'] nor ['dimension'], has its scalar
    width broadcast to 2 entries and receives 2 default bounds. *)
Theorem dimension_carries_over_to_later_blocks (rb : value) :
  prepare_kernels features_then_plain rb false 5
  = ([("a", [("type", VStr "gaussian"); ("features", VList [int 0; int 1]);
             ("width", VList [flt 1; flt 1])]);
      ("b", [("type", VStr "gaussian"); ("width", VList [flt 1; flt 1])])],
     Ok [default_pair false; default_pair false;
         default_pair false; default_pair false; rb]).
Proof. reflexivity. Qed.

(** The same carried count is what the features of a later block are
    checked against: with the caller's count 5, a block with two features
    is refused after a block with one. *)
Lemma features_are_checked_against_carried_dimension (rb : value) (eg : bool) :
  snd (prepare_kernels
         [("a", [("type", VStr "gaussian"); ("features", VList [int 0]);
                 ("width", VList [flt 1])]);
          ("b", [("type", VStr "gaussian"); ("features", VList [int 0; int 1]);
                 ("width", VList [flt 1; flt 1])])]
         rb eg 5)
  = Raise (AssertionError TooManyFeatures).
Proof. reflexivity. Qed.

(** C5 (the code departs from the claim).  A quadratic block with a
    ['bounds'] override is stopped by the key assertion of
    [_quadratic_setup] before either of its two bound tails: nothing is
    appended, neither once nor twice, and no bounds are returned. *)
Theorem quadratic_bounds_override_not_reached (rb : value) (eg : bool) (N_D : Z) :
  prepare_kernels [("q", quadratic_with_bounds)] rb eg N_D
  = ([("q", quadratic_with_bounds)],
     Raise (AssertionError (UndefinedKey "bounds" "quadratic")))
  /\ forall bounds,
       _quadratic_setup bounds N_D (default_bounds eg) quadratic_with_bounds
       = (quadratic_with_bounds,
          Raise (AssertionError (UndefinedKey "bounds" "quadratic"))).
Proof. split; reflexivity. Qed.

(** C6, amended.  Normalising
    [{k1: gaussian(width=[1,1]), k2: constant(const=1.0)}] with
    [regularization_bounds = (0, 1)] and ambient dimension [N_D] leaves the
    dictionary as it is and returns [N_D + 2] bounds: one default pair per
    ambient dimension for the gaussian, whatever the length of its width,
    one for the constant, then [(0, 1)].  They are four exactly when the
    ambient dimension is 2, the length of the width.  Whenever
    [prepare_kernels] returns, the last entry of its bounds is
    [regularization_bounds]. *)
Theorem regularization_bounds_come_last :
  (forall eg N_D,
      prepare_kernels gaussian_and_constant (VTuple [int 0; int 1]) eg N_D
      = (gaussian_and_constant,
         Ok (List.repeat (default_pair eg) (Z.to_nat N_D)
               ++ [default_pair eg; VTuple [int 0; int 1]])))
  /\ (forall eg,
         snd (prepare_kernels gaussian_and_constant (VTuple [int 0; int 1]) eg 2)
         = Ok [default_pair eg; default_pair eg; default_pair eg;
               VTuple [int 0; int 1]])
  /\ (forall eg N_D bounds,
         snd (prepare_kernels gaussian_and_constant (VTuple [int 0; int 1])
                eg N_D) = Ok bounds ->
         (List.length bounds = Z.to_nat N_D + 2)%nat
         /\ (List.length bounds = 4%nat <-> N_D = 2))
  /\ (forall kernel rb eg N_D kernel' bounds,
         prepare_kernels kernel rb eg N_D = (kernel', Ok bounds) ->
         exists body, bounds = body ++ [rb]).
Proof.
  assert (Hrun : forall eg N_D,
      prepare_kernels gaussian_and_constant (VTuple [int 0; int 1]) eg N_D
      = (gaussian_and_constant,
         Ok (List.repeat (default_pair eg) (Z.to_nat N_D)
               ++ [default_pair eg; VTuple [int 0; int 1]]))).
  { intros eg N_D. unfold prepare_kernels. simpl. run.
    unfold default_bounds. rewrite times_singleton.
    rewrite <- app_assoc. reflexivity. }
  split; [exact Hrun|]. split; [|split].
  - intros eg. reflexivity.
  - intros eg N_D bounds H. rewrite Hrun in H. inversion H; subst.
    rewrite length_app, repeat_length. simpl. lia.
  - intros kernel rb eg N_D kernel' bounds H.
    apply prepare_kernels_ok in H as [_ ->]. now eexists.
Qed.

Lemma regularization_bounds_come_last_witness :
  (List.length
     (List.repeat (default_pair false) 2
        ++ [default_pair false; VTuple [int 0; int 1]])
   = Z.to_nat 2 + 2)%nat
  /\ (List.length
        (List.repeat (default_pair false) 2
           ++ [default_pair false; VTuple [int 0; int 1]]) = 4%nat
      <-> 2 = 2).
Proof.
  exact (proj1 (proj2 (proj2 regularization_bounds_come_last))
           false 2 _ eq_refl).
Defined.

(** C6, as stated, fails: with ambient dimension 5 the same dictionary,
    its width still of two elements, gets seven bounds, not four. *)
Lemma two_widths_get_five_bounds_at_dimension_five :
  prepare_kernels gaussian_and_constant (VTuple [int 0; int 1]) false 5
  = (gaussian_and_constant,
     Ok [default_pair false; default_pair false; default_pair false;
         default_pair false; default_pair false; default_pair false;
         VTuple [int 0; int 1]])
  /\ ~ (exists bounds,
           snd (prepare_kernels gaussian_and_constant (VTuple [int 0; int 1])
                  false 5) = Ok bounds
           /\ List.length bounds = 4%nat).
Proof.
  split; [reflexivity|]. intros (bounds & H & Hlen).
  inversion H; subst. discriminate Hlen.
Qed.

Lemma scaling_override_cons (entry : string * kdict) (kernel : kernel_dict)
    (b : value) :
  scaling_override kernel b -> scaling_override (entry :: kernel) b.
Proof.
  intros (key & kd & xs & Hin & Hg & Hb). exists key, kd, xs.
  split; [now right|]. now split.
Qed.

Lemma times_default_entries (eg : bool) (N_D : Z) (P : value -> Prop) :
  P (default_pair eg) -> Forall P (times (default_bounds eg) N_D).
Proof.
  intros HP. unfold default_bounds. rewrite times_singleton.
  apply Forall_forall. intros b Hb. apply repeat_spec in Hb. now subst.
Qed.

Lemma type_entries_default (eg : bool) (kd : kdict) (N_D : Z) (P : value -> Prop) :
  P (default_pair eg) -> Forall P (type_entries (default_bounds eg) kd N_D).
Proof.
  intros HP. unfold type_entries.
  destruct (get "type" kd) as [[|t| | | |t]|]; try constructor.
  all: destruct (String.eqb t "constant"); [repeat constructor; exact HP|].
  all: destruct (String.eqb t "gaussian" || String.eqb t "laplacian");
    [now apply times_default_entries|].
  all: destruct (String.eqb t "quadratic"); [|constructor].
  all: apply Forall_app; split; [now apply times_default_entries|].
  all: repeat constructor; exact HP.
Qed.

Lemma block_bounds_entries (eg : bool) (kernel : kernel_dict) (N_D : Z) :
  Forall (fun b => b = default_pair eg \/ scaling_override kernel b)
         (block_bounds (default_bounds eg) kernel N_D).
Proof.
  revert N_D. induction kernel as [|[key kd] rest IH]; intros N_D; simpl.
  - constructor.
  - apply Forall_app. split; [|apply Forall_app; split].
    + unfold scaling_entries. destruct (has "scaling" kd); [|constructor].
      destruct (get "scaling_bounds" kd) as [[| | | |xs|]|] eqn:Hg;
        try (repeat constructor; now left).
      apply Forall_forall. intros b Hb. right. exists key, kd, xs.
      split; [now left|]. now split.
    + apply type_entries_default. now left.
    + eapply Forall_impl; [|apply IH]. intros b [Hb|Hb]; [now left|right].
      now apply scaling_override_cons.
Qed.

(** C8.  A gaussian block with [width = 2.0], ambient dimension 3 and no
    ['features'] or ['dimension'] is rewritten with
    [width = [2.0, 2.0, 2.0]].  In general a block that holds only its type
    and a scalar width has the width repeated once per dimension, and in
    any gaussian block that passes the loop body a scalar width becomes the
    list of as many copies as the dimension resolved for the block. *)
Theorem scalar_width_is_broadcast :
  (forall key rb eg,
      prepare_kernels [(key, [("type", VStr "gaussian"); ("width", flt 2)])]
                      rb eg 3
      = ([(key, [("type", VStr "gaussian");
                 ("width", VList [flt 2; flt 2; flt 2])])],
         Ok [default_pair eg; default_pair eg; default_pair eg; rb]))
  /\ (forall db N_D bounds x,
         prepare_block db (N_D, bounds)
           [("type", VStr "gaussian"); ("width", VNum x)]
         = ([("type", VStr "gaussian");
             ("width", VList (List.repeat (VNum x) (Z.to_nat N_D)))],
            Ok (N_D, bounds ++ times db N_D)))
  /\ (forall db N_D bounds kd x kd' N_D' bounds',
         get "type" kd = Some (VStr "gaussian") ->
         get "width" kd = Some (VNum x) ->
         prepare_block db (N_D, bounds) kd = (kd', Ok (N_D', bounds')) ->
         N_D' = block_dimension kd N_D
         /\ get "width" kd'
            = Some (VList (List.repeat (VNum x) (Z.to_nat N_D')))).
Proof.
  split; [|split].
  - intros key rb eg. reflexivity.
  - intros db N_D bounds x. unfold prepare_block, common_setup, typed_setup.
    run. unfold _gaussian_setup, broadcast, bounds_or. run.
    now rewrite times_singleton.
  - intros db N_D bounds kd x kd' N_D' bounds' Ht Hw H.
    apply prepare_block_ok in H as (HN & -> & _). split; [exact HN|].
    unfold typed_block. rewrite Ht. simpl. unfold broadcast_block.
    rewrite Hw. simpl. rewrite get_set_same. now rewrite times_singleton.
Qed.

Lemma scalar_width_is_broadcast_witness :
  2 = block_dimension
        [("type", VStr "gaussian"); ("features", VList [int 0; int 1]);
         ("width", flt 5)] 3
  /\ get "width"
       [("type", VStr "gaussian"); ("features", VList [int 0; int 1]);
        ("width", VList [flt 5; flt 5])]
     = Some (VList (List.repeat (flt 5) (Z.to_nat 2))).
Proof.
  exact (proj2 (proj2 scalar_width_is_broadcast) [] 3 []
           [("type", VStr "gaussian"); ("features", VList [int 0; int 1]);
            ("width", flt 5)] (Float 5) _ 2 _ eq_refl eq_refl eq_refl).
Defined.

(** C9, amended.  A block of type ['sqe'] or ['scaled_sqe'] has no
    set-up routine, and no kernel dictionary that holds one is normalised,
    wherever the block stands.  Which error is raised depends on what the
    loop meets first: the error of an earlier block; else the error of the
    checks the block itself undergoes before the dispatch (type, features,
    dimension, scaling); else, the dispatch being reached,
    [NotImplementedError] for the type.  In each case the blocks after it
    are untouched.  The codec handles both types: [kdict2list] reads
    ['width'], and ['d_scaling'] before it for ['scaled_sqe'], and
    [list2kdict] writes them back from the vector. *)
Theorem sqe_blocks_are_not_normalised (t : string) (ktype : value)
    (pre post : kernel_dict) (key : string) (kd : kdict) (rb : value)
    (eg : bool) (N_D : Z) :
  t = "sqe" \/ t = "scaled_sqe" ->
  get "type" kd = Some ktype ->
  text ktype = Some t ->
  prepare_kernels (pre ++ (key, kd) :: post) rb eg N_D
  = match for_blocks (prepare_block (default_bounds eg)) (N_D, []) pre with
    | (pre', Ok acc) =>
        (pre' ++ (key, kd) :: post,
         Raise match snd (common_setup (default_bounds eg) acc kd) with
               | Ok _ => NotImplementedError t
               | Raise e => e
               end)
    | (pre', Raise e) => (pre' ++ (key, kd) :: post, Raise e)
    end
  /\ (forall kernel N_D0,
         In (key, kd) kernel ->
         exists kernel' e, prepare_kernels kernel rb eg N_D0 = (kernel', Raise e))
  /\ (forall ws n,
         kdict2list [("type", VStr "sqe"); ("width", VList ws)] n
         = Ok ([], VList ws))
  /\ (forall ds ws n,
         kdict2list [("type", VStr "scaled_sqe"); ("d_scaling", VList ds);
                     ("width", VList ws)] n
         = Ok ([], VList (ds ++ ws)))
  /\ (forall hp ki ws,
         list2kdict_block hp ki [("type", VStr "sqe"); ("width", VList ws)]
         = ([("type", VStr "sqe");
             ("width", list_slice hp ki (ki + List.length ws))],
            Ok (ki + List.length ws)%nat))
  /\ (forall hp ki ds ws,
         list2kdict_block hp ki
           [("type", VStr "scaled_sqe"); ("d_scaling", VList ds);
            ("width", VList ws)]
         = ([("type", VStr "scaled_sqe");
             ("d_scaling", list_slice hp ki (ki + List.length ws));
             ("width",
              list_slice hp (ki + List.length ws) (ki + 2 * List.length ws))],
            Ok (ki + 2 * List.length ws)%nat))
  /\ (forall hp k1 k2 ds ws1 ws2,
         list2kdict hp
           [(k1, [("type", VStr "sqe"); ("width", VList ws1)]);
            (k2, [("type", VStr "scaled_sqe"); ("d_scaling", VList ds);
                  ("width", VList ws2)])]
         = ([(k1, [("type", VStr "sqe");
                   ("width", list_slice hp 0 (List.length ws1))]);
             (k2, [("type", VStr "scaled_sqe");
                   ("d_scaling",
                    list_slice hp (List.length ws1)
                      (List.length ws1 + List.length ws2));
                   ("width",
                    list_slice hp (List.length ws1 + List.length ws2)
                      (List.length ws1 + 2 * List.length ws2))])],
            Ok tt)).
Proof.
  intros Ht Hg Htext.
  split; [|split; [|repeat split; intros; reflexivity]].
  2: { intros kernel N_D0 Hin.
       now apply (prepare_kernels_sqe_text_raises kernel rb eg N_D0 key t ktype kd). }
  unfold prepare_kernels. rewrite for_blocks_app.
  destruct (for_blocks (prepare_block (default_bounds eg)) (N_D, []) pre)
    as [pre' [acc|e]]; [|reflexivity].
  simpl. rewrite (prepare_block_sqe_text _ t ktype kd acc Ht Hg Htext).
  now destruct (snd (common_setup (default_bounds eg) acc kd)).
Qed.

Lemma sqe_blocks_are_not_normalised_witness :
  prepare_kernels
    ([("k1", [("type", VStr "gaussian"); ("width", flt 2)])]
       ++ ("k2", [("type", VStr "scaled_sqe"); ("d_scaling", VList [flt 1]);
                  ("width", VList [flt 1])])
       :: [("k3", [("type", VStr "gaussian"); ("width", flt 2)])])
    VNone false 1
  = ([("k1", [("type", VStr "gaussian"); ("width", VList [flt 2])])]
       ++ ("k2", [("type", VStr "scaled_sqe"); ("d_scaling", VList [flt 1]);
                  ("width", VList [flt 1])])
       :: [("k3", [("type", VStr "gaussian"); ("width", flt 2)])],
     Raise (NotImplementedError "scaled_sqe")).
Proof.
  exact (proj1 (sqe_blocks_are_not_normalised "scaled_sqe" (VStr "scaled_sqe")
           [("k1", [("type", VStr "gaussian"); ("width", flt 2)])]
           [("k3", [("type", VStr "gaussian"); ("width", flt 2)])]
           "k2"
           [("type", VStr "scaled_sqe"); ("d_scaling", VList [flt 1]);
            ("width", VList [flt 1])]
           VNone false 1
           (or_intror eq_refl) eq_refl eq_refl)).
Defined.

(** C9, as stated, fails: an ['sqe'] block whose scaling is an int is
    stopped by the scaling assertion, before the dispatch, and the error is
    not the one of a missing routine. *)
Lemma sqe_block_with_int_scaling_fails_the_scaling_check :
  prepare_kernels
    [("k", [("type", VStr "sqe"); ("scaling", int 1);
            ("width", VList [flt 1])])] VNone false 1
  = ([("k", [("type", VStr "sqe"); ("scaling", int 1);
             ("width", VList [flt 1])])],
     Raise (AssertionError ScalingNotFloat))
  /\ AssertionError ScalingNotFloat <> NotImplementedError "sqe".
Proof. split; [reflexivity|discriminate]. Qed.

(** ** The codec: how much of the vector a dictionary stands for *)

Lemma float_at_cases (hp : list num) (ki : nat) :
  ((ki <? List.length hp)%nat = true /\ exists v, float_at hp ki = Ok v)
  \/ ((ki <? List.length hp)%nat = false /\ float_at hp ki = Raise IndexError).
Proof.
  unfold float_at. destruct (nth_error hp ki) as [n|] eqn:E.
  - left. split; [|now eexists]. apply Nat.ltb_lt. apply nth_error_Some.
    congruence.
  - right. split; [|reflexivity]. apply Nat.ltb_ge. now apply nth_error_None.
Qed.

Ltac reuse_goal :=
  match goal with
  | E : get ?k ?d = _ |- context [get ?k ?d] => rewrite E
  | E : String.eqb ?a ?b = _ |- context [String.eqb ?a ?b] => rewrite E
  end.

Ltac fin := simpl; first [reflexivity | f_equal; lia].

(** The case of a type measured by the sequence under key [k]. *)
Ltac sized_case kd k t :=
  rewrite ?get_set_other by discriminate;
  let w := fresh "w" in
  destruct (get k kd) as [w|]; [|discriminate];
  destruct (len w); [|discriminate]; simpl;
  destruct (String.eqb_spec t "constant"); [subst; discriminate|]; fin.

Ltac by_type kd t Hc :=
  destruct (String.eqb t "gaussian") eqn:?; simpl in *;
    [sized_case kd "width" t|];
  destruct (String.eqb t "sqe") eqn:?; simpl in *;
    [sized_case kd "width" t|];
  destruct (String.eqb t "laplacian") eqn:?; simpl in *;
    [sized_case kd "width" t|];
  destruct (String.eqb t "scaled_sqe") eqn:?; simpl in *;
    [sized_case kd "width" t|];
  destruct (String.eqb t "quadratic") eqn:?; simpl in *;
    [sized_case kd "slope" t|];
  destruct (String.eqb t "linear") eqn:?; simpl in *;
    [destruct (String.eqb_spec t "constant"); [subst; discriminate|]; fin|];
  rewrite Hc; simpl.

Lemma list2kdict_block_codec (hp : list num) (ki : nat) (kd : kdict) :
  codec_block kd = true ->
  snd (list2kdict_block hp ki kd)
  = if all_within hp (block_reads ki kd)
    then Ok (ki + block_length kd)%nat else Raise IndexError.
Proof.
  intros Hc. unfold codec_block, has_len in Hc.
  unfold list2kdict_block, decode_params, block_reads, block_length,
    all_within, size_of, len_item.
  run. unfold has.
  destruct (get "type" kd) as [[|t| | | |t]|] eqn:Ht; try discriminate; simpl.
  1: {
    destruct (get "scaling" kd) as [s0|] eqn:Hs; simpl; rewrite ?Hs; simpl.
    - destruct (float_at_cases hp ki) as [[Hlt [v Hv]]|[Hlt Hv]];
        rewrite Hlt, Hv; simpl.
      2: { now destruct (String.eqb t "constant"). }
      by_type kd t Hc.
      destruct (float_at_cases hp (ki + 1)) as [[Hlt1 [v1 Hv1]]|[Hlt1 Hv1]];
        rewrite Hlt1, Hv1; fin.
    - by_type kd t Hc. rewrite Nat.add_0_r.
      destruct (float_at_cases hp ki) as [[Hlt1 [v1 Hv1]]|[Hlt1 Hv1]];
        rewrite Hlt1, Hv1; fin. }
  destruct (get "scaling" kd) as [s0|] eqn:Hs; simpl; rewrite ?Hs; simpl.
  - destruct (float_at_cases hp ki) as [[Hlt [v Hv]]|[Hlt Hv]];
      rewrite Hlt, Hv; simpl.
    2: { now destruct (String.eqb t "constant"). }
    by_type kd t Hc.
    destruct (float_at_cases hp (ki + 1)) as [[Hlt1 [v1 Hv1]]|[Hlt1 Hv1]];
      rewrite Hlt1, Hv1; fin.
  - by_type kd t Hc. rewrite Nat.add_0_r.
    destruct (float_at_cases hp ki) as [[Hlt1 [v1 Hv1]]|[Hlt1 Hv1]];
      rewrite Hlt1, Hv1; fin.
Qed.

Lemma list2kdict_loop_codec (hp : list num) (kernel : kernel_dict) (ki : nat) :
  codec_kernel kernel = true ->
  snd (for_blocks (list2kdict_block hp) ki kernel)
  = if all_within hp (index_reads ki kernel)
    then Ok (ki + required_length kernel)%nat else Raise IndexError.
Proof.
  revert ki. induction kernel as [|[key kd] rest IH]; intros ki Hc.
  - simpl. f_equal. unfold required_length. simpl. lia.
  - unfold codec_kernel in Hc. simpl in Hc. apply andb_prop in Hc as [Hkd Hrest].
    rewrite for_blocks_snd_cons, (list2kdict_block_codec hp ki kd Hkd).
    cbn [index_reads]. unfold all_within in *. rewrite forallb_app.
    destruct (forallb _ (block_reads ki kd)); [|reflexivity]. cbn [andb].
    rewrite (IH _ Hrest).
    destruct (forallb _ (index_reads (ki + block_length kd) rest));
      [|reflexivity].
    f_equal. unfold required_length. simpl. lia.
Qed.

Lemma block_reads_below (ki : nat) (kd : kdict) (p : nat) :
  In p (block_reads ki kd) -> (p < ki + block_length kd)%nat.
Proof.
  unfold block_reads, block_length. intros H. apply in_app_or in H as [H|H].
  - destruct (has "scaling" kd); [|destruct H]. destruct H as [<-|[]]. lia.
  - destruct (get "type" kd) as [ktype|]; [|destruct H].
    destruct ktype as [|t| | | |t]; simpl in *; try destruct H.
    all: destruct (String.eqb_spec t "constant") as [E|]; [subst t|destruct H].
    all: simpl in *; destruct H as [<-|[]]; lia.
Qed.

Lemma index_reads_below (kernel : kernel_dict) (ki p : nat) :
  In p (index_reads ki kernel) -> (p < ki + required_length kernel)%nat.
Proof.
  revert ki. induction kernel as [|[key kd] rest IH]; intros ki H; simpl in H.
  - destruct H.
  - unfold required_length. simpl. fold (required_length rest).
    apply in_app_or in H as [H|H].
    + apply block_reads_below in H. lia.
    + apply IH in H. lia.
Qed.

(** ** The codec: claims *)

(** C1 (the code departs from the claim).  Decoding the encoding of a
    dictionary into that dictionary does not always give it back.  After a
    block of a generic type the cursor is not advanced, so in
    [{a: user(hyperparameters=[1.0, 2.0]), b: constant(const=3.0)}],
    encoded as [[1.0, 2.0, 3.0]], block [b] is decoded from position 0 and
    ends with [const = 1.0].  In a quadratic block the scalar ['degree']
    comes back as the one-element list [[3.0]]. *)
Theorem roundtrip_is_broken_by_generic_and_quadratic_blocks (d : option Z) :
  kdicts2list generic_then_constant d = Ok [Float 1; Float 2; Float 3]
  /\ list2kdict [Float 1; Float 2; Float 3] generic_then_constant
     = ([("a", [("type", VStr "user");
                ("hyperparameters", VList [flt 1; flt 2])]);
         ("b", [("type", VStr "constant"); ("const", flt 1)])],
        Ok tt)
  /\ kdicts2list one_quadratic d = Ok [Float 1; Float 2; Float 3]
  /\ list2kdict [Float 1; Float 2; Float 3] one_quadratic
     = ([("q", [("type", VStr "quadratic"); ("slope", VList [flt 1; flt 2]);
                ("degree", VList [flt 3])])],
        Ok tt).
Proof. destruct d; repeat split; reflexivity. Qed.

(** C4, as stated, fails: a vector of one element decoded into
    [{a: gaussian(width=[1.0, 2.0])}], which stands for two, is accepted;
    the slice is cut short and ['width'] becomes [[7.0]]. *)
Lemma short_vector_is_decoded_without_error :
  (List.length [Float 7]
   < required_length
       [("a", [("type", VStr "gaussian"); ("width", VList [flt 1; flt 2])])])%nat
  /\ list2kdict [Float 7]
       [("a", [("type", VStr "gaussian"); ("width", VList [flt 1; flt 2])])]
     = ([("a", [("type", VStr "gaussian"); ("width", VList [flt 7])])], Ok tt).
Proof. split; [cbv; lia|reflexivity]. Qed.

(** C4, amended.  For a dictionary of blocks of the seven types the codec
    names, [list2kdict] raises exactly when one of the positions it reads
    by index, for a ['scaling'] or for the ['const'] of a constant block,
    lies at or past the end of the vector, and the error is an
    [IndexError]; otherwise it returns.  In particular it returns whenever
    the vector is at least as long as the dictionary requires, unread
    elements at the end included. *)
Theorem decoding_fails_only_on_index_reads (hp : list num) (kernel : kernel_dict) :
  codec_kernel kernel = true ->
  snd (list2kdict hp kernel)
  = (if all_within hp (index_reads 0 kernel) then Ok tt else Raise IndexError)
  /\ ((required_length kernel <= List.length hp)%nat ->
      snd (list2kdict hp kernel) = Ok tt).
Proof.
  intros Hc.
  assert (Heq : snd (list2kdict hp kernel)
                = if all_within hp (index_reads 0 kernel)
                  then Ok tt else Raise IndexError).
  { unfold list2kdict.
    pose proof (list2kdict_loop_codec hp kernel 0 Hc) as H.
    destruct (for_blocks (list2kdict_block hp) 0%nat kernel) as [k' r].
    simpl in *. subst r.
    now destruct (all_within hp (index_reads 0 kernel)). }
  split; [exact Heq|]. intros Hlen. rewrite Heq.
  replace (all_within hp (index_reads 0 kernel)) with true; [reflexivity|].
  symmetry. apply forallb_forall. intros p Hp. apply Nat.ltb_lt.
  apply index_reads_below in Hp. lia.
Qed.

Lemma decoding_fails_only_on_index_reads_witness :
  snd (list2kdict [Float 7; Float 8] gaussian_then_constant)
  = (if all_within [Float 7; Float 8] (index_reads 0 gaussian_then_constant)
     then Ok tt else Raise IndexError)
  /\ ((required_length gaussian_then_constant
       <= List.length [Float 7; Float 8])%nat ->
      snd (list2kdict [Float 7; Float 8] gaussian_then_constant) = Ok tt).
Proof.
  exact (decoding_fails_only_on_index_reads [Float 7; Float 8]
           gaussian_then_constant eq_refl).
Defined.

(** C10.  [list2kdict] is not atomic.  When the body of its loop raises at
    a block, the blocks before it stay as the loop rewrote them; and there
    are a dictionary and a vector too short for it,
    [{a: gaussian(width=[1.0, 2.0]), b: constant(const=3.0)}] and
    [[7.0, 8.0]], for which the error is raised at block [b] when block [a]
    already holds the new width [[7.0, 8.0]]. *)
Theorem list2kdict_is_not_atomic :
  (forall hp pre post pre' key kd kd' ki e,
      for_blocks (list2kdict_block hp) 0%nat pre = (pre', Ok ki) ->
      list2kdict_block hp ki kd = (kd', Raise e) ->
      list2kdict hp (pre ++ (key, kd) :: post)
      = (pre' ++ (key, kd') :: post, Raise e))
  /\ exists hp kernel kernel',
       (List.length hp < required_length kernel)%nat
       /\ list2kdict hp kernel = (kernel', Raise IndexError)
       /\ get "a" kernel
          = Some [("type", VStr "gaussian"); ("width", VList [flt 1; flt 2])]
       /\ get "a" kernel'
          = Some [("type", VStr "gaussian"); ("width", VList [flt 7; flt 8])].
Proof.
  split.
  - intros hp pre post pre' key kd kd' ki e Hpre Hb. unfold list2kdict.
    now rewrite (for_blocks_raise_keeps_prefix _ pre post pre' key kd kd'
                   0%nat ki e Hpre Hb).
  - exists [Float 7; Float 8], gaussian_then_constant.
    eexists. split; [cbv; lia|]. split; [reflexivity|]. split; reflexivity.
Qed.

Lemma list2kdict_is_not_atomic_witness :
  list2kdict [Float 7; Float 8]
    ([("a", [("type", VStr "gaussian"); ("width", VList [flt 1; flt 2])])]
       ++ ("b", [("type", VStr "constant"); ("const", flt 3)]) :: [])
  = ([("a", [("type", VStr "gaussian"); ("width", VList [flt 7; flt 8])])]
       ++ ("b", [("type", VStr "constant"); ("const", flt 3)]) :: [],
     Raise IndexError).
Proof.
  exact (proj1 list2kdict_is_not_atomic [Float 7; Float 8]
           [("a", [("type", VStr "gaussian"); ("width", VList [flt 1; flt 2])])]
           []
           [("a", [("type", VStr "gaussian"); ("width", VList [flt 7; flt 8])])]
           "b" [("type", VStr "constant"); ("const", flt 3)]
           [("type", VStr "constant"); ("const", flt 3)]
           2%nat IndexError eq_refl eq_refl).
Defined.

(** ** The round trip on the blocks the codec decodes as it encodes *)

Lemma float_list_nums (xs : list value) :
  forallb is_float xs = true ->
  xs = map VNum (nums_of (VList xs))
  /\ forallb num_is_float (nums_of (VList xs)) = true.
Proof.
  induction xs as [|x xs IH]; simpl; [now split|].
  intros H. apply andb_prop in H as [Hx Hxs]. destruct (IH Hxs) as [IH1 IH2].
  destruct x as [| |[z|q]| | |]; try discriminate. simpl in *.
  split; [now rewrite <- IH1|exact IH2].
Qed.

Lemma is_float_nums (v : value) :
  is_float v = true ->
  exists q, v = VNum (Float q) /\ nums_of v = [Float q].
Proof.
  destruct v as [| |[z|q]| | |]; try discriminate. intros _. now exists q.
Qed.

Lemma as_nums_map (ns : list num) : as_nums (map VNum ns) = Some ns.
Proof. induction ns as [|n ns IH]; simpl; [reflexivity|]. now rewrite IH. Qed.

Lemma as_arrays_map (ls : list (list num)) :
  as_arrays (map (map VNum) ls) = Some ls.
Proof.
  induction ls as [|l ls IH]; simpl; [reflexivity|].
  now rewrite as_nums_map, IH.
Qed.

Lemma to_float_floats (ns : list num) :
  forallb num_is_float ns = true -> map to_float ns = ns.
Proof.
  induction ns as [|[z|q] ns IH]; simpl; try discriminate; [reflexivity|].
  intros H. now rewrite IH.
Qed.

Lemma np_concatenate_floats (ls : list (list num)) :
  ls <> [] -> forallb (forallb num_is_float) ls = true ->
  np_concatenate (map (map VNum) ls) = Ok (List.concat ls).
Proof.
  intros Hne Hf. unfold np_concatenate.
  destruct ls as [|l ls]; [contradiction|]. cbn [map].
  change (map VNum l :: map (map VNum) ls) with (map (map VNum) (l :: ls)).
  rewrite as_arrays_map. f_equal.
  destruct (existsb float64_array (l :: ls)); [|reflexivity].
  apply to_float_floats. rewrite forallb_forall in Hf.
  apply forallb_forall. intros n Hn. apply in_concat in Hn as (l' & Hl' & Hn).
  specialize (Hf l' Hl'). rewrite forallb_forall in Hf. now apply Hf.
Qed.

Ltac type_case t s :=
  destruct (String.eqb_spec t s) as [?E|?E]; [subst t|]; simpl in *.

(** [crunch], also splitting the conjunctions of a boolean condition. *)
Ltac break_andb H :=
  match type of H with
  | context [andb ?x _] =>
      lazymatch x with
      | context [match _ with _ => _ end] => fail
      | context [andb _ _] => fail
      | _ => destruct x eqn:?
      end
  end.

Ltac crunch_bool H :=
  unfold has in H;
  repeat (simpl in H; try discriminate H;
          first [reuse H | break_in H | break_andb H]);
  simpl in H; try discriminate H.

Ltac settle := simpl; repeat (reuse_goal; simpl).

Ltac float_facts :=
  repeat match goal with
  | H : forallb is_float ?xs = true |- _ =>
      let H1 := fresh "Hmap" in
      let H2 := fresh "Hfl" in
      destruct (float_list_nums xs H) as [H1 H2]; clear H
  | H : is_float ?v = true |- _ =>
      let q := fresh "q" in
      let H1 := fresh "Hv" in
      let H2 := fresh "Hn" in
      destruct (is_float_nums v H) as (q & H1 & H2); clear H; subst v
  end.

Ltac encoded :=
  eexists _, _; split; [reflexivity|]; simpl in *;
  rewrite ?map_app, ?forallb_app;
  repeat match goal with
         | H : ?xs = map VNum _ |- _ => rewrite <- H; clear H
         end;
  split; [reflexivity | repeat (apply andb_true_intro; split); auto].

(** [kdict2list] on a plain block yields the block's part of the vector. *)
Lemma kdict2list_plain (kd : kdict) (N_D : option Z) :
  plain_block kd = true ->
  exists scaling theta,
    kdict2list kd N_D = Ok (scaling, VList theta)
    /\ scaling ++ theta = map VNum (block_vector kd)
    /\ forallb num_is_float (block_vector kd) = true.
Proof.
  intros Hp. unfold plain_block, plain_params, float_list in Hp.
  apply andb_prop in Hp as [Hp Ht]. apply andb_prop in Hp as [Hs Hc].
  unfold kdict2list, kdict2list_body, block_vector, params_vector. run. unfold has in *.
  destruct (get "type" kd) as [[|t| | | |t]|] eqn:Et; try discriminate; simpl.
  all: destruct (get "constrained" kd) eqn:Ec; [discriminate|]; clear Hc.
  all: destruct (get "scaling" kd) as [s|] eqn:Es; settle.
  all: (type_case t "gaussian";
        [crunch_bool Ht; float_facts; settle; encoded|]).
  all: (type_case t "sqe"; [crunch_bool Ht; float_facts; settle; encoded|]).
  all: (type_case t "laplacian";
        [crunch_bool Ht; float_facts; settle; encoded|]).
  all: (type_case t "scaled_sqe";
        [crunch_bool Ht; float_facts; settle; encoded|]).
  all: (type_case t "linear"; [float_facts; settle; encoded|]).
  all: (type_case t "constant"; [|discriminate]).
  all: crunch_bool Ht; float_facts; settle; encoded.
Qed.

Lemma kdicts2list_loop_plain (kernel : kernel_dict) (N_D : option Z) :
  forallb (fun entry => plain_block (snd entry)) kernel = true ->
  kdicts2list_loop kernel N_D
  = Ok (map (map VNum) (map (fun entry => block_vector (snd entry)) kernel))
  /\ forallb (forallb num_is_float)
       (map (fun entry => block_vector (snd entry)) kernel) = true.
Proof.
  induction kernel as [|[key kd] rest IH]; simpl; [now split|].
  intros H. apply andb_prop in H as [Hkd Hrest].
  destruct (kdict2list_plain kd N_D Hkd) as (sc & th & -> & Hv & Hf).
  destruct (IH Hrest) as [-> Hfs]. simpl. rewrite Hv, Hf. now split.
Qed.

(** Encoding a dictionary of plain blocks. *)
Lemma kdicts2list_plain (kernel : kernel_dict) (N_D : option Z) :
  kernel <> [] ->
  forallb (fun entry => plain_block (snd entry)) kernel = true ->
  kdicts2list kernel N_D = Ok (kernel_vector kernel).
Proof.
  intros Hne Hp. unfold kdicts2list, kernel_vector.
  destruct (kdicts2list_loop_plain kernel N_D Hp) as [-> Hf].
  apply np_concatenate_floats; [|exact Hf].
  destruct kernel; [contradiction|discriminate].
Qed.

Lemma firstn_app_split {A} (a b l : list A) :
  firstn (List.length (a ++ b)) l = a ++ b ->
  firstn (List.length a) l = a
  /\ firstn (List.length b) (skipn (List.length a) l) = b.
Proof.
  revert l. induction a as [|x a IH]; intros l H; simpl in *.
  - now split.
  - destruct l as [|y l]; [discriminate|]. inversion H; subst.
    destruct (IH l H2) as [H3 H4]. split; [now rewrite H3|exact H4].
Qed.

Lemma firstn_one_nth (hp : list num) (ki : nat) (n : num) :
  firstn 1 (skipn ki hp) = [n] -> nth_error hp ki = Some n.
Proof.
  intros H. rewrite <- hd_error_skipn.
  destruct (skipn ki hp); [discriminate|]. simpl in *. congruence.
Qed.

Lemma slice_from {A} (l : list A) (i n : nat) :
  slice l i (i + n) = firstn n (skipn i l).
Proof. unfold slice. f_equal. lia. Qed.

Lemma float_at_nth (hp : list num) (ki : nat) (q : Q) :
  nth_error hp ki = Some (Float q) -> float_at hp ki = Ok (VNum (Float q)).
Proof. unfold float_at. now intros ->. Qed.

Lemma list_slice_from (hp : list num) (ki n : nat) (ns : list num) :
  n = List.length ns ->
  firstn (List.length ns) (skipn ki hp) = ns ->
  list_slice hp ki (ki + n) = VList (map VNum ns).
Proof.
  intros -> H. unfold list_slice. rewrite slice_from. now rewrite H.
Qed.

Opaque nums_of.

(** Name the numbers of each float list and forget the list. *)
Ltac name_floats :=
  repeat match goal with
  | H : forallb is_float ?xs = true |- _ =>
      let H1 := fresh "Hmap" in
      let H2 := fresh "Hfl" in
      let ns := fresh "ns" in
      let Hns := fresh "Hns" in
      destruct (float_list_nums xs H) as [H1 H2]; clear H;
      remember (nums_of (VList xs)) as ns eqn:Hns in *; clear Hns;
      subst xs
  | H : is_float ?v = true |- _ =>
      let q := fresh "q" in
      let H1 := fresh "Hv" in
      let H2 := fresh "Hn" in
      destruct (is_float_nums v H) as (q & H1 & H2); clear H; subst v;
      rewrite ?H2 in *; clear H2
  end.

Ltac width_decoded hp ki ns Hvec :=
  rewrite !length_map;
  rewrite (list_slice_from hp ki _ ns eq_refl Hvec);
  rewrite set_get_id by assumption; reflexivity.

Lemma decode_params_plain (hp : list num) (ki : nat) (kd : kdict)
    (ktype : value) :
  get "type" kd = Some ktype ->
  plain_params kd = true ->
  firstn (List.length (params_vector kd)) (skipn ki hp) = params_vector kd ->
  decode_params hp ktype ki kd
  = (kd, Ok (ki + List.length (params_vector kd))%nat).
Proof.
  intros Et Ht Hvec. unfold plain_params, params_vector, float_list in *.
  rewrite Et in *. unfold decode_params, len_item. run. unfold has in *.
  destruct ktype as [|t| | | |t]; try discriminate; cbn [str_eq].
  all: (type_case t "gaussian";
        [crunch_bool Ht; name_floats; settle; width_decoded hp ki ns Hvec|]).
  all: (type_case t "sqe";
        [crunch_bool Ht; name_floats; settle; width_decoded hp ki ns Hvec|]).
  all: (type_case t "laplacian";
        [crunch_bool Ht; name_floats; settle; width_decoded hp ki ns Hvec|]).
  all: (type_case t "scaled_sqe";
        [crunch_bool Ht; name_floats; settle; rewrite !length_map;
         match goal with
         | H : (_ =? _)%nat = true |- _ =>
             apply Nat.eqb_eq in H; rename H into Hlen
         end;
         apply firstn_app_split in Hvec as [H1 H2]; rewrite skipn_skipn in H2;
         match goal with
         | Hd : get "d_scaling" ?d = Some (VList (map VNum ?nd)),
           Hw : get "width" ?d = Some (VList (map VNum ?nw)) |- _ =>
             rewrite (list_slice_from hp ki (List.length nw) nd (eq_sym Hlen) H1);
             rewrite (set_get_id "d_scaling" _ d Hd);
             replace (List.length nd + ki)%nat
               with (ki + List.length nw)%nat in H2 by lia;
             replace (ki + (List.length nw + (List.length nw + 0)))%nat
               with (ki + List.length nw + List.length nw)%nat by lia;
             rewrite (list_slice_from hp _ _ nw eq_refl H2);
             rewrite (set_get_id "width" _ d Hw)
         end;
         f_equal; f_equal; rewrite length_app; lia|]).
  all: (type_case t "quadratic"; [discriminate|]).
  all: (type_case t "linear"; [f_equal; f_equal; lia|]).
  all: (type_case t "constant"; [|discriminate]).
  all: crunch_bool Ht; name_floats; settle;
    apply firstn_one_nth in Hvec; rewrite (float_at_nth hp ki q Hvec); simpl;
    rewrite set_get_id by assumption; reflexivity.
Qed.

(** [list2kdict_block] on a plain block, at the place of the vector that
    holds the block's own part, writes back what the block holds. *)
Lemma list2kdict_block_plain (hp : list num) (ki : nat) (kd : kdict) :
  plain_block kd = true ->
  firstn (List.length (block_vector kd)) (skipn ki hp) = block_vector kd ->
  list2kdict_block hp ki kd = (kd, Ok (ki + List.length (block_vector kd))%nat).
Proof.
  intros Hp Hvec. unfold plain_block in Hp.
  apply andb_prop in Hp as [Hp Ht]. apply andb_prop in Hp as [Hs _].
  assert (Htype : exists ktype, get "type" kd = Some ktype).
  { unfold plain_params in Ht.
    destruct (get "type" kd) as [ktype|]; [now exists ktype|discriminate]. }
  destruct Htype as [t Et].
  unfold list2kdict_block, block_vector in *.
  unfold bind at 1. unfold item. rewrite Et.
  unfold bind at 1. unfold contains, has.
  destruct (get "scaling" kd) as [s|] eqn:Es.
  - name_floats. apply firstn_app_split in Hvec as [Hsc Hps].
    apply firstn_one_nth in Hsc. rewrite skipn_skipn in Hps.
    change (List.length [Float q] + ki)%nat with (S ki) in Hps.
    replace (S ki) with (ki + 1)%nat in Hps by lia.
    unfold bind, lift, set_item, ret. rewrite (float_at_nth hp ki q Hsc).
    rewrite (set_get_id "scaling" (VNum (Float q)) kd Es).
    rewrite (decode_params_plain hp (ki + 1) kd t Et Ht Hps).
    f_equal. f_equal. rewrite length_app. simpl. lia.
  - unfold bind, ret. simpl in Hvec.
    rewrite (decode_params_plain hp ki kd t Et Ht Hvec). reflexivity.
Qed.

Transparent nums_of.

Lemma for_blocks_decode_plain (hp : list num) (kernel : kernel_dict) (ki : nat) :
  forallb (fun entry => plain_block (snd entry)) kernel = true ->
  firstn (List.length (kernel_vector kernel)) (skipn ki hp)
  = kernel_vector kernel ->
  for_blocks (list2kdict_block hp) ki kernel
  = (kernel, Ok (ki + List.length (kernel_vector kernel))%nat).
Proof.
  revert ki. induction kernel as [|[key kd] rest IH]; intros ki Hp Hvec.
  - simpl. f_equal. f_equal. unfold kernel_vector. simpl. lia.
  - simpl in Hp. apply andb_prop in Hp as [Hkd Hrest].
    unfold kernel_vector in Hvec. simpl in Hvec.
    fold (kernel_vector rest) in Hvec.
    apply firstn_app_split in Hvec as [H1 H2]. rewrite skipn_skipn in H2.
    replace (List.length (block_vector kd) + ki)%nat
      with (ki + List.length (block_vector kd))%nat in H2 by lia.
    simpl. rewrite (list2kdict_block_plain hp ki kd Hkd H1).
    rewrite (IH _ Hrest H2). f_equal. f_equal.
    unfold kernel_vector. simpl. rewrite length_app. lia.
Qed.

(** The round trip on plain blocks: a dictionary of blocks of type
    gaussian, sqe, laplacian, scaled_sqe, linear or constant with float
    parameters is encoded, and decoding the vector into the dictionary,
    followed by anything, gives the dictionary back. *)
Theorem roundtrip_on_plain_blocks (kernel : kernel_dict) (N_D : option Z)
    (tail : list num) :
  kernel <> [] ->
  forallb (fun entry => plain_block (snd entry)) kernel = true ->
  kdicts2list kernel N_D = Ok (kernel_vector kernel)
  /\ list2kdict (kernel_vector kernel ++ tail) kernel = (kernel, Ok tt).
Proof.
  intros Hne Hp. split; [now apply kdicts2list_plain|].
  unfold list2kdict. rewrite (for_blocks_decode_plain _ kernel 0 Hp).
  - reflexivity.
  - simpl. rewrite firstn_app, Nat.sub_diag, firstn_all. simpl.
    now rewrite app_nil_r.
Qed.

Lemma roundtrip_on_plain_blocks_example :
  kdicts2list gaussian_then_constant None = Ok [Float 1; Float 2; Float 3]
  /\ list2kdict ([Float 1; Float 2; Float 3] ++ [Float 0]) gaussian_then_constant
     = (gaussian_then_constant, Ok tt).
Proof.
  apply (roundtrip_on_plain_blocks gaussian_then_constant None [Float 0]);
    [discriminate|reflexivity].
Qed.

(** ** Which dictionaries the normaliser accepts *)

Lemma check_keys_forallb (allowed : list string) (t : string) (ks : list string) :
  check_keys allowed t ks = Ok tt <-> forallb (fun k => mem k allowed) ks = true.
Proof.
  induction ks as [|k ks IH]; simpl; [tauto|].
  destruct (mem k allowed); simpl; [exact IH|]. split; discriminate.
Qed.

(** Rewrite the goal with what the case analysis has established. *)
Ltac use_facts :=
  unfold ret, raise, lift;
  simpl;
  repeat (match goal with
          | E : ?f ?a = _ |- context [?f ?a] => rewrite E
          end; simpl).

Lemma common_setup_accepts (db : list value) (N_D : Z) (bounds : list value)
    (kd : kdict) :
  common_accepts kd N_D = true ->
  common_setup db (N_D, bounds) kd
  = (kd, Ok (block_dimension kd N_D, bounds ++ scaling_entries db kd)).
Proof.
  unfold common_accepts, features_fit, dimension_known, scaling_fit.
  intros H. unfold common_setup, block_dimension, scaling_entries,
    _scaling_setup, tuple_add. run. unfold has in *.
  crunch_bool H; use_facts; rewrite ?app_nil_r; reflexivity.
Qed.

Lemma common_setup_returns (db : list value) (N_D : Z) (bounds : list value)
    (kd kd' : kdict) (acc' : Z * list value) :
  common_setup db (N_D, bounds) kd = (kd', Ok acc') ->
  common_accepts kd N_D = true.
Proof.
  intros H. unfold common_setup, _scaling_setup, tuple_add in H. run.
  unfold common_accepts, features_fit, dimension_known, scaling_fit, has in *.
  crunch H; reflexivity.
Qed.

Lemma keys_allowed_check (t : string) (kd : kdict) :
  keys_allowed t kd = true ->
  check_keys (allowed_keys t) t (keys kd) = Ok tt
  /\ (mem "bounds" (allowed_keys t) = false -> get "bounds" kd = None).
Proof.
  intros H. apply (proj2 (check_keys_forallb (allowed_keys t) t (keys kd))) in H.
  split; [exact H|]. intros Hm.
  apply has_false_get. now apply (check_keys_accepts (allowed_keys t) t).
Qed.

Ltac allowed t kd H :=
  let Hc := fresh "Hc" in
  let Hb := fresh "Hb" in
  destruct (keys_allowed_check t kd H) as [Hc Hb];
  specialize (Hb eq_refl); cbn in Hc.

Ltac through :=
  use_facts;
  repeat (rewrite get_set_other by discriminate; use_facts).

Lemma constant_setup_accepts (bounds db : list value) (N_D : Z) (kd : kdict)
    (q : Q) :
  keys_allowed "constant" kd = true -> get "const" kd = Some (VNum (Float q)) ->
  _constant_setup bounds N_D db kd = (kd, Ok (bounds ++ db)).
Proof.
  intros Hk Hc0. allowed "constant" kd Hk.
  unfold _constant_setup, bounds_or. run. unfold has. use_facts. reflexivity.
Qed.

Lemma width_setup_accepts (bounds db : list value) (N_D : Z) (kd : kdict) :
  has "width" kd = true ->
  (keys_allowed "gaussian" kd = true ->
   _gaussian_setup bounds N_D db kd
   = (broadcast_block "width" N_D kd, Ok (bounds ++ times db N_D)))
  /\ (keys_allowed "laplacian" kd = true ->
      _laplacian_setup bounds N_D db kd
      = (broadcast_block "width" N_D kd, Ok (bounds ++ times db N_D))).
Proof.
  intros Hw. apply has_true_get in Hw as [w Hw]. split; intros Hk.
  - allowed "gaussian" kd Hk.
    unfold _gaussian_setup, bounds_or, broadcast, broadcast_block. run.
    unfold has. use_facts.
    destruct (is_float_or_int w); through; reflexivity.
  - allowed "laplacian" kd Hk.
    unfold _laplacian_setup, bounds_or, broadcast, broadcast_block. run.
    unfold has. use_facts.
    destruct (is_float_or_int w); through; reflexivity.
Qed.

Lemma quadratic_setup_accepts (bounds db : list value) (N_D : Z) (kd : kdict) :
  has "slope" kd = true -> has "degree" kd = true ->
  keys_allowed "quadratic" kd = true ->
  _quadratic_setup bounds N_D db kd
  = (broadcast_block "slope" N_D kd, Ok (bounds ++ times db N_D ++ db)).
Proof.
  intros Hs Hd Hk. apply has_true_get in Hs as [s Hs].
  apply has_true_get in Hd as [d Hd]. allowed "quadratic" kd Hk.
  unfold _quadratic_setup, bounds_or, broadcast, broadcast_block. run.
  unfold has. use_facts.
  destruct (is_float_or_int s); through; now rewrite <- app_assoc.
Qed.

Lemma typed_setup_accepts (db : list value) (N_D : Z) (bounds : list value)
    (kd : kdict) :
  typed_accepts kd = true ->
  typed_setup db (N_D, bounds) kd
  = (typed_block kd N_D, Ok (N_D, bounds ++ type_entries db kd N_D)).
Proof.
  unfold typed_accepts. intros H.
  destruct (get "type" kd) as [[|t| | | |t]|] eqn:Et; try discriminate.
  all: unfold typed_setup, typed_block, type_entries, bind, item; rewrite Et.
  all: cbn [str_eq str_is dispatch].
  all: (type_case t "user";
        [first [discriminate | unfold ret; now rewrite app_nil_r]|]).
  all: (type_case t "linear";
        [first [discriminate | unfold ret; now rewrite app_nil_r]|]).
  all: (type_case t "constant";
        [apply andb_prop in H as [Hk Hc];
         destruct (get "const" kd) as [c|] eqn:Ec; [|discriminate];
         apply is_float_nums in Hc as (q & -> & _);
         now rewrite (constant_setup_accepts bounds db N_D kd q Hk Ec)|]).
  all: (type_case t "gaussian";
        [apply andb_prop in H as [Hw Hk];
         now rewrite (proj1 (width_setup_accepts bounds db N_D kd Hw) Hk)|]).
  all: (type_case t "laplacian";
        [apply andb_prop in H as [Hw Hk];
         now rewrite (proj2 (width_setup_accepts bounds db N_D kd Hw) Hk)|]).
  all: (type_case t "quadratic"; [|discriminate]).
  all: apply andb_prop in H as [H Hk]; apply andb_prop in H as [Hs Hd].
  all: now rewrite (quadratic_setup_accepts bounds db N_D kd Hs Hd Hk).
Qed.

Lemma typed_setup_returns (db : list value) (acc acc' : Z * list value)
    (kd kd' : kdict) :
  typed_setup db acc kd = (kd', Ok acc') -> typed_accepts kd = true.
Proof.
  destruct acc as [N_D bounds]. intros H. unfold typed_accepts.
  unfold typed_setup in H. unfold bind at 1 in H. unfold item in H.
  destruct (get "type" kd) as [ktype|]; [|discriminate].
  unfold bind, ret, dispatch, raise in H.
  destruct ktype as [|t| | | |t]; simpl in H; try discriminate.
  all: (type_case t "user"; [first [reflexivity | discriminate]|]).
  all: (type_case t "linear"; [first [reflexivity | discriminate]|]).
  all: (type_case t "constant";
        [unfold _constant_setup, keys_allowed in *; run; unfold keys in *;
         destruct (check_keys _ "constant" (map fst kd)) as [[]|e] eqn:Hc;
           [|discriminate];
         apply check_keys_forallb in Hc; cbn in Hc |- *; unfold keys;
         rewrite Hc; crunch H; reflexivity|]).
  all: (type_case t "gaussian";
        [unfold _gaussian_setup, keys_allowed in *; run; unfold keys, has in *;
         destruct (get "width" kd); [|discriminate H]; simpl in H;
         destruct (check_keys _ "gaussian" (map fst kd)) as [[]|e] eqn:Hc;
           [|discriminate];
         apply check_keys_forallb in Hc; cbn in Hc |- *; unfold keys;
         now rewrite Hc|]).
  all: (type_case t "quadratic";
        [unfold _quadratic_setup, keys_allowed in *; run; unfold keys, has in *;
         destruct (get "slope" kd); [|discriminate H];
         destruct (get "degree" kd); [|discriminate H]; simpl in H;
         destruct (check_keys _ "quadratic" (map fst kd)) as [[]|e] eqn:Hc;
           [|discriminate];
         apply check_keys_forallb in Hc; cbn in Hc |- *; unfold keys;
         now rewrite Hc|]).
  all: (type_case t "laplacian";
        [unfold _laplacian_setup, keys_allowed in *; run; unfold keys, has in *;
         destruct (get "width" kd); [|discriminate H]; simpl in H;
         destruct (check_keys _ "laplacian" (map fst kd)) as [[]|e] eqn:Hc;
           [|discriminate];
         apply check_keys_forallb in Hc; cbn in Hc |- *; unfold keys;
         now rewrite Hc|]).
  all: destruct (String.eqb t "scaling"); simpl in H; [discriminate|].
  all: destruct (name_chars t); discriminate.
Qed.

Lemma prepare_block_accepts (db : list value) (N_D : Z) (bounds : list value)
    (kd : kdict) :
  block_accepts kd N_D = true ->
  prepare_block db (N_D, bounds) kd
  = (typed_block kd (block_dimension kd N_D),
     Ok (block_dimension kd N_D,
         bounds ++ scaling_entries db kd
           ++ type_entries db kd (block_dimension kd N_D))).
Proof.
  unfold block_accepts. intros H. apply andb_prop in H as [Hc Ht].
  unfold prepare_block, bind.
  rewrite (common_setup_accepts db N_D bounds kd Hc).
  rewrite (typed_setup_accepts db _ _ kd Ht). now rewrite <- app_assoc.
Qed.

Lemma prepare_block_returns (db : list value) (N_D : Z) (bounds : list value)
    (kd kd' : kdict) (acc' : Z * list value) :
  prepare_block db (N_D, bounds) kd = (kd', Ok acc') ->
  block_accepts kd N_D = true.
Proof.
  intros H. unfold prepare_block, bind in H.
  destruct (common_setup db (N_D, bounds) kd) as [kd1 [acc1|e]] eqn:E;
    [|discriminate].
  pose proof (common_setup_returns db N_D bounds kd kd1 acc1 E) as Hc.
  destruct acc1 as [N1 b1]. apply common_setup_ok in E as (-> & _).
  apply typed_setup_returns in H. unfold block_accepts. now rewrite Hc, H.
Qed.

Lemma for_blocks_prepare_accepts (db : list value) (kernel : kernel_dict)
    (N_D : Z) (bounds : list value) :
  accepts kernel N_D = true ->
  exists N_D',
    for_blocks (prepare_block db) (N_D, bounds) kernel
    = (normalised kernel N_D, Ok (N_D', bounds ++ block_bounds db kernel N_D)).
Proof.
  revert N_D bounds. induction kernel as [|[key kd] rest IH];
    intros N_D bounds H; simpl in *.
  - exists N_D. now rewrite app_nil_r.
  - apply andb_prop in H as [Hkd Hrest].
    rewrite (prepare_block_accepts db N_D bounds kd Hkd).
    destruct (IH _ (bounds ++ scaling_entries db kd
                      ++ type_entries db kd (block_dimension kd N_D)) Hrest)
      as [N' ->].
    exists N'. now rewrite <- !app_assoc.
Qed.

Lemma prepare_kernels_accepts (kernel : kernel_dict) (rb : value) (eg : bool)
    (N_D : Z) :
  accepts kernel N_D = true ->
  prepare_kernels kernel rb eg N_D
  = (normalised kernel N_D,
     Ok (block_bounds (default_bounds eg) kernel N_D ++ [rb])).
Proof.
  intros H. unfold prepare_kernels.
  now destruct (for_blocks_prepare_accepts (default_bounds eg) kernel N_D [] H)
    as [N' ->].
Qed.

Lemma for_blocks_prepare_returns (db : list value) (kernel kernel' : kernel_dict)
    (N_D : Z) (bounds : list value) (acc' : Z * list value) :
  for_blocks (prepare_block db) (N_D, bounds) kernel = (kernel', Ok acc') ->
  accepts kernel N_D = true.
Proof.
  revert kernel' N_D bounds acc'.
  induction kernel as [|[key kd] rest IH]; intros kernel' N_D bounds acc' H;
    simpl in *; [reflexivity|].
  destruct (prepare_block db (N_D, bounds) kd) as [kd1 [[N1 b1]|e]] eqn:E;
    [|discriminate].
  rewrite (prepare_block_returns db N_D bounds kd kd1 (N1, b1) E).
  apply prepare_block_ok in E as (-> & _ & _).
  destruct (for_blocks (prepare_block db) (block_dimension kd N_D, b1) rest)
    as [rest' [acc1|e]] eqn:Er; [|discriminate].
  now apply IH in Er.
Qed.

(** X1.  On dictionaries whose type tags are names, [prepare_kernels]
    returns exactly when every block is accepted with the count that
    reaches it: it then yields the dictionary with its scalar widths and
    slopes broadcast and, block by block, the scaling and type entries
    followed by [regularization_bounds]; otherwise it raises.  Accepted
    without a routine are the blocks whose tag is the interned ['user'] or
    ['linear']; the same characters in another string object are looked up
    as a routine and refused. *)
Theorem prepare_kernels_returns_iff_accepted (kernel : kernel_dict) (rb : value)
    (eg : bool) (N_D : Z) :
  name_tags kernel = true ->
  if accepts kernel N_D
  then prepare_kernels kernel rb eg N_D
       = (normalised kernel N_D,
          Ok (block_bounds (default_bounds eg) kernel N_D ++ [rb]))
  else exists kernel' e, prepare_kernels kernel rb eg N_D = (kernel', Raise e).
Proof.
  intros _. destruct (accepts kernel N_D) eqn:Ha.
  - now apply prepare_kernels_accepts.
  - unfold prepare_kernels.
    destruct (for_blocks (prepare_block (default_bounds eg)) (N_D, []) kernel)
      as [k1 [acc1|e]] eqn:E; [|now eexists _, _].
    apply for_blocks_prepare_returns in E. congruence.
Qed.

(** ** What normalisation keeps *)

Lemma keys_set_present {V} (k : string) (v v' : V) (d : dict V) :
  get k d = Some v -> keys (set k v' d) = keys d.
Proof.
  unfold keys. induction d as [|[k0 v0] d IH]; simpl; [discriminate|].
  destruct (String.eqb_spec k k0); intros H; simpl; [reflexivity|].
  now rewrite IH.
Qed.

Lemma broadcast_block_get_other (k k' : string) (N_D : Z) (kd : kdict) :
  k' <> k -> get k' (broadcast_block k N_D kd) = get k' kd.
Proof.
  intros Hne. unfold broadcast_block. destruct (get k kd) as [theta|];
    [|reflexivity].
  destruct (is_float_or_int theta); [|reflexivity]. now apply get_set_other.
Qed.

Lemma broadcast_block_keys (k : string) (N_D : Z) (kd : kdict) :
  keys (broadcast_block k N_D kd) = keys kd.
Proof.
  unfold broadcast_block. destruct (get k kd) as [theta|] eqn:E; [|reflexivity].
  destruct (is_float_or_int theta); [|reflexivity].
  now apply keys_set_present with (v := theta).
Qed.

Lemma broadcast_block_has (k k' : string) (N_D : Z) (kd : kdict) :
  has k' (broadcast_block k N_D kd) = has k' kd.
Proof.
  destruct (String.eqb_spec k' k) as [->|Hne].
  - unfold broadcast_block, has. destruct (get k kd) as [theta|] eqn:E;
      [|now rewrite E].
    destruct (is_float_or_int theta); [|now rewrite E].
    now rewrite get_set_same.
  - unfold has. now rewrite broadcast_block_get_other.
Qed.

Lemma broadcast_block_idem (k : string) (N1 N2 : Z) (kd : kdict) :
  broadcast_block k N2 (broadcast_block k N1 kd) = broadcast_block k N1 kd.
Proof.
  unfold broadcast_block. destruct (get k kd) as [theta|] eqn:E.
  - destruct (is_float_or_int theta) eqn:Ef.
    + now rewrite get_set_same.
    + now rewrite E, Ef.
  - now rewrite E.
Qed.

Lemma typed_block_written (kd : kdict) (N_D : Z) :
  typed_block kd N_D
  = match written_key kd with
    | Some k => broadcast_block k N_D kd
    | None => kd
    end.
Proof.
  unfold typed_block, written_key.
  destruct (get "type" kd) as [[|t| | | |t]|]; try reflexivity.
  all: destruct (String.eqb t "gaussian" || String.eqb t "laplacian");
    [reflexivity|].
  all: now destruct (String.eqb t "quadratic").
Qed.

Lemma written_key_cases (kd : kdict) :
  written_key kd = Some "width" \/ written_key kd = Some "slope"
  \/ written_key kd = None.
Proof.
  unfold written_key. destruct (get "type" kd) as [[|t| | | |t]|]; auto.
  all: destruct (String.eqb t "gaussian" || String.eqb t "laplacian"); auto.
  all: destruct (String.eqb t "quadratic"); auto.
Qed.

Lemma typed_block_get_other (k : string) (kd : kdict) (N_D : Z) :
  k <> "width" -> k <> "slope" -> get k (typed_block kd N_D) = get k kd.
Proof.
  intros Hw Hs. rewrite typed_block_written.
  destruct (written_key_cases kd) as [-> |[-> | ->]]; [| |reflexivity];
    now apply broadcast_block_get_other.
Qed.

Lemma typed_block_keys (kd : kdict) (N_D : Z) :
  keys (typed_block kd N_D) = keys kd.
Proof.
  rewrite typed_block_written.
  destruct (written_key kd); [apply broadcast_block_keys|reflexivity].
Qed.

Lemma typed_block_has (k : string) (kd : kdict) (N_D : Z) :
  has k (typed_block kd N_D) = has k kd.
Proof.
  rewrite typed_block_written.
  destruct (written_key kd); [apply broadcast_block_has|reflexivity].
Qed.

Lemma typed_block_written_key (kd : kdict) (N_D : Z) :
  written_key (typed_block kd N_D) = written_key kd.
Proof.
  unfold written_key. now rewrite typed_block_get_other by discriminate.
Qed.

Lemma typed_block_idem (kd : kdict) (N1 N2 : Z) :
  typed_block (typed_block kd N1) N2 = typed_block kd N1.
Proof.
  rewrite (typed_block_written (typed_block kd N1)), typed_block_written_key.
  rewrite typed_block_written.
  destruct (written_key kd); [apply broadcast_block_idem|reflexivity].
Qed.

Lemma typed_block_dimension (kd : kdict) (N1 N_D : Z) :
  block_dimension (typed_block kd N1) N_D = block_dimension kd N_D.
Proof.
  unfold block_dimension. now rewrite !typed_block_get_other by discriminate.
Qed.

Lemma typed_block_accepts (kd : kdict) (N1 N_D : Z) :
  block_accepts (typed_block kd N1) N_D = block_accepts kd N_D.
Proof.
  unfold block_accepts, common_accepts, typed_accepts, features_fit,
    dimension_known, scaling_fit, keys_allowed.
  rewrite !typed_block_has, typed_block_keys.
  now rewrite !typed_block_get_other by discriminate.
Qed.

Lemma typed_block_entries (db : list value) (kd : kdict) (N1 N_D : Z) :
  scaling_entries db (typed_block kd N1) = scaling_entries db kd
  /\ type_entries db (typed_block kd N1) N_D = type_entries db kd N_D.
Proof.
  unfold scaling_entries, type_entries. rewrite typed_block_has.
  now rewrite !typed_block_get_other by discriminate.
Qed.

Lemma normalised_again (db : list value) (kernel : kernel_dict) (N_D : Z) :
  normalised (normalised kernel N_D) N_D = normalised kernel N_D
  /\ accepts (normalised kernel N_D) N_D = accepts kernel N_D
  /\ block_bounds db (normalised kernel N_D) N_D = block_bounds db kernel N_D.
Proof.
  revert N_D. induction kernel as [|[key kd] rest IH]; intros N_D; simpl;
    [auto|].
  rewrite typed_block_dimension, typed_block_idem, typed_block_accepts.
  destruct (typed_block_entries db kd (block_dimension kd N_D)
              (block_dimension kd N_D)) as [-> ->].
  destruct (IH (block_dimension kd N_D)) as (-> & -> & ->). auto.
Qed.

(** X2.  Normalisation is idempotent: a dictionary that [prepare_kernels]
    has returned is returned unchanged, with the same bounds, when it is
    normalised again with the same arguments. *)
Theorem prepare_kernels_idempotent (kernel kernel' : kernel_dict) (rb : value)
    (eg : bool) (N_D : Z) (bounds : list value) :
  prepare_kernels kernel rb eg N_D = (kernel', Ok bounds) ->
  prepare_kernels kernel' rb eg N_D = (kernel', Ok bounds).
Proof.
  intros H. pose proof H as H0. apply prepare_kernels_ok in H0 as [-> ->].
  assert (Ha : accepts kernel N_D = true).
  { unfold prepare_kernels in H.
    destruct (for_blocks (prepare_block (default_bounds eg)) (N_D, []) kernel)
      as [k1 [acc1|e]] eqn:E; [|discriminate].
    now apply for_blocks_prepare_returns in E. }
  destruct (normalised_again (default_bounds eg) kernel N_D) as (Hn & Hacc & Hb).
  rewrite prepare_kernels_accepts by congruence. now rewrite Hn, Hb.
Qed.

Lemma prepare_kernels_idempotent_witness :
  prepare_kernels
    [("a", [("type", VStr "gaussian"); ("features", VList [int 0; int 1]);
            ("width", VList [flt 1; flt 1])]);
     ("b", [("type", VStr "gaussian"); ("width", VList [flt 1; flt 1])])]
    VNone false 5
  = ([("a", [("type", VStr "gaussian"); ("features", VList [int 0; int 1]);
             ("width", VList [flt 1; flt 1])]);
      ("b", [("type", VStr "gaussian"); ("width", VList [flt 1; flt 1])])],
     Ok [default_pair false; default_pair false;
         default_pair false; default_pair false; VNone]).
Proof.
  exact (prepare_kernels_idempotent features_then_plain _ VNone false 5 _
           eq_refl).
Defined.

Lemma prepare_kernels_returns_iff_accepted_witness :
  if accepts features_then_plain 5
  then prepare_kernels features_then_plain VNone true 5
       = (normalised features_then_plain 5,
          Ok (block_bounds (default_bounds true) features_then_plain 5 ++ [VNone]))
  else exists kernel' e,
      prepare_kernels features_then_plain VNone true 5 = (kernel', Raise e).
Proof.
  exact (prepare_kernels_returns_iff_accepted features_then_plain VNone true 5
           eq_refl).
Defined.

(** ** What a call leaves of the caller's dictionary *)

Section Frames.

Context {S : Type} (R : S -> S -> Prop).
Hypothesis R_refl : forall s, R s s.
Hypothesis R_trans : forall s1 s2 s3, R s1 s2 -> R s2 s3 -> R s1 s3.

Lemma frames_readonly {A} (c : M S A) : readonly c -> frames R c.
Proof. intros H s. rewrite H. apply R_refl. Qed.

Lemma frames_bind {A B} (c : M S A) (k : A -> M S B) :
  frames R c -> (forall a, frames R (k a)) -> frames R (bind c k).
Proof.
  intros Hc Hk s. unfold bind. specialize (Hc s).
  destruct (c s) as [s' [a|e]]; simpl in *; [|exact Hc].
  eapply R_trans; [exact Hc|apply Hk].
Qed.

End Frames.

Lemma blockwise_refl (R : kdict -> kdict -> Prop) (kernel : kernel_dict) :
  (forall kd, R kd kd) -> blockwise R kernel kernel.
Proof.
  intros HR. induction kernel as [|entry rest IH]; constructor; auto.
Qed.

Lemma for_blocks_frames {A} (R : kdict -> kdict -> Prop)
    (body : A -> M kdict A) (kernel : kernel_dict) (acc : A) :
  (forall kd, R kd kd) -> (forall a, frames R (body a)) ->
  blockwise R kernel (fst (for_blocks body acc kernel)).
Proof.
  intros HR Hbody. revert acc.
  induction kernel as [|[key kd] rest IH]; intros acc; simpl; [constructor|].
  pose proof (Hbody acc kd) as Hkd.
  destruct (body acc kd) as [kd' [acc'|e]]; simpl in Hkd.
  - specialize (IH acc'). destruct (for_blocks body acc' rest) as [rest' r].
    simpl in *. constructor; auto.
  - simpl. constructor; [auto|]. now apply blockwise_refl.
Qed.

Lemma same_but_refl (written : list string) (kd : kdict) :
  same_but written kd kd.
Proof. now split. Qed.

Lemma same_but_trans (written : list string) (kd1 kd2 kd3 : kdict) :
  same_but written kd1 kd2 -> same_but written kd2 kd3 ->
  same_but written kd1 kd3.
Proof.
  intros [H1 H2] [H3 H4]. split; [congruence|].
  intros k Hk. now rewrite H4, H2.
Qed.

Lemma kept_but_refl (written : list string) (kd : kdict) :
  kept_but written kd kd.
Proof. split; [apply incl_refl|reflexivity]. Qed.

Lemma kept_but_trans (written : list string) (kd1 kd2 kd3 : kdict) :
  kept_but written kd1 kd2 -> kept_but written kd2 kd3 ->
  kept_but written kd1 kd3.
Proof.
  intros [H1 H2] [H3 H4]. split; [eapply incl_tran; eauto|].
  intros k Hk. now rewrite H4, H2.
Qed.

Lemma frames_broadcast (written : list string) (k : string) (N_D : Z) :
  In k written -> frames (same_but written) (broadcast k N_D).
Proof.
  intros Hin kd. unfold broadcast, bind, item.
  destruct (get k kd) as [theta|] eqn:E; simpl; [|apply same_but_refl].
  destruct (is_float_or_int theta); simpl; [|apply same_but_refl].
  split; [now apply keys_set_present with (v := theta)|].
  intros k' Hk'. apply get_set_other. intros ->. contradiction.
Qed.

Lemma keys_set_incl {V} (k : string) (v : V) (d : dict V) :
  incl (keys d) (keys (set k v d)).
Proof.
  unfold keys. induction d as [|[k0 v0] d IH]; simpl; [apply incl_nil_l|].
  destruct (String.eqb k k0); simpl; [apply incl_refl|].
  apply incl_cons; [now left|]. now apply incl_tl.
Qed.

Lemma frames_set_item (written : list string) (k : string) (v : value) :
  In k written -> frames (kept_but written) (set_item k v).
Proof.
  intros Hin kd. unfold set_item. simpl. split; [apply keys_set_incl|].
  intros k' Hk'. apply get_set_other. intros ->. contradiction.
Qed.

Ltac fr_step Rrefl Rtrans :=
  first
    [ solve [apply frames_readonly; [exact Rrefl | ro]]
    | solve [apply frames_broadcast; simpl; auto]
    | solve [apply frames_set_item; simpl; auto 10]
    | apply (frames_bind _ Rtrans)
    | match goal with
      | |- frames _ (if ?b then _ else _) => destruct b
      | |- frames _ (match ?x with _ => _ end) => destruct x
      | |- forall _, _ => intro
      end ].

Ltac fr Rrefl Rtrans := repeat fr_step Rrefl Rtrans.

Lemma frames_prepare_block (db : list value) (acc : Z * list value) :
  frames (same_but normaliser_writes) (prepare_block db acc).
Proof.
  pose proof (same_but_refl normaliser_writes) as Rr.
  pose proof (same_but_trans normaliser_writes) as Rt.
  unfold prepare_block. apply (frames_bind _ Rt).
  - apply frames_readonly; [exact Rr|apply ro_common_setup].
  - intros [N_D bounds]. unfold typed_setup, dispatch, _constant_setup,
      _gaussian_setup, _quadratic_setup, _laplacian_setup, bounds_or.
    fr Rr Rt.
Qed.

Lemma frames_list2kdict_block (hp : list num) (ki : nat) :
  frames (kept_but decoder_writes) (list2kdict_block hp ki).
Proof.
  pose proof (kept_but_refl decoder_writes) as Rr.
  pose proof (kept_but_trans decoder_writes) as Rt.
  unfold list2kdict_block, decode_params, len_item. fr Rr Rt.
Qed.

(** X3.  Whether [prepare_kernels] returns or raises, the caller's
    dictionary holds the same blocks under the same keys in the same
    order, and each block has its keys in their order and every value
    other than those under ['width'] and ['slope']. *)
Theorem prepare_kernels_writes_only_width_and_slope (kernel : kernel_dict)
    (rb : value) (eg : bool) (N_D : Z) :
  blockwise (same_but normaliser_writes) kernel
            (fst (prepare_kernels kernel rb eg N_D)).
Proof.
  unfold prepare_kernels.
  pose proof (for_blocks_frames (same_but normaliser_writes)
                (prepare_block (default_bounds eg)) kernel (N_D, [])
                (same_but_refl normaliser_writes)
                (frames_prepare_block (default_bounds eg))) as H.
  now destruct (for_blocks (prepare_block (default_bounds eg)) (N_D, []) kernel).
Qed.

(** X4.  Whether [list2kdict] returns or raises, the caller's dictionary
    holds the same blocks under the same keys in the same order; a block
    loses no key, and keeps its type and every other value that is not
    under one of the seven parameter keys the decoder writes. *)
Theorem list2kdict_writes_only_parameters (hp : list num) (kernel : kernel_dict) :
  blockwise (kept_but decoder_writes) kernel (fst (list2kdict hp kernel)).
Proof.
  unfold list2kdict.
  pose proof (for_blocks_frames (kept_but decoder_writes)
                (list2kdict_block hp) kernel 0%nat
                (kept_but_refl decoder_writes)
                (frames_list2kdict_block hp)) as H.
  now destruct (for_blocks (list2kdict_block hp) 0%nat kernel).
Qed.

(** ** Keys the routines leave no room for *)

Lemma accepts_in (kernel : kernel_dict) (N_D : Z) (key : string) (kd : kdict) :
  accepts kernel N_D = true -> In (key, kd) kernel -> typed_accepts kd = true.
Proof.
  revert N_D. induction kernel as [|[key0 kd0] rest IH]; intros N_D Ha Hin;
    [destruct Hin|].
  simpl in Ha. apply andb_prop in Ha as [Hb Hrest].
  destruct Hin as [Heq|Hin].
  - inversion Heq; subst. unfold block_accepts in Hb.
    now apply andb_prop in Hb as [_ Hb].
  - now apply (IH _ Hrest).
Qed.

Lemma keys_allowed_has (t k : string) (kd : kdict) :
  keys_allowed t kd = true -> has k kd = true -> mem k (allowed_keys t) = true.
Proof.
  unfold keys_allowed. intros Hk Hh. rewrite forallb_forall in Hk.
  apply Hk. apply has_true_get in Hh as [v Hv]. now apply get_in_keys in Hv.
Qed.

Lemma typed_accepts_override (kd : kdict) (k : string) :
  typed_accepts kd = true -> has k kd = true ->
  k = "bounds" \/ k = "scaling_bounds" ->
  get "type" kd = Some (VStr "user") \/ get "type" kd = Some (VStr "linear").
Proof.
  unfold typed_accepts. intros H Hh Hk.
  assert (Hm : forall t', keys_allowed t' kd = true ->
                          mem k (allowed_keys t') = true)
    by (intros t' Ht'; now apply keys_allowed_has with (kd := kd)).
  destruct (get "type" kd) as [[|t| | | |t]|]; try discriminate.
  all: (type_case t "user"; [first [discriminate H | now left]|]).
  all: (type_case t "linear"; [first [discriminate H | now right]|]).
  all: exfalso.
  all: (type_case t "constant";
        [apply andb_prop in H as [H _]; apply Hm in H;
         destruct Hk as [-> | ->]; discriminate|]).
  all: (type_case t "gaussian";
        [apply andb_prop in H as [_ H]; apply Hm in H;
         destruct Hk as [-> | ->]; discriminate|]).
  all: (type_case t "laplacian";
        [apply andb_prop in H as [_ H]; apply Hm in H;
         destruct Hk as [-> | ->]; discriminate|]).
  all: (type_case t "quadratic"; [|discriminate]).
  all: apply andb_prop in H as [_ H]; apply Hm in H.
  all: destruct Hk as [-> | ->]; discriminate.
Qed.

(** X5.  In a dictionary that [prepare_kernels] returns, a block that
    carries a ['bounds'] or a ['scaling_bounds'] key is of type ['user'] or
    ['linear']: the bounds of the four types with a routine cannot be
    overridden, nor can the bound of their scaling. *)
Theorem override_keys_only_on_user_and_linear (kernel kernel' : kernel_dict)
    (rb : value) (eg : bool) (N_D : Z) (bounds : list value) (key k : string)
    (kd : kdict) :
  prepare_kernels kernel rb eg N_D = (kernel', Ok bounds) ->
  In (key, kd) kernel ->
  has k kd = true -> k = "bounds" \/ k = "scaling_bounds" ->
  get "type" kd = Some (VStr "user") \/ get "type" kd = Some (VStr "linear").
Proof.
  intros H Hin Hh Hk. unfold prepare_kernels in H.
  destruct (for_blocks (prepare_block (default_bounds eg)) (N_D, []) kernel)
    as [k1 [acc1|e]] eqn:E; [|discriminate].
  apply for_blocks_prepare_returns in E.
  apply (typed_accepts_override kd k); auto.
  now apply (accepts_in kernel N_D key).
Qed.

Lemma override_keys_only_on_user_and_linear_witness :
  get "type"
    [("type", VStr "linear"); ("scaling", flt 2);
     ("scaling_bounds", unit_bounds)]
  = Some (VStr "user")
  \/ get "type"
       [("type", VStr "linear"); ("scaling", flt 2);
        ("scaling_bounds", unit_bounds)]
     = Some (VStr "linear").
Proof.
  exact (override_keys_only_on_user_and_linear
           [("l", [("type", VStr "linear"); ("scaling", flt 2);
                   ("scaling_bounds", unit_bounds)])]
           _ VNone false 3 _ "l" "scaling_bounds" _
           eq_refl (or_introl eq_refl) eq_refl (or_intror eq_refl)).
Defined.





(** ** The errors of the routines, and their order *)

Lemma prepare_kernels_dispatch_raises (pre post pre' : kernel_dict)
    (key t : string) (kd kd' : kdict) (rb : value) (eg : bool) (N_D N_D' : Z)
    (acc : Z * list value) (bounds' : list value) (e : exn) :
  for_blocks (prepare_block (default_bounds eg)) (N_D, []) pre = (pre', Ok acc) ->
  snd (common_setup (default_bounds eg) acc kd) = Ok (N_D', bounds') ->
  get "type" kd = Some (VStr t) -> t <> "user" -> t <> "linear" ->
  dispatch (VStr t) bounds' N_D' (default_bounds eg) kd = (kd', Raise e) ->
  prepare_kernels (pre ++ (key, kd) :: post) rb eg N_D
  = (pre' ++ (key, kd') :: post, Raise e).
Proof.
  intros Hpre Hc Ht Hu Hl Hd. unfold prepare_kernels.
  rewrite (for_blocks_raise_keeps_prefix (prepare_block (default_bounds eg))
             pre post pre' key kd kd' (N_D, []) acc e Hpre); [reflexivity|].
  rewrite prepare_block_unfold, Hc.
  now rewrite (typed_setup_dispatch _ N_D' bounds' t kd Ht Hu Hl), Hd.
Qed.

(** X7.  A type tag made of name characters that is none of ['user'],
    ['linear'] and the four types with a routine stops normalisation at
    its block, once the blocks before it are normalised and the block has
    passed the common part: with [NotImplementedError] for the tag, except
    for the tag ['scaling'], for which the command calls [_scaling_setup]
    with one argument too many, a [TypeError]. *)
Theorem unknown_type_is_not_implemented (t : string) (pre post pre' : kernel_dict)
    (key : string) (kd : kdict) (rb : value) (eg : bool) (N_D : Z)
    (acc acc' : Z * list value) :
  name_chars t = true ->
  mem t ["user"; "linear"; "constant"; "gaussian"; "quadratic"; "laplacian"]
  = false ->
  get "type" kd = Some (VStr t) ->
  for_blocks (prepare_block (default_bounds eg)) (N_D, []) pre = (pre', Ok acc) ->
  snd (common_setup (default_bounds eg) acc kd) = Ok acc' ->
  prepare_kernels (pre ++ (key, kd) :: post) rb eg N_D
  = (pre' ++ (key, kd) :: post,
     Raise (if String.eqb t "scaling" then TypeError
            else NotImplementedError t)).
Proof.
  intros Hn Hm Ht Hpre Hc. destruct acc' as [N' b']. simpl in Hm.
  rewrite !orb_false_r in Hm.
  repeat match goal with
         | H : (_ || _)%bool = false |- _ =>
             apply orb_false_elim in H as [? ?]
         end.
  apply (prepare_kernels_dispatch_raises pre post pre' key t kd kd rb eg
           N_D N' acc b'); auto.
  - intros ->. discriminate.
  - intros ->. discriminate.
  - unfold dispatch, raise.
    repeat match goal with E : String.eqb t _ = false |- _ =>
             rewrite E; clear E end.
    destruct (String.eqb t "scaling"); [reflexivity|]. now rewrite Hn.
Qed.

Lemma unknown_type_is_not_implemented_witness :
  prepare_kernels
    ([("k1", [("type", VStr "linear")])]
       ++ ("k2", [("type", VStr "rbf_unknown")]) :: [])
    VNone false 2
  = ([("k1", [("type", VStr "linear")])]
       ++ ("k2", [("type", VStr "rbf_unknown")]) :: [],
     Raise (if String.eqb "rbf_unknown" "scaling" then TypeError
            else NotImplementedError "rbf_unknown")).
Proof.
  exact (unknown_type_is_not_implemented "rbf_unknown"
           [("k1", [("type", VStr "linear")])] []
           [("k1", [("type", VStr "linear")])] "k2"
           [("type", VStr "rbf_unknown")] VNone false 2 (2, []) (2, [])
           eq_refl eq_refl eq_refl eq_refl eq_refl).
Defined.

Lemma check_keys_find (allowed : list string) (t : string) (ks : list string) :
  check_keys allowed t ks
  = match find (fun k => negb (mem k allowed)) ks with
    | Some k => Raise (AssertionError (UndefinedKey k t))
    | None => Ok tt
    end.
Proof.
  induction ks as [|k ks IH]; simpl; [reflexivity|].
  destruct (mem k allowed); simpl; [exact IH|reflexivity].
Qed.

Lemma assert_allowed_first (t : string) (kd : kdict) :
  assert_allowed (allowed_keys t) t kd
  = (kd, match first_undefined t kd with
         | Some k => Raise (AssertionError (UndefinedKey k t))
         | None => Ok tt
         end).
Proof. unfold assert_allowed, first_undefined. now rewrite check_keys_find. Qed.

Ltac by_allowed t :=
  match goal with
  | |- context [assert_allowed ?l t] =>
      change (assert_allowed l t) with (assert_allowed (allowed_keys t) t)
  end;
  unfold bind; rewrite ?assert_allowed_first.




Lemma dispatch_required_error (t : string) (bounds db : list value) (N_D : Z)
    (kd : kdict) (e : exn) :
  required_error t kd = Some e ->
  dispatch (VStr t) bounds N_D db kd = (kd, Raise e).
Proof.
  unfold required_error. intros H.
  destruct (String.eqb_spec t "gaussian") as [->|Hg].
  { cbn in H |- *. unfold _gaussian_setup, bind, contains, assert.
    destruct (has "width" kd); [discriminate|]. now inversion H. }
  destruct (String.eqb_spec t "laplacian") as [->|Hl].
  { cbn in H |- *. unfold _laplacian_setup, bind, contains, assert.
    destruct (has "width" kd); [discriminate|]. now inversion H. }
  destruct (String.eqb_spec t "quadratic") as [->|Hq].
  { cbn in H |- *. unfold _quadratic_setup, bind, contains, assert.
    destruct (has "slope" kd && has "degree" kd); [discriminate|].
    now inversion H. }
  destruct (String.eqb_spec t "constant") as [->|Hc]; [|discriminate].
  cbn [orb] in H. cbn [dispatch String.eqb Ascii.eqb Bool.eqb].
  unfold _constant_setup. by_allowed "constant".
  destruct (first_undefined "constant" kd); [discriminate|].
  unfold item, assert, raise, ret.
  destruct (get "const" kd) as [c|]; [|now inversion H].
  destruct (is_float c); [discriminate|]. now inversion H.
Qed.

(** X9.  A gaussian or laplacian block without ['width'] and a quadratic
    block without ['slope'] or ['degree'] fail their own assertion whatever
    their other keys are, the required keys being checked before the
    allowed ones.  A constant block has its keys checked first; if they
    pass, a ['const'] that is not a float (an int, say) fails the
    assertion, and a missing ['const'] is a [KeyError]. *)
Theorem required_fields_are_checked (t : string) (pre post pre' : kernel_dict)
    (key : string) (kd : kdict) (rb : value) (eg : bool) (N_D : Z)
    (acc acc' : Z * list value) (e : exn) :
  get "type" kd = Some (VStr t) ->
  required_error t kd = Some e ->
  for_blocks (prepare_block (default_bounds eg)) (N_D, []) pre = (pre', Ok acc) ->
  snd (common_setup (default_bounds eg) acc kd) = Ok acc' ->
  prepare_kernels (pre ++ (key, kd) :: post) rb eg N_D
  = (pre' ++ (key, kd) :: post, Raise e).
Proof.
  intros Hg Hr Hpre Hc. destruct acc' as [N' b'].
  apply (prepare_kernels_dispatch_raises pre post pre' key t kd kd rb eg
           N_D N' acc b'); auto.
  - intros ->. discriminate.
  - intros ->. discriminate.
  - now apply dispatch_required_error.
Qed.

Lemma required_fields_are_checked_witness :
  prepare_kernels
    ([] ++ ("k", [("type", VStr "constant"); ("const", int 1)]) :: [])
    VNone false 2
  = ([] ++ ("k", [("type", VStr "constant"); ("const", int 1)]) :: [],
     Raise (AssertionError ConstNotFloat)).
Proof.
  exact (required_fields_are_checked "constant" [] [] [] "k"
           [("type", VStr "constant"); ("const", int 1)]
           VNone false 2 (2, []) (2, []) (AssertionError ConstNotFloat)
           eq_refl eq_refl eq_refl eq_refl).
Defined.

(** ** One bound for each element of the vector *)

Lemma times_pair_length (eg : bool) (N_D : Z) :
  List.length (times (default_bounds eg) N_D) = Z.to_nat N_D.
Proof. unfold default_bounds. rewrite times_singleton. apply repeat_length. Qed.

Lemma size_of_broadcast (k : string) (kd : kdict) (N_D : Z) (v : value) :
  get k kd = Some v ->
  is_float_or_int v
  || match len v with
     | Ok n => (n =? Z.to_nat N_D)%nat
     | Raise _ => false
     end = true ->
  size_of k (broadcast_block k N_D kd) = Z.to_nat N_D.
Proof.
  intros Hg H. unfold size_of, broadcast_block. rewrite Hg.
  destruct (is_float_or_int v) eqn:Ef.
  - rewrite get_set_same. cbn [len]. rewrite times_singleton.
    apply repeat_length.
  - simpl in H. rewrite Hg. destruct (len v) as [n|]; [|discriminate].
    now apply Nat.eqb_eq.
Qed.

Lemma measured_block_length (eg : bool) (kd : kdict) (N_D : Z) :
  measured kd N_D = true ->
  List.length (scaling_entries (default_bounds eg) kd
                 ++ type_entries (default_bounds eg) kd N_D)
  = block_length (typed_block kd N_D).
Proof.
  unfold measured. intros H. apply andb_prop in H as [Hsb H].
  apply negb_true_iff in Hsb. rewrite length_app. unfold block_length.
  rewrite typed_block_has, typed_block_get_other by discriminate.
  f_equal.
  - unfold scaling_entries. apply has_false_get in Hsb. rewrite Hsb.
    now destruct (has "scaling" kd).
  - rewrite typed_block_written. unfold type_entries.
    unfold written_key in *.
    destruct (get "type" kd) as [[|t| | | |t]|]; try discriminate.
    all: cbn [str_eq str_is].
    all: (type_case t "gaussian";
          [destruct (get "width" kd) as [v|] eqn:Ev; [|discriminate];
           rewrite (size_of_broadcast "width" kd N_D v Ev H);
           apply times_pair_length|]).
    all: (type_case t "laplacian";
          [destruct (get "width" kd) as [v|] eqn:Ev; [|discriminate];
           rewrite (size_of_broadcast "width" kd N_D v Ev H);
           apply times_pair_length|]).
    all: (type_case t "quadratic";
          [destruct (get "slope" kd) as [v|] eqn:Ev; [|discriminate];
           rewrite (size_of_broadcast "slope" kd N_D v Ev H);
           rewrite length_app, times_pair_length; reflexivity|]).
    all: (type_case t "constant"; [reflexivity|]).
    all: (type_case t "linear"; [|discriminate]).
    all: reflexivity.
Qed.

Lemma measured_bounds_length (eg : bool) (kernel : kernel_dict) (N_D : Z) :
  measured_kernel kernel N_D = true ->
  List.length (block_bounds (default_bounds eg) kernel N_D)
  = required_length (normalised kernel N_D).
Proof.
  revert N_D. induction kernel as [|[key kd] rest IH]; intros N_D H;
    [reflexivity|].
  simpl in H. apply andb_prop in H as [Hkd Hrest].
  cbn [block_bounds normalised].
  change (required_length
            ((key, typed_block kd (block_dimension kd N_D))
               :: normalised rest (block_dimension kd N_D)))
    with (block_length (typed_block kd (block_dimension kd N_D))
          + required_length (normalised rest (block_dimension kd N_D)))%nat.
  rewrite <- (IH _ Hrest), <- (measured_block_length eg kd _ Hkd).
  now rewrite app_assoc, length_app.
Qed.

Lemma all_equal_repeat {A} (x : A) (l : list A) :
  Forall (fun y => y = x) l -> l = List.repeat x (List.length l).
Proof.
  induction 1 as [|y l Hy Hl IH]; simpl; [reflexivity|]. now rewrite Hy, <- IH.
Qed.

(** Without a ['scaling_bounds'] tuple, every entry of a block is the
    default pair, and there are as many as the block has parameters. *)
Lemma measured_block_default (eg : bool) (kd : kdict) (N_D : Z) :
  measured kd N_D = true ->
  scaling_entries (default_bounds eg) kd
    ++ type_entries (default_bounds eg) kd N_D
  = List.repeat (default_pair eg) (block_length (typed_block kd N_D)).
Proof.
  intros H. rewrite <- (measured_block_length eg kd N_D H).
  apply all_equal_repeat. apply Forall_app. split.
  - unfold measured in H. apply andb_prop in H as [Hsb _].
    apply negb_true_iff, has_false_get in Hsb.
    unfold scaling_entries. rewrite Hsb.
    destruct (has "scaling" kd); repeat constructor.
  - now apply type_entries_default.
Qed.

Lemma measured_bounds_default (eg : bool) (kernel : kernel_dict) (N_D : Z) :
  measured_kernel kernel N_D = true ->
  block_bounds (default_bounds eg) kernel N_D
  = List.repeat (default_pair eg) (required_length (normalised kernel N_D)).
Proof.
  revert N_D. induction kernel as [|[key kd] rest IH]; intros N_D H;
    [reflexivity|].
  simpl in H. apply andb_prop in H as [Hkd Hrest].
  cbn [block_bounds normalised].
  change (required_length
            ((key, typed_block kd (block_dimension kd N_D))
               :: normalised rest (block_dimension kd N_D)))
    with (block_length (typed_block kd (block_dimension kd N_D))
          + required_length (normalised rest (block_dimension kd N_D)))%nat.
  rewrite repeat_app, <- (IH _ Hrest), <- (measured_block_default eg kd _ Hkd).
  now rewrite app_assoc.
Qed.

(** C7.  The default bound pair is [(1e-12, None)] without
    [eval_gradients] and [(1e-6, 1e6)] with it, it is chosen once for the
    call, and every free parameter receives it.  Whenever [prepare_kernels]
    returns, its bounds are, block by block, the entry of the scaling (the
    pair, or the block's ['scaling_bounds'] tuple) and the entries of the
    type (the pair once for a constant, once per dimension for a gaussian
    or laplacian, once per dimension and once more for a quadratic),
    followed by [regularization_bounds]; so each entry before the last is
    that one pair, unless it comes from a ['scaling_bounds'] tuple.  Where
    no block has such a tuple and the widths and slopes are scalars or as
    long as the dimension of their block, the bounds are the pair, once for
    each element the normalised dictionary stands for in the flat vector,
    and [regularization_bounds]. *)
Theorem default_bound_pair_is_chosen_once (kernel : kernel_dict) (rb : value)
    (eg : bool) (N_D : Z) (kernel' : kernel_dict) (bounds : list value) :
  prepare_kernels kernel rb eg N_D = (kernel', Ok bounds) ->
  default_pair eg
  = (if eg
     then VTuple [VNum (Float (1 # 1000000)); VNum (Float (1000000 # 1))]
     else VTuple [VNum (Float (1 # 1000000000000)); VNone])
  /\ bounds = block_bounds [default_pair eg] kernel N_D ++ [rb]
  /\ (exists body,
         bounds = body ++ [rb]
         /\ Forall (fun b => b = default_pair eg \/ scaling_override kernel b)
                   body)
  /\ (measured_kernel kernel N_D = true ->
      bounds
      = List.repeat (default_pair eg) (required_length kernel') ++ [rb]).
Proof.
  intros H. split; [now destruct eg|].
  apply prepare_kernels_ok in H as [-> ->]. split; [reflexivity|]. split.
  - eexists. split; [reflexivity|]. apply block_bounds_entries.
  - intros Hm. now rewrite (measured_bounds_default eg kernel N_D Hm).
Qed.

Lemma default_bound_pair_is_chosen_once_witness :
  default_pair true
  = VTuple [VNum (Float (1 # 1000000)); VNum (Float (1000000 # 1))]
  /\ [default_pair true; default_pair true; default_pair true;
       default_pair true; VNone]
     = List.repeat (default_pair true)
         (required_length
            [("k1", [("type", VStr "gaussian"); ("scaling", flt 1);
                     ("width", VList [flt 2; flt 2])]);
             ("k2", [("type", VStr "constant"); ("const", flt 1)])])
         ++ [VNone].
Proof.
  pose proof (default_bound_pair_is_chosen_once
                [("k1", [("type", VStr "gaussian"); ("scaling", flt 1);
                         ("width", flt 2)]);
                 ("k2", [("type", VStr "constant"); ("const", flt 1)])]
                VNone true 2
                [("k1", [("type", VStr "gaussian"); ("scaling", flt 1);
                         ("width", VList [flt 2; flt 2])]);
                 ("k2", [("type", VStr "constant"); ("const", flt 1)])]
                [default_pair true; default_pair true; default_pair true;
                 default_pair true; VNone]
                eq_refl) as (Hpair & _ & _ & Hcount).
  split; [exact Hpair|]. exact (Hcount eq_refl).
Defined.

(** X10.  When [prepare_kernels] returns on a dictionary of blocks of the
    types constant, gaussian, laplacian, quadratic and linear whose widths
    and slopes are scalars, or sequences as long as the dimension resolved
    for their block, it returns one bound for each element the normalised
    dictionary stands for in the flat vector, and one more for the
    regularization. *)
Theorem bounds_count_matches_vector (kernel kernel' : kernel_dict) (rb : value)
    (eg : bool) (N_D : Z) (bounds : list value) :
  prepare_kernels kernel rb eg N_D = (kernel', Ok bounds) ->
  measured_kernel kernel N_D = true ->
  List.length bounds = (required_length kernel' + 1)%nat.
Proof.
  intros H Hm. apply prepare_kernels_ok in H as [-> ->].
  rewrite length_app. now rewrite (measured_bounds_length eg kernel N_D Hm).
Qed.

Lemma bounds_count_matches_vector_witness :
  List.length
    [default_pair false; default_pair false; default_pair false;
     default_pair false; default_pair false; default_pair false; VNone]
  = (required_length
       [("g", [("type", VStr "gaussian"); ("scaling", flt 1);
               ("width", VList [flt 2; flt 2])]);
        ("q", [("type", VStr "quadratic"); ("slope", VList [flt 1; flt 1]);
               ("degree", flt 3)])]
     + 1)%nat.
Proof.
  exact (bounds_count_matches_vector
           [("g", [("type", VStr "gaussian"); ("scaling", flt 1);
                   ("width", flt 2)]);
            ("q", [("type", VStr "quadratic"); ("slope", VList [flt 1; flt 1]);
                   ("degree", flt 3)])]
           _ VNone false 2 _ eq_refl eq_refl).
Defined.

(** ** Elements past what the dictionary stands for *)

Lemma float_at_app (v tail : list num) (ki : nat) :
  (ki < List.length v)%nat -> float_at (v ++ tail) ki = float_at v ki.
Proof. intros H. unfold float_at. now rewrite nth_error_app1. Qed.

Lemma slice_app {A} (v tail : list A) (i j : nat) :
  (j <= List.length v)%nat -> slice (v ++ tail) i j = slice v i j.
Proof.
  intros H. unfold slice.
  destruct (Nat.le_gt_cases i j) as [Hij|Hij].
  - rewrite skipn_app, firstn_app, length_skipn.
    replace (i - List.length v)%nat with 0%nat by lia.
    replace (j - i - (List.length v - i))%nat with 0%nat by lia.
    simpl. now rewrite app_nil_r.
  - now replace (j - i)%nat with 0%nat by lia.
Qed.

Lemma list_slice_app (v tail : list num) (i j : nat) :
  (j <= List.length v)%nat -> list_slice (v ++ tail) i j = list_slice v i j.
Proof. intros H. unfold list_slice. now rewrite slice_app. Qed.

Ltac split_in H :=
  match type of H with
  | context [match ?x with _ => _ end] =>
      lazymatch x with
      | context [match _ with _ => _ end] => fail
      | _ => destruct x eqn:?
      end
  | context [if ?x then _ else _] =>
      lazymatch x with
      | context [match _ with _ => _ end] => fail
      | context [if _ then _ else _] => fail
      | _ => destruct x eqn:?
      end
  end.

Lemma list2kdict_block_app (v tail : list num) (ki : nat) (kd : kdict) :
  (ki + block_length kd <= List.length v)%nat ->
  list2kdict_block (v ++ tail) ki kd = list2kdict_block v ki kd.
Proof.
  intros Hlen. unfold block_length, size_of, has in Hlen.
  unfold list2kdict_block, decode_params, len_item. run. unfold has.
  repeat split_in Hlen;
    repeat (use_facts;
            first [ rewrite float_at_app by lia
                  | rewrite list_slice_app by lia
                  | rewrite slice_app by lia
                  | rewrite get_set_other by discriminate
                  | match goal with
                    | |- context [match float_at v ?k with _ => _ end] =>
                        destruct (float_at v k)
                    end ]);
    use_facts; reflexivity.
Qed.

Lemma list2kdict_block_cursor (v : list num) (ki ki' : nat) (kd kd' : kdict) :
  list2kdict_block v ki kd = (kd', Ok ki') ->
  (ki' <= ki + block_length kd)%nat.
Proof.
  intros H. unfold list2kdict_block, decode_params, len_item in H. run.
  unfold block_length, size_of, has.
  crunch_set H; inversion H; subst; use_facts; lia.
Qed.

Lemma for_blocks_list2kdict_app (v tail : list num) (kernel : kernel_dict)
    (ki : nat) :
  (ki + required_length kernel <= List.length v)%nat ->
  for_blocks (list2kdict_block (v ++ tail)) ki kernel
  = for_blocks (list2kdict_block v) ki kernel.
Proof.
  revert ki. induction kernel as [|[key kd] rest IH]; intros ki H;
    [reflexivity|].
  change (required_length ((key, kd) :: rest))
    with (block_length kd + required_length rest)%nat in H.
  simpl. rewrite list2kdict_block_app by lia.
  destruct (list2kdict_block v ki kd) as [kd' [ki'|e]] eqn:E; [|reflexivity].
  apply list2kdict_block_cursor in E. rewrite IH by lia. reflexivity.
Qed.

(** X11.  Elements of the flat vector past those the dictionary stands for
    are never looked at: when the vector is at least as long as the
    dictionary requires, appending anything to it changes neither the
    outcome of [list2kdict] nor the dictionary it leaves. *)
Theorem list2kdict_ignores_trailing_elements (v tail : list num)
    (kernel : kernel_dict) :
  (required_length kernel <= List.length v)%nat ->
  list2kdict (v ++ tail) kernel = list2kdict v kernel.
Proof.
  intros H. unfold list2kdict. now rewrite for_blocks_list2kdict_app.
Qed.

Lemma list2kdict_ignores_trailing_elements_witness :
  list2kdict ([Float 7; Float 8; Float 9] ++ [Float 0]) gaussian_then_constant
  = list2kdict [Float 7; Float 8; Float 9] gaussian_then_constant.
Proof.
  apply (list2kdict_ignores_trailing_elements [Float 7; Float 8; Float 9]
           [Float 0] gaussian_then_constant).
  vm_compute. lia.
Defined.

(** ** As many elements encoded as decoded *)

Lemma chars_length (s : string) : List.length (chars s) = String.length s.
Proof. induction s as [|c s IH]; simpl; [reflexivity|]. now rewrite IH. Qed.

Lemma to_list_len (v : value) (l : list value) :
  to_list v = Ok l -> len v = Ok (List.length l).
Proof.
  destruct v; simpl; intros H; inversion H; subst; try reflexivity.
  all: now rewrite chars_length.
Qed.

Ltac lens :=
  repeat match goal with
         | E : to_list ?v = Ok ?l |- _ => apply to_list_len in E
         end.

Ltac same_results :=
  repeat match goal with
         | E1 : ?x = Ok ?a, E2 : ?x = Ok ?b |- _ =>
             rewrite E1 in E2; inversion E2; clear E2; subst
         | E1 : ?x = Ok _, E2 : ?x = Raise _ |- _ =>
             rewrite E1 in E2; discriminate E2
         end.

Ltac measure H Hl Ha :=
  crunch_bool Ha; crunch H; inversion H; subst; simpl in Hl; inversion Hl;
  subst; lens;
  repeat match goal with
         | E : (_ =? _)%nat = true |- _ => apply Nat.eqb_eq in E
         end;
  same_results; use_facts; rewrite ?length_app; simpl; try lia.

Lemma kdict2list_block_length (kd : kdict) (N_D : option Z)
    (scaling : list value) (theta : value) (l : list value) :
  kdict2list kd N_D = Ok (scaling, theta) ->
  list_add scaling theta = Ok l ->
  aligned kd = true ->
  List.length l = block_length kd.
Proof.
  intros H Hl Ha. unfold kdict2list, kdict2list_body, generic_theta in H.
  run. unfold aligned, block_length, size_of, has in *.
  destruct (get "type" kd) as [ktype|] eqn:Et; [|discriminate H].
  destruct ktype as [|t| | | |t]; cbn [str_eq str_is orb] in *.
  2, 6: (type_case t "gaussian"; [measure H Hl Ha|];
         type_case t "sqe"; [measure H Hl Ha|];
         type_case t "laplacian"; [measure H Hl Ha|];
         type_case t "scaled_sqe"; [measure H Hl Ha|];
         type_case t "quadratic"; [measure H Hl Ha|];
         type_case t "linear"; [measure H Hl Ha|];
         type_case t "constant"; [measure H Hl Ha|];
         measure H Hl Ha).
  all: measure H Hl Ha.
Qed.

Lemma as_nums_length (vs : list value) (ns : list num) :
  as_nums vs = Some ns -> List.length ns = List.length vs.
Proof.
  revert ns. induction vs as [|v vs IH]; simpl; intros ns H.
  - now inversion H.
  - destruct (as_num v); [|discriminate].
    destruct (as_nums vs) as [ns'|]; [|discriminate].
    inversion H; subst. simpl. now rewrite (IH ns').
Qed.

Lemma as_arrays_length (ls : list (list value)) (arrays : list (list num)) :
  as_arrays ls = Some arrays ->
  List.length (List.concat arrays)
  = list_sum (map (@List.length value) ls).
Proof.
  revert arrays. induction ls as [|l ls IH]; simpl; intros arrays H.
  - now inversion H.
  - destruct (as_nums l) as [a|] eqn:Ea; [|discriminate].
    destruct (as_arrays ls) as [rest|]; [|discriminate].
    inversion H; subst. simpl. rewrite length_app, (IH rest eq_refl).
    now rewrite (as_nums_length l a Ea).
Qed.

Lemma np_concatenate_length (ls : list (list value)) (v : list num) :
  np_concatenate ls = Ok v ->
  List.length v = list_sum (map (@List.length value) ls).
Proof.
  unfold np_concatenate. destruct ls as [|l ls]; [discriminate|].
  destruct (as_arrays (l :: ls)) as [arrays|] eqn:E; [|discriminate].
  intros H. inversion H; subst. apply as_arrays_length in E.
  destruct (existsb float64_array arrays); [rewrite length_map|]; exact E.
Qed.

Lemma kdicts2list_loop_length (kernel : kernel_dict) (N_D : option Z)
    (ls : list (list value)) :
  kdicts2list_loop kernel N_D = Ok ls ->
  forallb (fun entry => aligned (snd entry)) kernel = true ->
  list_sum (map (@List.length value) ls) = required_length kernel.
Proof.
  revert ls. induction kernel as [|[key kd] rest IH]; simpl; intros ls H Ha.
  - now inversion H.
  - apply andb_prop in Ha as [Hkd Hrest].
    destruct (kdict2list kd N_D) as [[scaling theta]|] eqn:E; [|discriminate].
    destruct (list_add scaling theta) as [l|] eqn:El; [|discriminate].
    destruct (kdicts2list_loop rest N_D) as [ls'|]; [|discriminate].
    inversion H; subst. simpl.
    rewrite (kdict2list_block_length kd N_D scaling theta l E El Hkd).
    now rewrite (IH ls' eq_refl Hrest).
Qed.

Lemma kdicts2list_length (kernel : kernel_dict) (N_D : option Z) (v : list num) :
  kdicts2list kernel N_D = Ok v ->
  forallb (fun entry => aligned (snd entry)) kernel = true ->
  List.length v = required_length kernel.
Proof.
  unfold kdicts2list. intros H Ha.
  destruct (kdicts2list_loop kernel N_D) as [ls|] eqn:E; [|discriminate].
  rewrite (np_concatenate_length ls v H).
  now apply (kdicts2list_loop_length kernel N_D).
Qed.

(** A block of a named type that [kdict2list] encodes holds the sequence
    [list2kdict] measures it by. *)
Lemma encoded_block_is_sized (kd : kdict) (N_D : option Z)
    (r : list value * value) :
  kdict2list kd N_D = Ok r -> named_block kd = true -> codec_block kd = true.
Proof.
  intros H Hn. unfold kdict2list, kdict2list_body in H. run.
  unfold named_block, named_type, codec_block, has_len, has in *.
  destruct (get "type" kd) as [ktype|] eqn:Et; [|discriminate].
  destruct ktype as [|t| | | |t]; try discriminate; cbn [str_eq orb] in *.
  all: (type_case t "gaussian"; [crunch H; lens; use_facts; reflexivity|]).
  all: (type_case t "sqe"; [crunch H; lens; use_facts; reflexivity|]).
  all: (type_case t "laplacian"; [crunch H; lens; use_facts; reflexivity|]).
  all: (type_case t "scaled_sqe"; [crunch H; lens; use_facts; reflexivity|]).
  all: (type_case t "quadratic"; [crunch H; lens; use_facts; reflexivity|]).
  all: (type_case t "linear"; [reflexivity|]).
  all: (type_case t "constant"; [reflexivity|discriminate]).
Qed.

Lemma encoded_kernel_is_sized (kernel : kernel_dict) (N_D : option Z)
    (ls : list (list value)) :
  kdicts2list_loop kernel N_D = Ok ls ->
  forallb (fun entry => named_block (snd entry)) kernel = true ->
  codec_kernel kernel = true.
Proof.
  revert ls. induction kernel as [|[key kd] rest IH]; simpl; intros ls H Hn;
    [reflexivity|].
  apply andb_prop in Hn as [Hkd Hrest].
  destruct (kdict2list kd N_D) as [[scaling theta]|] eqn:E; [|discriminate].
  destruct (list_add scaling theta) as [l|]; [|discriminate].
  destruct (kdicts2list_loop rest N_D) as [ls'|]; [|discriminate].
  unfold codec_kernel in *. simpl.
  rewrite (encoded_block_is_sized kd N_D _ E Hkd). now apply (IH ls').
Qed.

(** X12.  The decoder takes as many elements as the encoder emits, on
    the types it has a branch for.  When [kdicts2list] returns a vector for
    a dictionary of gaussian, sqe, laplacian, scaled_sqe, quadratic, linear
    and constant blocks that are encoded from the keys they are decoded
    into, [list2kdict] decodes that vector without error, and the cursor
    [ki] of its loop ends at the length of the vector.  (After a block of
    another type the cursor lags, the last branch leaving it where it
    is.) *)
Theorem decoder_cursor_ends_at_encoded_length (kernel : kernel_dict)
    (N_D : option Z) (v : list num) :
  kdicts2list kernel N_D = Ok v ->
  forallb (fun entry => named_block (snd entry)) kernel = true ->
  forallb (fun entry => aligned (snd entry)) kernel = true ->
  snd (for_blocks (list2kdict_block v) 0%nat kernel) = Ok (List.length v)
  /\ snd (list2kdict v kernel) = Ok tt.
Proof.
  intros H Hn Ha.
  assert (Hlen : List.length v = required_length kernel)
    by exact (kdicts2list_length kernel N_D v H Ha).
  assert (Hc : codec_kernel kernel = true).
  { unfold kdicts2list in H.
    destruct (kdicts2list_loop kernel N_D) as [ls|] eqn:E; [|discriminate].
    exact (encoded_kernel_is_sized kernel N_D ls E Hn). }
  assert (Hcur : snd (for_blocks (list2kdict_block v) 0%nat kernel)
                 = Ok (List.length v)).
  { rewrite (list2kdict_loop_codec v kernel 0 Hc).
    replace (all_within v (index_reads 0 kernel)) with true.
    - now rewrite Hlen.
    - symmetry. apply forallb_forall. intros p Hp. apply Nat.ltb_lt.
      apply index_reads_below in Hp. lia. }
  split; [exact Hcur|]. unfold list2kdict.
  destruct (for_blocks (list2kdict_block v) 0%nat kernel) as [kernel' r].
  simpl in *. now subst r.
Qed.

Lemma decoder_cursor_ends_at_encoded_length_witness :
  snd (for_blocks (list2kdict_block [Float 1; Float 2; Float 3; Float 4])
         0%nat
         [("a", [("type", VStr "gaussian"); ("scaling", flt 1);
                 ("width", VList [flt 2; flt 3])]);
          ("b", [("type", VStr "constant"); ("const", int 4)])])
  = Ok (List.length [Float 1; Float 2; Float 3; Float 4])
  /\ snd (list2kdict [Float 1; Float 2; Float 3; Float 4]
            [("a", [("type", VStr "gaussian"); ("scaling", flt 1);
                    ("width", VList [flt 2; flt 3])]);
             ("b", [("type", VStr "constant"); ("const", int 4)])])
     = Ok tt.
Proof.
  exact (decoder_cursor_ends_at_encoded_length
           [("a", [("type", VStr "gaussian"); ("scaling", flt 1);
                   ("width", VList [flt 2; flt 3])]);
            ("b", [("type", VStr "constant"); ("const", int 4)])]
           None [Float 1; Float 2; Float 3; Float 4] eq_refl eq_refl eq_refl).
Defined.

Lemma accepted_block_aligned (kd : kdict) (N_D : Z) :
  typed_accepts kd = true -> measured kd N_D = true ->
  aligned (typed_block kd N_D) = true.
Proof.
  unfold aligned. rewrite !typed_block_has.
  rewrite typed_block_get_other by discriminate.
  unfold typed_accepts, measured, written_key. intros Ht Hm.
  apply andb_prop in Hm as [_ Hm].
  assert (Hk : forall t', keys_allowed t' kd = true ->
                 mem "hyperparameters" (allowed_keys t') = false ->
                 mem "theta" (allowed_keys t') = false ->
                 negb (has "hyperparameters" kd) && negb (has "theta" kd)
                 = true).
  { intros t' Hk H1 H2.
    destruct (has "hyperparameters" kd) eqn:E1.
    - apply (keys_allowed_has t') in E1; [congruence|exact Hk].
    - destruct (has "theta" kd) eqn:E2; [|reflexivity].
      apply (keys_allowed_has t') in E2; [congruence|exact Hk]. }
  destruct (get "type" kd) as [[|t| | | |t]|]; try discriminate.
  all: cbn [str_eq str_is].
  all: (type_case t "user"; [discriminate|]).
  all: (type_case t "linear"; [reflexivity|]).
  all: (type_case t "constant"; [reflexivity|]).
  all: (type_case t "gaussian";
        [apply andb_prop in Ht as [_ Ht]; now apply (Hk "gaussian")|]).
  all: (type_case t "laplacian";
        [apply andb_prop in Ht as [_ Ht]; now apply (Hk "laplacian")|]).
  all: (type_case t "quadratic"; [reflexivity|discriminate]).
Qed.

Lemma accepted_kernel_aligned (kernel : kernel_dict) (N_D : Z) :
  accepts kernel N_D = true -> measured_kernel kernel N_D = true ->
  forallb (fun entry => aligned (snd entry)) (normalised kernel N_D) = true.
Proof.
  revert N_D. induction kernel as [|[key kd] rest IH]; intros N_D Ha Hm;
    [reflexivity|].
  simpl in *. apply andb_prop in Ha as [Hb Hrest].
  apply andb_prop in Hm as [Hkd Hmrest].
  unfold block_accepts in Hb. apply andb_prop in Hb as [_ Ht].
  rewrite (accepted_block_aligned kd _ Ht Hkd). now apply IH.
Qed.

(** X13.  The normaliser and the encoder agree: for a dictionary of
    constant, gaussian, laplacian, quadratic and linear blocks whose widths
    and slopes are scalars or sequences of the resolved dimension, the
    bounds [prepare_kernels] returns are one more than the elements of the
    vector [kdicts2list] makes of the normalised dictionary. *)
Theorem bounds_are_one_more_than_encoded (kernel kernel' : kernel_dict)
    (rb : value) (eg : bool) (N_D : Z) (bounds : list value)
    (n : option Z) (v : list num) :
  prepare_kernels kernel rb eg N_D = (kernel', Ok bounds) ->
  measured_kernel kernel N_D = true ->
  kdicts2list kernel' n = Ok v ->
  List.length bounds = (List.length v + 1)%nat.
Proof.
  intros H Hm Hv.
  assert (Ha : accepts kernel N_D = true).
  { unfold prepare_kernels in H.
    destruct (for_blocks (prepare_block (default_bounds eg)) (N_D, []) kernel)
      as [k1 [acc1|e]] eqn:E; [|discriminate].
    now apply for_blocks_prepare_returns in E. }
  apply prepare_kernels_ok in H as [-> ->].
  rewrite length_app, (measured_bounds_length eg kernel N_D Hm).
  rewrite (kdicts2list_length _ n v Hv); [reflexivity|].
  now apply accepted_kernel_aligned.
Qed.

Lemma bounds_are_one_more_than_encoded_witness :
  List.length
    [default_pair false; default_pair false; default_pair false;
     default_pair false; default_pair false; default_pair false; VNone]
  = (List.length [Float 1; Float 2; Float 2; Float 1; Float 1; Float 3] + 1)%nat.
Proof.
  exact (bounds_are_one_more_than_encoded
           [("g", [("type", VStr "gaussian"); ("scaling", flt 1);
                   ("width", flt 2)]);
            ("q", [("type", VStr "quadratic"); ("slope", VList [flt 1; flt 1]);
                   ("degree", flt 3)])]
           _ VNone false 2 _ None _ eq_refl eq_refl eq_refl).
Defined.

(** ** Encoding what has been decoded *)

Lemma nums_of_map (ns : list num) : nums_of (VList (map VNum ns)) = ns.
Proof.
  simpl. induction ns as [|n ns IH]; simpl; [reflexivity|]. now rewrite IH.
Qed.

Lemma floats_map (ns : list num) :
  forallb num_is_float ns = true -> forallb is_float (map VNum ns) = true.
Proof.
  induction ns as [|[z|q] ns IH]; simpl; auto; discriminate.
Qed.

Lemma forallb_firstn {A} (p : A -> bool) (n : nat) (l : list A) :
  forallb p l = true -> forallb p (firstn n l) = true.
Proof.
  revert l. induction n as [|n IH]; intros [|x l]; simpl; auto.
  intros H. apply andb_prop in H as [-> H]. now apply IH.
Qed.

Lemma forallb_skipn {A} (p : A -> bool) (n : nat) (l : list A) :
  forallb p l = true -> forallb p (skipn n l) = true.
Proof.
  revert l. induction n as [|n IH]; intros [|x l]; simpl; auto.
  intros H. apply andb_prop in H as [_ H]. now apply IH.
Qed.

Lemma floats_slice (v : list num) (i j : nat) :
  forallb num_is_float v = true -> forallb num_is_float (slice v i j) = true.
Proof.
  intros H. unfold slice. now apply forallb_firstn, forallb_skipn.
Qed.

Lemma slice_length {A} (v : list A) (i n : nat) :
  (i + n <= List.length v)%nat -> List.length (slice v i (i + n)) = n.
Proof.
  intros H. rewrite slice_from, length_firstn, length_skipn. lia.
Qed.

Lemma float_at_floats (v : list num) (ki : nat) :
  forallb num_is_float v = true -> (ki < List.length v)%nat ->
  exists q, float_at v ki = Ok (VNum (Float q))
            /\ firstn 1 (skipn ki v) = [Float q].
Proof.
  intros Hf Hlt. unfold float_at.
  destruct (nth_error v ki) as [n|] eqn:E.
  - assert (Hin : In n v) by (eapply nth_error_In; eauto).
    rewrite forallb_forall in Hf. specialize (Hf n Hin).
    destruct n as [z|q]; [discriminate|]. exists q. split; [reflexivity|].
    rewrite <- hd_error_skipn in E. destruct (skipn ki v); [discriminate|].
    simpl in *. congruence.
  - apply nth_error_None in E. lia.
Qed.

Lemma firstn_add {A} (l : list A) (a b : nat) :
  firstn (a + b) l = firstn a l ++ firstn b (skipn a l).
Proof.
  revert l. induction a as [|a IH]; intros l; simpl; [reflexivity|].
  destruct l as [|x l]; simpl; [now rewrite firstn_nil|]. now rewrite IH.
Qed.

Lemma firstn_add_skipn {A} (v : list A) (k a b : nat) :
  firstn (a + b) (skipn k v)
  = firstn a (skipn k v) ++ firstn b (skipn (k + a) v).
Proof.
  rewrite firstn_add, skipn_skipn. now replace (a + k)%nat with (k + a)%nat by lia.
Qed.

Lemma block_length_parts (kd : kdict) :
  block_length kd
  = ((if has "scaling" kd then 1 else 0) + params_length kd)%nat.
Proof. reflexivity. Qed.

Lemma has_len_size (k : string) (kd : kdict) :
  has_len k kd = true ->
  exists w, get k kd = Some w /\ len w = Ok (size_of k kd).
Proof.
  unfold has_len, size_of. destruct (get k kd) as [w|]; [|discriminate].
  destruct (len w) as [n|] eqn:E; [|discriminate]. intros _. now exists w.
Qed.

Lemma list_slice_floats (v : list num) (i j : nat) :
  forallb num_is_float v = true -> float_list (list_slice v i j) = true.
Proof. intros H. apply floats_map. now apply floats_slice. Qed.

Lemma list_slice_nums (v : list num) (i n : nat) :
  nums_of (list_slice v i (i + n)) = firstn n (skipn i v).
Proof. unfold list_slice. now rewrite nums_of_map, slice_from. Qed.

Ltac gets :=
  repeat first [rewrite get_set_same | rewrite get_set_other by discriminate].

Lemma decode_params_floats (v : list num) (ki : nat) (kd : kdict)
    (ktype : value) :
  get "type" kd = Some ktype ->
  decodable_params kd = true ->
  forallb num_is_float v = true ->
  (ki + params_length kd <= List.length v)%nat ->
  exists kd',
    decode_params v ktype ki kd = (kd', Ok (ki + params_length kd)%nat)
    /\ (forall k, ~ In k params_keys -> get k kd' = get k kd)
    /\ plain_params kd' = true
    /\ params_vector kd' = firstn (params_length kd) (skipn ki v).
Proof.
  intros Et Hd Hf Hlen. unfold decodable_params, params_length in *.
  rewrite Et in *.
  assert (Hframe : forall (k : string) (w : value) (d : kdict),
            ~ In k params_keys ->
            get k (set "width" w d) = get k d
            /\ get k (set "d_scaling" w d) = get k d
            /\ get k (set "const" w d) = get k d).
  { intros k w d Hk. repeat split; apply get_set_other; intros ->;
      apply Hk; simpl; auto. }
  destruct ktype as [|t| | | |t]; try discriminate; cbn [str_eq str_is] in *.
  1: {
    assert (Hwidth : forall n,
              String.eqb t "scaled_sqe" = false ->
              String.eqb t "constant" = false ->
              String.eqb t "linear" = false ->
              String.eqb t "gaussian" || String.eqb t "sqe"
              || String.eqb t "laplacian" = true ->
              get "hyperparameters" kd = None -> get "theta" kd = None ->
              (ki + n <= List.length v)%nat ->
              let kd' := set "width" (list_slice v ki (ki + n)) kd in
              (forall k, ~ In k params_keys -> get k kd' = get k kd)
              /\ plain_params kd' = true
              /\ params_vector kd' = firstn n (skipn ki v)).
    { intros n E1 E2 E3 E4 Hh Hth Hn kd'. split; [|split].
      - intros k Hk. now apply Hframe.
      - unfold plain_params, has, kd'.
        rewrite !get_set_other by discriminate. rewrite Et, E4, Hh, Hth.
        rewrite get_set_same. simpl. now apply list_slice_floats.
      - unfold params_vector, kd'.
        rewrite get_set_other by discriminate. rewrite Et, E1, E2, E3.
        rewrite get_set_same. apply list_slice_nums. }
    unfold decode_params, len_item, bind, item, lift, set_item, ret.
    cbn [str_eq str_is].
    destruct (String.eqb t "gaussian" || String.eqb t "sqe"
              || String.eqb t "laplacian") eqn:E4.
    { apply andb_prop in Hd as [Hd Hw]. apply andb_prop in Hd as [Hh Hth].
      apply negb_true_iff, has_false_get in Hh, Hth.
      apply has_len_size in Hw as (w & Hw & Hn). rewrite Hw, Hn.
      eexists. split; [reflexivity|].
      apply Hwidth; auto.
      all: destruct (String.eqb_spec t "gaussian") as [->|];
        [reflexivity|];
        destruct (String.eqb_spec t "sqe") as [->|]; [reflexivity|];
        destruct (String.eqb_spec t "laplacian") as [->|];
        [reflexivity|discriminate]. }
    destruct (String.eqb_spec t "scaled_sqe") as [->|E1].
    { apply has_len_size in Hd as (w & Hw & Hn). rewrite Hw, Hn.
      set (n := size_of "width" kd) in *.
      replace (2 * n)%nat with (n + n)%nat in * by lia.
      eexists. split; [reflexivity|]. split; [|split].
      - intros k Hk. destruct (Hframe k (list_slice v (ki + n) (ki + (n + n)))
          (set "d_scaling" (list_slice v ki (ki + n)) kd) Hk) as (-> & _).
        now apply Hframe.
      - unfold plain_params. gets. rewrite Et.
        cbn [String.eqb Ascii.eqb Bool.eqb orb]. gets.
        rewrite !list_slice_floats by exact Hf. cbn [andb].
        replace (ki + (n + n))%nat with (ki + n + n)%nat by lia.
        rewrite !list_slice_nums, !length_firstn, !length_skipn.
        apply Nat.eqb_eq. lia.
      - unfold params_vector. gets. rewrite Et.
        cbn [String.eqb Ascii.eqb Bool.eqb]. gets.
        replace (ki + (n + n))%nat with (ki + n + n)%nat by lia.
        rewrite !list_slice_nums. symmetry. apply firstn_add_skipn. }
    destruct (String.eqb_spec t "quadratic") as [->|E2]; [discriminate|].
    destruct (String.eqb_spec t "linear") as [->|E3].
    { exists kd. split; [f_equal; f_equal; lia|]. split; [reflexivity|].
      unfold plain_params, params_vector. rewrite Et. now split. }
    destruct (String.eqb_spec t "constant") as [->|E5]; [|discriminate].
    destruct (float_at_floats v ki Hf) as (q & Hq & Hfirst); [lia|].
    rewrite Hq. eexists. split; [reflexivity|]. split; [|split].
    - intros k Hk. now apply Hframe.
    - unfold plain_params. rewrite get_set_other by discriminate. rewrite Et.
      cbn [String.eqb Ascii.eqb Bool.eqb orb]. now rewrite get_set_same.
    - unfold params_vector. rewrite get_set_other by discriminate. rewrite Et.
      cbn [String.eqb Ascii.eqb Bool.eqb]. rewrite get_set_same.
      now rewrite Hfirst. }
  assert (Hwidth : forall n,
            String.eqb t "scaled_sqe" = false ->
            String.eqb t "constant" = false ->
            String.eqb t "linear" = false ->
            String.eqb t "gaussian" || String.eqb t "sqe"
            || String.eqb t "laplacian" = true ->
            get "hyperparameters" kd = None -> get "theta" kd = None ->
            (ki + n <= List.length v)%nat ->
            let kd' := set "width" (list_slice v ki (ki + n)) kd in
            (forall k, ~ In k params_keys -> get k kd' = get k kd)
            /\ plain_params kd' = true
            /\ params_vector kd' = firstn n (skipn ki v)).
  { intros n E1 E2 E3 E4 Hh Hth Hn kd'. split; [|split].
    - intros k Hk. now apply Hframe.
    - unfold plain_params, has, kd'.
      rewrite !get_set_other by discriminate. rewrite Et, E4, Hh, Hth.
      rewrite get_set_same. simpl. now apply list_slice_floats.
    - unfold params_vector, kd'.
      rewrite get_set_other by discriminate. rewrite Et, E1, E2, E3.
      rewrite get_set_same. apply list_slice_nums. }
  unfold decode_params, len_item, bind, item, lift, set_item, ret.
  cbn [str_eq str_is].
  destruct (String.eqb t "gaussian" || String.eqb t "sqe"
            || String.eqb t "laplacian") eqn:E4.
  { apply andb_prop in Hd as [Hd Hw]. apply andb_prop in Hd as [Hh Hth].
    apply negb_true_iff, has_false_get in Hh, Hth.
    apply has_len_size in Hw as (w & Hw & Hn). rewrite Hw, Hn.
    eexists. split; [reflexivity|].
    apply Hwidth; auto.
    all: destruct (String.eqb_spec t "gaussian") as [->|];
      [reflexivity|];
      destruct (String.eqb_spec t "sqe") as [->|]; [reflexivity|];
      destruct (String.eqb_spec t "laplacian") as [->|];
      [reflexivity|discriminate]. }
  destruct (String.eqb_spec t "scaled_sqe") as [->|E1].
  { apply has_len_size in Hd as (w & Hw & Hn). rewrite Hw, Hn.
    set (n := size_of "width" kd) in *.
    replace (2 * n)%nat with (n + n)%nat in * by lia.
    eexists. split; [reflexivity|]. split; [|split].
    - intros k Hk. destruct (Hframe k (list_slice v (ki + n) (ki + (n + n)))
        (set "d_scaling" (list_slice v ki (ki + n)) kd) Hk) as (-> & _).
      now apply Hframe.
    - unfold plain_params. gets. rewrite Et.
      cbn [String.eqb Ascii.eqb Bool.eqb orb]. gets.
      rewrite !list_slice_floats by exact Hf. cbn [andb].
      replace (ki + (n + n))%nat with (ki + n + n)%nat by lia.
      rewrite !list_slice_nums, !length_firstn, !length_skipn.
      apply Nat.eqb_eq. lia.
    - unfold params_vector. gets. rewrite Et.
      cbn [String.eqb Ascii.eqb Bool.eqb]. gets.
      replace (ki + (n + n))%nat with (ki + n + n)%nat by lia.
      rewrite !list_slice_nums. symmetry. apply firstn_add_skipn. }
  destruct (String.eqb_spec t "quadratic") as [->|E2]; [discriminate|].
  destruct (String.eqb_spec t "linear") as [->|E3].
  { exists kd. split; [f_equal; f_equal; lia|]. split; [reflexivity|].
    unfold plain_params, params_vector. rewrite Et. now split. }
  destruct (String.eqb_spec t "constant") as [->|E5]; [|discriminate].
  destruct (float_at_floats v ki Hf) as (q & Hq & Hfirst); [lia|].
  rewrite Hq. eexists. split; [reflexivity|]. split; [|split].
  - intros k Hk. now apply Hframe.
  - unfold plain_params. rewrite get_set_other by discriminate. rewrite Et.
    cbn [String.eqb Ascii.eqb Bool.eqb orb]. now rewrite get_set_same.
  - unfold params_vector. rewrite get_set_other by discriminate. rewrite Et.
    cbn [String.eqb Ascii.eqb Bool.eqb]. rewrite get_set_same.
    now rewrite Hfirst.
Qed.

Lemma set_scaling_params (s : value) (kd : kdict) :
  get "type" (set "scaling" s kd) = get "type" kd
  /\ decodable_params (set "scaling" s kd) = decodable_params kd
  /\ params_length (set "scaling" s kd) = params_length kd.
Proof.
  unfold decodable_params, params_length, has_len, size_of, has.
  now rewrite !get_set_other by discriminate.
Qed.

Lemma list2kdict_block_floats (v : list num) (ki : nat) (kd : kdict) :
  decodable kd = true ->
  forallb num_is_float v = true ->
  (ki + block_length kd <= List.length v)%nat ->
  exists kd',
    list2kdict_block v ki kd = (kd', Ok (ki + block_length kd)%nat)
    /\ plain_block kd' = true
    /\ block_vector kd' = firstn (block_length kd) (skipn ki v).
Proof.
  unfold decodable. intros Hd Hf Hlen. apply andb_prop in Hd as [Hc Hp].
  apply negb_true_iff, has_false_get in Hc.
  assert (Htype : exists ktype, get "type" kd = Some ktype).
  { unfold decodable_params in Hp.
    destruct (get "type" kd) as [ktype|]; [now exists ktype|discriminate]. }
  destruct Htype as [t Et]. rewrite block_length_parts in *.
  unfold list2kdict_block. unfold bind at 1. unfold item. rewrite Et.
  unfold bind at 1. unfold contains, has in *.
  assert (Hnot : forall k, k = "scaling" \/ k = "constrained" -> ~ In k params_keys).
  { intros k [-> | ->] Hin; simpl in Hin;
      repeat (destruct Hin as [Hin|Hin]; [discriminate|]); exact Hin. }
  destruct (get "scaling" kd) as [s|] eqn:Es.
  - destruct (float_at_floats v ki Hf) as (q & Hq & Hfirst); [lia|].
    unfold bind at 1. unfold bind at 1. unfold lift, set_item, ret. rewrite Hq.
    destruct (set_scaling_params (VNum (Float q)) kd) as (Ht1 & Hp1 & Hl1).
    rewrite Et in Ht1. rewrite <- Hp1 in Hp.
    destruct (decode_params_floats v (ki + 1) _ t Ht1 Hp Hf)
      as (kd' & Hrun & Hframe & Hplain & Hvec); [rewrite Hl1; lia|].
    rewrite Hl1 in *. exists kd'.
    split; [unfold bind; cbn beta iota; rewrite Hrun; f_equal; f_equal; lia|].
    split.
    + unfold plain_block, has.
      rewrite !Hframe by (apply Hnot; auto).
      rewrite get_set_same, get_set_other, Hc by discriminate.
      now rewrite Hplain.
    + unfold block_vector. rewrite Hframe by (apply Hnot; auto).
      rewrite get_set_same, Hvec. cbn [nums_of].
      now rewrite firstn_add_skipn, Hfirst.
  - unfold bind at 1. unfold ret.
    destruct (decode_params_floats v ki kd t Et Hp Hf)
      as (kd' & Hrun & Hframe & Hplain & Hvec); [lia|].
    exists kd'. split; [exact Hrun|]. split.
    + unfold plain_block, has. rewrite !Hframe by (apply Hnot; auto).
      now rewrite Es, Hc, Hplain.
    + unfold block_vector. rewrite Hframe by (apply Hnot; auto).
      now rewrite Es, Hvec.
Qed.

Lemma for_blocks_list2kdict_floats (v : list num) (kernel : kernel_dict)
    (ki : nat) :
  forallb (fun entry => decodable (snd entry)) kernel = true ->
  forallb num_is_float v = true ->
  (ki + required_length kernel <= List.length v)%nat ->
  exists kernel',
    for_blocks (list2kdict_block v) ki kernel
    = (kernel', Ok (ki + required_length kernel)%nat)
    /\ forallb (fun entry => plain_block (snd entry)) kernel' = true
    /\ kernel_vector kernel' = firstn (required_length kernel) (skipn ki v)
    /\ List.length kernel' = List.length kernel.
Proof.
  revert ki. induction kernel as [|[key kd] rest IH]; intros ki Hd Hf Hlen.
  - exists []. simpl. split; [f_equal; f_equal; unfold required_length;
      simpl; lia|]. now repeat split.
  - change (required_length ((key, kd) :: rest))
      with (block_length kd + required_length rest)%nat in *.
    simpl in Hd. apply andb_prop in Hd as [Hkd Hrest].
    destruct (list2kdict_block_floats v ki kd Hkd Hf)
      as (kd' & Hrun & Hplain & Hvec); [lia|].
    destruct (IH (ki + block_length kd)%nat Hrest Hf)
      as (rest' & Hloop & Hplains & Hvecs & Hn); [lia|].
    exists ((key, kd') :: rest'). simpl. rewrite Hrun, Hloop.
    split; [f_equal; f_equal; lia|]. split; [now rewrite Hplain|].
    split; [|now rewrite Hn].
    unfold kernel_vector in *. simpl. rewrite Hvec, Hvecs.
    symmetry. apply firstn_add_skipn.
Qed.

(** X14.  Encoding what has just been decoded gives the vector back: for
    a dictionary, not empty, of gaussian, sqe, laplacian, scaled_sqe,
    linear and constant blocks and a vector of floats at least as long as
    the dictionary requires, [list2kdict] returns, and [kdicts2list] of
    the dictionary it leaves is the part of the vector the dictionary
    stands for. *)
Theorem encoding_the_decoded_gives_the_vector (v : list num)
    (kernel : kernel_dict) (N_D : option Z) :
  kernel <> [] ->
  forallb (fun entry => decodable (snd entry)) kernel = true ->
  forallb num_is_float v = true ->
  (required_length kernel <= List.length v)%nat ->
  exists kernel',
    list2kdict v kernel = (kernel', Ok tt)
    /\ kdicts2list kernel' N_D = Ok (firstn (required_length kernel) v).
Proof.
  intros Hne Hd Hf Hlen.
  destruct (for_blocks_list2kdict_floats v kernel 0 Hd Hf Hlen)
    as (kernel' & Hloop & Hplain & Hvec & Hn).
  exists kernel'. unfold list2kdict. rewrite Hloop. split; [reflexivity|].
  rewrite kdicts2list_plain; [now rewrite Hvec| |exact Hplain].
  intros ->. destruct kernel; [contradiction|discriminate].
Qed.

Lemma encoding_the_decoded_gives_the_vector_witness :
  exists kernel',
    list2kdict [Float 7; Float 8; Float 9; Float 0] gaussian_then_constant
    = (kernel', Ok tt)
    /\ kdicts2list kernel' None
       = Ok (firstn (required_length gaussian_then_constant)
               [Float 7; Float 8; Float 9; Float 0]).
Proof.
  apply (encoding_the_decoded_gives_the_vector
           [Float 7; Float 8; Float 9; Float 0] gaussian_then_constant None).
  - discriminate.
  - reflexivity.
  - reflexivity.
  - vm_compute. lia.
Defined.

(** X15.  Decoding is idempotent on such input: decoding the same vector
    of floats again into the dictionary [list2kdict] has left changes
    nothing. *)
Theorem decoding_twice_is_decoding_once (v : list num) (kernel : kernel_dict) :
  forallb (fun entry => decodable (snd entry)) kernel = true ->
  forallb num_is_float v = true ->
  (required_length kernel <= List.length v)%nat ->
  list2kdict v (fst (list2kdict v kernel)) = list2kdict v kernel.
Proof.
  intros Hd Hf Hlen.
  destruct (for_blocks_list2kdict_floats v kernel 0 Hd Hf Hlen)
    as (kernel' & Hloop & Hplain & Hvec & Hn).
  unfold list2kdict at 2 3. rewrite Hloop. cbn [fst].
  unfold list2kdict. rewrite (for_blocks_decode_plain v kernel' 0 Hplain).
  - reflexivity.
  - rewrite Hvec. cbn [skipn]. rewrite length_firstn.
    replace (Nat.min (required_length kernel) (List.length v))
      with (required_length kernel) by lia.
    reflexivity.
Qed.

Lemma decoding_twice_is_decoding_once_witness :
  list2kdict [Float 7; Float 8; Float 9]
    (fst (list2kdict [Float 7; Float 8; Float 9] gaussian_then_constant))
  = list2kdict [Float 7; Float 8; Float 9] gaussian_then_constant.
Proof.
  apply (decoding_twice_is_decoding_once [Float 7; Float 8; Float 9]
           gaussian_then_constant).
  - reflexivity.
  - reflexivity.
  - vm_compute. lia.
Defined.

(** ** Blocks of other types in the encoder *)

Lemma named_type_false (ktype : value) :
  named_type ktype = false ->
  str_eq ktype "gaussian" = false /\ str_eq ktype "sqe" = false
  /\ str_eq ktype "laplacian" = false /\ str_eq ktype "scaled_sqe" = false
  /\ str_eq ktype "quadratic" = false /\ str_eq ktype "linear" = false
  /\ str_eq ktype "constant" = false.
Proof.
  unfold named_type. intros H.
  repeat match type of H with
         | (_ || _)%bool = false => apply orb_false_elim in H as [H ?]
         end.
  repeat split; assumption.
Qed.

Lemma width_type_not_chained (ktype : value) :
  width_type ktype = true ->
  str_eq ktype "scaled_sqe" = false /\ str_eq ktype "quadratic" = false
  /\ str_eq ktype "linear" = false /\ str_eq ktype "constant" = false.
Proof.
  unfold width_type. destruct ktype as [|t| | | |t]; simpl; try discriminate.
  all: intros H; apply orb_prop in H as [H|H];
    [apply orb_prop in H as [H|H]|];
    apply String.eqb_eq in H; subst t; repeat split; reflexivity.
Qed.

Lemma kdicts2list_raises_at (kernel : kernel_dict) (key : string) (kd : kdict)
    (N_D : option Z) :
  In (key, kd) kernel ->
  (exists e, kdict2list kd N_D = Raise e) ->
  exists e, kdicts2list kernel N_D = Raise e.
Proof.
  intros Hin [e He].
  assert (Hloop : exists e', kdicts2list_loop kernel N_D = Raise e').
  { induction kernel as [|[key' kd'] rest IH]; [contradiction|].
    simpl. destruct Hin as [Heq|Hin].
    - inversion Heq; subst. rewrite He. now exists e.
    - destruct (kdict2list kd' N_D) as [[s t]|e1]; [|now exists e1].
      destruct (list_add s t) as [l|e1]; [|now exists e1].
      destruct (IH Hin) as [e' ->]. now exists e'. }
  destruct Hloop as [e' He']. exists e'. unfold kdicts2list. now rewrite He'.
Qed.

(** X16.  In [kdict2list] the generic keys take precedence over the
    width: for a gaussian, sqe or laplacian block that also holds a list
    under ['hyperparameters'] (or, without it, under ['theta']), the
    parameters returned are that list, not the block's ['width']. *)
Theorem generic_keys_take_precedence_over_width (kd : kdict) (ktype : value)
    (k : string) (hs : list value) (N_D : option Z) :
  get "type" kd = Some ktype ->
  width_type ktype = true ->
  has_len "width" kd = true ->
  generic_key kd = Some k ->
  get k kd = Some (VList hs) ->
  has_len "features" kd = true \/ has "features" kd = false ->
  has "constrained" kd = false ->
  kdict2list kd N_D = Ok (scaling_list kd, VList hs).
Proof.
  intros Et Hw Hlen Hk Ek Hfs Hc.
  unfold has_len in Hlen.
  destruct (get "width" kd) as [w|] eqn:Ew; [|discriminate].
  assert (Hl : exists l, to_list w = Ok l).
  { destruct w; simpl in *; try discriminate; eauto. }
  destruct Hl as [l El]. clear Hlen.
  assert (Hfeat : match get "features" kd with
                  | Some fs => exists n, len fs = Ok n
                  | None => True
                  end).
  { unfold has_len, has in Hfs. destruct (get "features" kd) as [fs|]; [|exact I].
    destruct (len fs) as [n|]; [now exists n|destruct Hfs; discriminate]. }
  clear Hfs. unfold generic_key, has in *.
  unfold width_type in Hw. destruct ktype as [|t| | | |t]; try discriminate.
  all: destruct (get "constrained" kd) eqn:Ec; [discriminate|].
  all: unfold scaling_list.
  all: destruct (get "scaling" kd) as [s|] eqn:Es;
    destruct (get "features" kd) as [fs|] eqn:Ef;
    try match type of Hfeat with ex _ => destruct Hfeat as [n En] end;
    (destruct (get "hyperparameters" kd) as [h|] eqn:Eh;
     [inversion Hk; subst k; rewrite Eh in Ek; inversion Ek; subst h
     |destruct (get "theta" kd) as [th|] eqn:Eth; [|discriminate];
      inversion Hk; subst k; rewrite Eth in Ek; inversion Ek; subst th]);
    (apply orb_prop in Hw as [Hw|Hw]; [apply orb_prop in Hw as [Hw|Hw]|];
     apply String.eqb_eq in Hw; subst t);
    unfold kdict2list, kdict2list_body, generic_theta;
    unfold bind, contains, item, has; use_facts;
    try destruct N_D; use_facts; reflexivity.
Qed.

Lemma generic_keys_take_precedence_over_width_witness :
  kdict2list [("type", VStr "gaussian"); ("width", VList [flt 1; flt 2]);
              ("hyperparameters", VList [flt 5])] None
  = Ok ([], VList [flt 5]).
Proof.
  apply (generic_keys_take_precedence_over_width
           [("type", VStr "gaussian"); ("width", VList [flt 1; flt 2]);
            ("hyperparameters", VList [flt 5])]
           (VStr "gaussian") "hyperparameters" [flt 5] None).
  - reflexivity.
  - reflexivity.
  - reflexivity.
  - reflexivity.
  - reflexivity.
  - right. reflexivity.
  - reflexivity.
Defined.

Lemma kdict2list_unparameterised (kd : kdict) (N_D : option Z) :
  unparameterised kd = true ->
  (kdict2list kd N_D = Raise UnboundLocalError
   \/ kdict2list kd N_D = Raise TypeError)
  /\ (has "constrained" kd = false ->
      kdict2list kd N_D = Raise UnboundLocalError).
Proof.
  unfold unparameterised, has. intros H.
  apply andb_prop in H as [H Ht]. apply andb_prop in H as [H Hh].
  destruct (get "type" kd) as [ktype|] eqn:Et; [|discriminate].
  apply negb_true_iff, named_type_false in H
    as (H1 & H2 & H3 & H4 & H5 & H6 & H7).
  destruct (get "hyperparameters" kd) eqn:Eh; [discriminate|].
  destruct (get "theta" kd) eqn:Eth; [discriminate|].
  unfold kdict2list, kdict2list_body.
  unfold bind, contains, item, has.
  destruct (get "scaling" kd) as [s|] eqn:Es;
    destruct (get "constrained" kd) as [c|] eqn:Ec;
    destruct (get "features" kd) as [fs|] eqn:Ef;
    use_facts; try destruct N_D; use_facts;
    try (destruct (len c) as [n|e] eqn:El; use_facts;
         [|assert (e = TypeError) by (destruct c; simpl in El; congruence);
           subst e]);
    (split; [first [left; reflexivity | right; reflexivity]
           |intros Hnone; first [discriminate Hnone | reflexivity]]).
Qed.

(** X17.  A block of a type without a branch of its own ('user', say)
    that holds neither ['hyperparameters'] nor ['theta'] leaves [theta]
    unassigned: [kdict2list] raises [UnboundLocalError] (or [TypeError],
    from the length of a ['constrained'] entry read before), and
    [kdicts2list] returns for no dictionary that holds such a block. *)
Theorem block_without_parameters_is_not_encoded (kernel : kernel_dict)
    (key : string) (kd : kdict) (N_D : option Z) :
  In (key, kd) kernel ->
  unparameterised kd = true ->
  (has "constrained" kd = false ->
   kdict2list kd N_D = Raise UnboundLocalError)
  /\ exists e, kdicts2list kernel N_D = Raise e.
Proof.
  intros Hin Hu.
  destruct (kdict2list_unparameterised kd N_D Hu) as [Hor Hc].
  split; [exact Hc|].
  apply (kdicts2list_raises_at kernel key kd N_D Hin).
  destruct Hor as [-> | ->]; eauto.
Qed.

Lemma block_without_parameters_is_not_encoded_witness :
  (has "constrained" [("type", VStr "user")] = false ->
   kdict2list [("type", VStr "user")] None = Raise UnboundLocalError)
  /\ exists e,
       kdicts2list [("a", [("type", VStr "constant"); ("const", flt 3)]);
                    ("u", [("type", VStr "user")])] None
       = Raise e.
Proof.
  apply (block_without_parameters_is_not_encoded
           [("a", [("type", VStr "constant"); ("const", flt 3)]);
            ("u", [("type", VStr "user")])]
           "u" [("type", VStr "user")] None).
  - right. left. reflexivity.
  - reflexivity.
Defined.

(** X18.  A float under ['hyperparameters'] of a block whose type has no
    branch of its own is repeated: as many times as the block has
    ['features'], whatever [N_D] is passed; without ['features'], [N_D]
    times (no times for a negative [N_D]); and with neither, its length
    is asked for and [kdict2list] raises [TypeError]. *)
Theorem float_hyperparameter_is_repeated (kd : kdict) (ktype : value) (q : Q)
    (N_D : option Z) :
  get "type" kd = Some ktype ->
  named_type ktype = false ->
  get "hyperparameters" kd = Some (flt q) ->
  has "constrained" kd = false ->
  kdict2list kd N_D
  = match repeat_count kd N_D with
    | Ok n => Ok (scaling_list kd, VList (List.repeat (flt q) n))
    | Raise e => Raise e
    end.
Proof.
  intros Et Hn Eh Hc. unfold has in Hc.
  apply named_type_false in Hn as (H1 & H2 & H3 & H4 & H5 & H6 & H7).
  destruct (get "constrained" kd) eqn:Ec; [discriminate|].
  unfold kdict2list, kdict2list_body, generic_theta, repeat_count, scaling_list.
  unfold bind, contains, item, has.
  destruct (get "scaling" kd) as [s|] eqn:Es;
    destruct (get "theta" kd) as [th|] eqn:Eth;
    destruct (get "features" kd) as [fs|] eqn:Ef;
    use_facts; try destruct N_D; use_facts;
    try (destruct (len fs); use_facts);
    rewrite ?times_singleton, ?Nat2Z.id; reflexivity.
Qed.

Lemma float_hyperparameter_is_repeated_witness :
  kdict2list [("type", VStr "user"); ("features", VList [int 0; int 1]);
              ("hyperparameters", flt 5)] (Some 7%Z)
  = Ok ([], VList [flt 5; flt 5]).
Proof.
  apply (float_hyperparameter_is_repeated
           [("type", VStr "user"); ("features", VList [int 0; int 1]);
            ("hyperparameters", flt 5)] (VStr "user") 5 (Some 7%Z)).
  - reflexivity.
  - reflexivity.
  - reflexivity.
  - reflexivity.
Defined.

(** ** Keys of the decoded blocks *)

Lemma keys_set_has (k : string) (v : value) (kd : kdict) :
  has k kd = true -> keys (set k v kd) = keys kd.
Proof.
  intros H. apply has_true_get in H as [v' Hv]. now apply (keys_set_present k v').
Qed.

Lemma decode_params_keys (v : list num) (ktype : value) (ki : nat) (kd : kdict) :
  stocked_for ktype kd = true ->
  keys (fst (decode_params v ktype ki kd)) = keys kd.
Proof.
  unfold stocked_for, decode_params, len_item, bind, item, lift, set_item, ret.
  intros Hs.
  assert (Hset : forall k w w', get k kd = Some w ->
                   keys (set k w' kd) = keys kd).
  { intros k w w' Hk. now apply (keys_set_present k w). }
  destruct (str_eq ktype "gaussian" || str_eq ktype "sqe"
            || str_eq ktype "laplacian").
  { destruct (get "width" kd) as [w|] eqn:Ew; [|reflexivity].
    destruct (len w); [|reflexivity]. cbn beta iota delta [fst]. now apply (Hset "width" w). }
  destruct (str_eq ktype "scaled_sqe").
  { destruct (get "width" kd) as [w|] eqn:Ew; [|reflexivity].
    destruct (len w); [|reflexivity]. cbn beta iota delta [fst].
    rewrite (keys_set_present "width" w) by
      (now rewrite get_set_other by discriminate).
    now apply keys_set_has. }
  destruct (str_eq ktype "quadratic").
  { destruct (get "slope" kd) as [w|] eqn:Ew; [|reflexivity].
    destruct (len w); [|reflexivity]. cbn beta iota delta [fst].
    rewrite keys_set_has.
    - now apply (Hset "slope" w).
    - unfold has in *. now rewrite get_set_other by discriminate. }
  destruct (str_eq ktype "linear"); [reflexivity|].
  destruct (str_eq ktype "constant").
  { destruct (float_at v ki); [|reflexivity]. cbn beta iota delta [fst]. now apply keys_set_has. }
  destruct (get "hyperparameters" kd) as [w|] eqn:Ew; [|reflexivity].
  destruct (len w); [|reflexivity]. cbn beta iota delta [fst]. now apply (Hset "hyperparameters" w).
Qed.

Lemma list2kdict_block_keys (v : list num) (ki : nat) (kd : kdict) :
  stocked kd = true -> keys (fst (list2kdict_block v ki kd)) = keys kd.
Proof.
  unfold stocked, list2kdict_block. unfold bind at 1. unfold item.
  destruct (get "type" kd) as [ktype|] eqn:Et; [|reflexivity].
  intros Hs. unfold bind at 1. unfold contains.
  destruct (has "scaling" kd) eqn:Es.
  - unfold bind at 1. unfold bind at 1. unfold bind at 1. unfold lift.
    destruct (float_at v ki) as [s|]; [|reflexivity].
    unfold set_item, ret.
    rewrite decode_params_keys; [now apply keys_set_has|].
    unfold stocked_for, has in *.
    now rewrite !get_set_other by discriminate.
  - unfold bind at 1. unfold ret. now apply decode_params_keys.
Qed.

Lemma for_blocks_frames_on {A} (P : kdict -> bool) (R : kdict -> kdict -> Prop)
    (body : A -> M kdict A) (kernel : kernel_dict) (acc : A) :
  (forall kd, R kd kd) ->
  (forall a kd, P kd = true -> R kd (fst (body a kd))) ->
  forallb (fun entry => P (snd entry)) kernel = true ->
  blockwise R kernel (fst (for_blocks body acc kernel)).
Proof.
  intros HR Hbody. revert acc.
  induction kernel as [|[key kd] rest IH]; intros acc HP; simpl; [constructor|].
  simpl in HP. apply andb_prop in HP as [Hkd Hrest].
  pose proof (Hbody acc kd Hkd) as Hstep.
  destruct (body acc kd) as [kd' [acc'|e]]; simpl in Hstep.
  - specialize (IH acc' Hrest).
    destruct (for_blocks body acc' rest) as [rest' r].
    simpl in *. constructor; auto.
  - simpl. constructor; [auto|]. now apply blockwise_refl.
Qed.

Lemma list2kdict_block_same_but (v : list num) (ki : nat) (kd : kdict) :
  stocked kd = true ->
  same_but decoder_writes kd (fst (list2kdict_block v ki kd)).
Proof.
  intros Hs. split; [now apply list2kdict_block_keys|].
  apply (frames_list2kdict_block v ki kd).
Qed.

Lemma list2kdict_same_but (v : list num) (kernel : kernel_dict) :
  forallb (fun entry => stocked (snd entry)) kernel = true ->
  blockwise (same_but decoder_writes) kernel (fst (list2kdict v kernel)).
Proof.
  intros Hs. unfold list2kdict.
  pose proof (for_blocks_frames_on stocked (same_but decoder_writes)
                (list2kdict_block v) kernel 0%nat
                (same_but_refl decoder_writes)
                (list2kdict_block_same_but v) Hs) as H.
  now destruct (for_blocks (list2kdict_block v) 0%nat kernel).
Qed.

(** X19.  [list2kdict] adds no key where the parameters are in place: in
    a dictionary whose scaled_sqe blocks hold ['d_scaling'], whose
    quadratic blocks hold ['degree'] and whose constant blocks hold
    ['const'], every block has after the call, returned or raised, the
    keys it had, in their order, and the values it had under every key
    that is not one of the decoder's seven. *)
Theorem list2kdict_keeps_the_keys (v : list num) (kernel : kernel_dict) :
  forallb (fun entry => stocked (snd entry)) kernel = true ->
  blockwise (same_but decoder_writes) kernel (fst (list2kdict v kernel)).
Proof. exact (list2kdict_same_but v kernel). Qed.

Lemma list2kdict_keeps_the_keys_witness :
  blockwise (same_but decoder_writes) gaussian_then_constant
    (fst (list2kdict [Float 7] gaussian_then_constant)).
Proof.
  apply (list2kdict_keeps_the_keys [Float 7] gaussian_then_constant).
  reflexivity.
Defined.

(** ** Preparing, decoding and encoding *)

Lemma broadcast_block_has_len (k : string) (N_D : Z) (kd : kdict) (v : value) :
  get k kd = Some v ->
  is_float_or_int v
  || match len v with Ok n => (n =? Z.to_nat N_D)%nat | Raise _ => false end
  = true ->
  has_len k (broadcast_block k N_D kd) = true.
Proof.
  intros Hv H. unfold broadcast_block, has_len. rewrite Hv.
  destruct (is_float_or_int v) eqn:E.
  - now rewrite get_set_same.
  - rewrite Hv. simpl in H. now destruct (len v).
Qed.

Lemma prepared_block_decodable (kd : kdict) (N_D : Z) :
  typed_accepts kd = true -> measured kd N_D = true -> steady kd = true ->
  decodable (typed_block kd N_D) = true
  /\ stocked (typed_block kd N_D) = true.
Proof.
  unfold decodable, decodable_params, stocked, stocked_for, steady.
  rewrite !typed_block_has.
  rewrite typed_block_get_other by discriminate.
  rewrite typed_block_written.
  unfold typed_accepts, measured, written_key. intros Ht Hm Hs.
  apply andb_prop in Hm as [_ Hm]. apply andb_prop in Hs as [Hq Hc].
  rewrite Hc. cbn [andb].
  assert (Hk : forall t', keys_allowed t' kd = true ->
                 mem "hyperparameters" (allowed_keys t') = false ->
                 mem "theta" (allowed_keys t') = false ->
                 negb (has "hyperparameters" kd) && negb (has "theta" kd)
                 = true).
  { intros t' Hk H1 H2.
    destruct (has "hyperparameters" kd) eqn:E1.
    - apply (keys_allowed_has t') in E1; [congruence|exact Hk].
    - destruct (has "theta" kd) eqn:E2; [|reflexivity].
      apply (keys_allowed_has t') in E2; [congruence|exact Hk]. }
  assert (Hw : forall t', keys_allowed t' kd = true ->
                 mem "hyperparameters" (allowed_keys t') = false ->
                 mem "theta" (allowed_keys t') = false ->
                 match get "width" kd with
                 | Some v =>
                     is_float_or_int v
                     || match len v with
                        | Ok n => (n =? Z.to_nat N_D)%nat
                        | Raise _ => false
                        end
                 | None => false
                 end = true ->
                 negb (has "hyperparameters" kd) && negb (has "theta" kd)
                 && has_len "width" (broadcast_block "width" N_D kd) = true).
  { intros t' Hk' H1 H2 Hv. rewrite (Hk t' Hk' H1 H2). cbn [andb].
    destruct (get "width" kd) as [w|] eqn:Ew; [|discriminate].
    now apply (broadcast_block_has_len "width" N_D kd w). }
  destruct (get "type" kd) as [[|t| | | |t]|]; try discriminate.
  all: cbn [str_eq str_is] in *.
  all: (type_case t "user"; [discriminate|]).
  all: (type_case t "linear"; [first [discriminate | now split]|]).
  all: (type_case t "constant";
        [apply andb_prop in Ht as [_ Ht]; unfold has;
         destruct (get "const" kd); [now split|discriminate]|]).
  all: (type_case t "gaussian";
        [apply andb_prop in Ht as [_ Ht]; split; [|reflexivity];
         now apply (Hw "gaussian")|]).
  all: (type_case t "laplacian";
        [apply andb_prop in Ht as [_ Ht]; split; [|reflexivity];
         now apply (Hw "laplacian")|]).
  all: (type_case t "quadratic"; discriminate).
Qed.

Lemma prepared_kernel_decodable (kernel : kernel_dict) (N_D : Z) :
  accepts kernel N_D = true -> measured_kernel kernel N_D = true ->
  forallb (fun entry => steady (snd entry)) kernel = true ->
  forallb (fun entry => decodable (snd entry)) (normalised kernel N_D) = true
  /\ forallb (fun entry => stocked (snd entry)) (normalised kernel N_D) = true.
Proof.
  revert N_D. induction kernel as [|[key kd] rest IH]; intros N_D Ha Hm Hs;
    [now split|].
  simpl in *. apply andb_prop in Ha as [Hb Hrest].
  apply andb_prop in Hm as [Hkd Hmrest]. apply andb_prop in Hs as [Hskd Hsrest].
  unfold block_accepts in Hb. apply andb_prop in Hb as [_ Ht].
  destruct (prepared_block_decodable kd _ Ht Hkd Hskd) as [-> ->].
  now apply IH.
Qed.

Lemma in_keys_has {V} (k : string) (d : dict V) :
  In k (keys d) -> has k d = true.
Proof.
  unfold has, keys. induction d as [|[k' v'] d IH]; simpl; [contradiction|].
  destruct (String.eqb_spec k k') as [->|Hne]; [reflexivity|].
  intros [Heq|Hin]; [congruence|]. now apply IH.
Qed.

Lemma same_keys_has (k : string) (kd kd' : kdict) :
  keys kd' = keys kd -> has k kd' = has k kd.
Proof.
  intros Hk.
  destruct (has k kd) eqn:E.
  - apply in_keys_has. rewrite Hk. apply has_true_get in E as [v Hv].
    now apply get_in_keys in Hv.
  - destruct (has k kd') eqn:E'; [|reflexivity].
    apply has_true_get in E' as [v Hv]. apply get_in_keys in Hv.
    rewrite Hk in Hv. apply in_keys_has in Hv. congruence.
Qed.

(** A decoded block that was accepted is accepted again, is left as it is
    by the routine of its type, and yields the same bounds. *)
Lemma decoded_block_settled (db : list value) (kd kd' : kdict) (N_D M : Z) :
  same_but decoder_writes kd kd' ->
  plain_block kd' = true ->
  block_accepts kd N_D = true ->
  block_accepts kd' N_D = true
  /\ typed_block kd' M = kd'
  /\ block_dimension kd' N_D = block_dimension kd N_D
  /\ scaling_entries db kd' = scaling_entries db kd
  /\ type_entries db kd' M = type_entries db kd M.
Proof.
  intros [Hkeys Hget] Hp Ha.
  assert (Hg : forall k, k = "type" \/ k = "features" \/ k = "dimension"
                         \/ k = "scaling_bounds" ->
                 get k kd' = get k kd).
  { intros k Hk. apply Hget. unfold decoder_writes. simpl.
    intros H. repeat (destruct H as [H|H]; [subst k; intuition discriminate|]).
    exact H. }
  assert (Et : get "type" kd' = get "type" kd) by (apply Hg; auto).
  assert (Ef : get "features" kd' = get "features" kd) by (apply Hg; auto 6).
  assert (Ed : get "dimension" kd' = get "dimension" kd) by (apply Hg; auto 6).
  assert (Eb : get "scaling_bounds" kd' = get "scaling_bounds" kd)
    by (apply Hg; auto 6).
  pose proof (same_keys_has "scaling" kd kd' Hkeys) as Hs.
  unfold block_accepts, common_accepts in *.
  apply andb_prop in Ha as [Hc Hty].
  apply andb_prop in Hc as [Hc Hsf]. apply andb_prop in Hc as [Hc Hdk].
  apply andb_prop in Hc as [Hht Hff].
  unfold plain_block in Hp. apply andb_prop in Hp as [Hp Hpp].
  apply andb_prop in Hp as [Hfs _].
  split; [|split; [|split; [|split]]].
  - rewrite (same_keys_has "type" kd kd' Hkeys), Hht.
    unfold features_fit, dimension_known in *. rewrite Ef, Ed, Hff, Hdk.
    cbn [andb].
    assert (Hsf' : scaling_fit kd' = true).
    { unfold scaling_fit in *. rewrite Eb. unfold has in Hs.
      destruct (get "scaling" kd') as [s'|]; [|reflexivity].
      rewrite Hfs. cbn [andb].
      destruct (get "scaling" kd) as [s|]; [|discriminate].
      now apply andb_prop in Hsf as [_ Hsf]. }
    rewrite Hsf'. cbn [andb].
    unfold typed_accepts, plain_params, keys_allowed in *.
    rewrite Hkeys, Et.
    destruct (get "type" kd) as [[|t| | | |t]|]; try discriminate.
    all: rewrite Et in Hpp.
    all: (type_case t "user"; [first [reflexivity | discriminate]|]).
    all: (type_case t "linear"; [first [reflexivity | discriminate]|]).
    all: (type_case t "constant";
          [apply andb_prop in Hty as [-> _]; exact Hpp|]).
    all: (type_case t "gaussian";
          [apply andb_prop in Hty as [_ ->]; unfold has;
           destruct (get "width" kd'); [reflexivity|];
           now rewrite andb_false_r in Hpp|]).
    all: (type_case t "laplacian";
          [apply andb_prop in Hty as [_ ->]; unfold has;
           destruct (get "width" kd'); [reflexivity|];
           now rewrite andb_false_r in Hpp|]).
    all: (type_case t "quadratic"; [|discriminate]).
    all: discriminate.
  - unfold typed_block, plain_params in *.
    destruct (get "type" kd') as [[|t| | | |t]|]; try reflexivity.
    all: (type_case t "gaussian";
          [unfold broadcast_block;
           destruct (get "width" kd') as [[| | |ws| |]|]; try reflexivity;
           rewrite ?andb_false_r in Hpp; discriminate|]).
    all: (type_case t "laplacian";
          [unfold broadcast_block;
           destruct (get "width" kd') as [[| | |ws| |]|]; try reflexivity;
           rewrite ?andb_false_r in Hpp; discriminate|]).
    all: (type_case t "quadratic"; [|reflexivity]).
    all: discriminate.
  - unfold block_dimension. now rewrite Ef, Ed.
  - unfold scaling_entries. now rewrite Hs, Eb.
  - unfold type_entries. now rewrite Et.
Qed.

Lemma decoded_kernel_settled (db : list value) (kernel kernel' : kernel_dict)
    (N_D : Z) :
  blockwise (same_but decoder_writes) kernel kernel' ->
  forallb (fun entry => plain_block (snd entry)) kernel' = true ->
  accepts kernel N_D = true ->
  accepts kernel' N_D = true
  /\ normalised kernel' N_D = kernel'
  /\ block_bounds db kernel' N_D = block_bounds db kernel N_D.
Proof.
  intros Hb. revert N_D.
  induction Hb as [|[key kd] [key' kd'] rest rest' [Hkey Hkd] Hrest IH];
    intros N_D Hp Ha; [now repeat split|].
  simpl in *. subst key'.
  apply andb_prop in Hp as [Hpkd Hprest]. apply andb_prop in Ha as [Hakd Harest].
  destruct (decoded_block_settled db kd kd' N_D (block_dimension kd N_D)
              Hkd Hpkd Hakd) as (Hacc & Htb & Hdim & Hse & Hte).
  rewrite Hdim, Hacc, Htb, Hse, Hte.
  destruct (IH (block_dimension kd N_D) Hprest Harest) as (-> & -> & ->).
  now repeat split.
Qed.

(** X20.  A prepared dictionary carries the vector of an optimiser and
    stays prepared.  Let [prepare_kernels] return for a dictionary, not
    empty, of gaussian, laplacian, constant and linear blocks without
    ['constrained'] whose widths are scalars or of the resolved dimension.
    Then every vector of floats with one element less than the bounds is
    decoded by [list2kdict] into the dictionary, [kdicts2list] gives the
    vector back, and preparing the decoded dictionary again changes
    nothing and returns the same bounds. *)
Theorem prepared_dictionary_carries_the_vector (kernel kernel' : kernel_dict)
    (rb : value) (eg : bool) (N_D : Z) (bounds : list value) (v : list num)
    (n : option Z) :
  kernel <> [] ->
  prepare_kernels kernel rb eg N_D = (kernel', Ok bounds) ->
  measured_kernel kernel N_D = true ->
  forallb (fun entry => steady (snd entry)) kernel = true ->
  forallb num_is_float v = true ->
  (List.length v + 1)%nat = List.length bounds ->
  exists decoded,
    list2kdict v kernel' = (decoded, Ok tt)
    /\ kdicts2list decoded n = Ok v
    /\ prepare_kernels decoded rb eg N_D = (decoded, Ok bounds).
Proof.
  intros Hne H Hm Hs Hf Hlen.
  assert (Ha : accepts kernel N_D = true).
  { unfold prepare_kernels in H.
    destruct (for_blocks (prepare_block (default_bounds eg)) (N_D, []) kernel)
      as [k1 [acc1|e]] eqn:E; [|discriminate].
    now apply for_blocks_prepare_returns in E. }
  apply prepare_kernels_ok in H as [-> ->].
  rewrite length_app, (measured_bounds_length eg kernel N_D Hm) in Hlen.
  cbn [List.length] in Hlen.
  destruct (prepared_kernel_decodable kernel N_D Ha Hm Hs) as [Hd Hst].
  destruct (for_blocks_list2kdict_floats v (normalised kernel N_D) 0 Hd Hf)
    as (decoded & Hloop & Hplain & Hvec & Hn); [lia|].
  assert (Hrun : list2kdict v (normalised kernel N_D) = (decoded, Ok tt)).
  { unfold list2kdict. now rewrite Hloop. }
  exists decoded. split; [exact Hrun|]. split.
  - rewrite kdicts2list_plain; [|intros E; subst decoded|exact Hplain].
    + rewrite Hvec. cbn [skipn]. f_equal. apply firstn_all2. lia.
    + destruct kernel as [|[key kd] rest]; [contradiction|discriminate].
  - pose proof (list2kdict_same_but v (normalised kernel N_D) Hst) as Hsame.
    rewrite Hrun in Hsame. cbn [fst] in Hsame.
    destruct (normalised_again (default_bounds eg) kernel N_D)
      as (_ & Hacc & Hbb).
    rewrite <- Hacc in Ha.
    destruct (decoded_kernel_settled (default_bounds eg) _ decoded N_D
                Hsame Hplain Ha) as (Ha' & Hnorm & Hbounds).
    rewrite (prepare_kernels_accepts decoded rb eg N_D Ha').
    now rewrite Hnorm, Hbounds, Hbb.
Qed.

Lemma prepared_dictionary_carries_the_vector_witness :
  exists decoded,
    list2kdict [Float 7; Float 8; Float 9]
      [("a", [("type", VStr "gaussian"); ("width", VList [flt 2; flt 2])]);
       ("b", [("type", VStr "constant"); ("const", flt 3)])]
    = (decoded, Ok tt)
    /\ kdicts2list decoded None = Ok [Float 7; Float 8; Float 9]
    /\ prepare_kernels decoded VNone false 2
       = (decoded,
          Ok [default_pair false; default_pair false; default_pair false;
              VNone]).
Proof.
  apply (prepared_dictionary_carries_the_vector
           [("a", [("type", VStr "gaussian"); ("width", flt 2)]);
            ("b", [("type", VStr "constant"); ("const", flt 3)])]
           [("a", [("type", VStr "gaussian"); ("width", VList [flt 2; flt 2])]);
            ("b", [("type", VStr "constant"); ("const", flt 3)])]
           VNone false 2
           [default_pair false; default_pair false; default_pair false; VNone]
           [Float 7; Float 8; Float 9] None).
  - discriminate.
  - reflexivity.
  - reflexivity.
  - reflexivity.
  - reflexivity.
  - reflexivity.
Defined.

(** ** Blocks without a type *)

(** X21.  No function takes a block without ['type']: for a dictionary
    that holds one, wherever it is, [prepare_kernels], [kdicts2list] and
    [list2kdict] raise. *)
Theorem block_without_type_is_not_taken (kernel : kernel_dict) (key : string)
    (kd : kdict) (rb : value) (eg : bool) (N_D : Z) (n : option Z)
    (v : list num) :
  In (key, kd) kernel ->
  has "type" kd = false ->
  (exists kernel' e, prepare_kernels kernel rb eg N_D = (kernel', Raise e))
  /\ (exists e, kdicts2list kernel n = Raise e)
  /\ (exists kernel' e, list2kdict v kernel = (kernel', Raise e)).
Proof.
  intros Hin Ht. pose proof Ht as Hg. apply has_false_get in Hg.
  split; [|split].
  - apply (prepare_kernels_raises kernel rb eg N_D key kd Hin).
    intros [N bounds]. exists kd, (AssertionError KernelTypeNotSet).
    unfold prepare_block, common_setup, bind, assert, contains.
    now rewrite Ht.
  - apply (kdicts2list_raises_at kernel key kd n Hin).
    exists (KeyError "type").
    unfold kdict2list, kdict2list_body, bind, item. now rewrite Hg.
  - unfold list2kdict.
    destruct (for_blocks_raises (list2kdict_block v) kernel key kd Hin)
      with (acc := 0%nat) as (kernel' & e & ->).
    + intros ki. exists kd, (KeyError "type").
      unfold list2kdict_block, bind, item. now rewrite Hg.
    + now exists kernel', e.
Qed.

Lemma block_without_type_is_not_taken_witness :
  (exists kernel' e,
      prepare_kernels
        [("a", [("type", VStr "constant"); ("const", flt 3)]);
         ("b", [("width", VList [flt 1])])] VNone false 1
      = (kernel', Raise e))
  /\ (exists e,
        kdicts2list
          [("a", [("type", VStr "constant"); ("const", flt 3)]);
           ("b", [("width", VList [flt 1])])] None
        = Raise e)
  /\ (exists kernel' e,
        list2kdict [Float 7; Float 8]
          [("a", [("type", VStr "constant"); ("const", flt 3)]);
           ("b", [("width", VList [flt 1])])]
        = (kernel', Raise e)).
Proof.
  apply (block_without_type_is_not_taken
           [("a", [("type", VStr "constant"); ("const", flt 3)]);
            ("b", [("width", VList [flt 1])])]
           "b" [("width", VList [flt 1])] VNone false 1 None
           [Float 7; Float 8]).
  - right. left. reflexivity.
  - reflexivity.
Defined.

(** ** What the encoder does not read *)

Lemma ig_ret {A} (k : string) (a : A) : ignores k (ret a).
Proof. now intros s v. Qed.

Lemma ig_raise {A} (k : string) (e : exn) : ignores k (@raise kdict A e).
Proof. now intros s v. Qed.

Lemma ig_lift {A} (k : string) (r : result A) : ignores k (lift r).
Proof. now intros s v. Qed.

Lemma ig_item (k k' : string) : k' <> k -> ignores k (item k').
Proof.
  intros Hne s v. unfold item. rewrite get_set_other by exact Hne.
  now destruct (get k' s).
Qed.

Lemma ig_contains (k k' : string) : k' <> k -> ignores k (contains k').
Proof.
  intros Hne s v. unfold contains, has.
  now rewrite get_set_other by exact Hne.
Qed.

Lemma bind_ignoring {A B} (k : string) (c : M kdict A) (f : A -> M kdict B)
    (s : kdict) (v : value) :
  readonly c -> ignores k c ->
  (forall a, snd (f a (set k v s)) = snd (f a s)) ->
  snd (bind c f (set k v s)) = snd (bind c f s).
Proof.
  intros Hro Hig Hf. unfold bind.
  pose proof (Hro s) as H1. pose proof (Hro (set k v s)) as H2.
  pose proof (Hig s v) as H3.
  destruct (c s) as [s1 r1]. destruct (c (set k v s)) as [s2 r2].
  simpl in *. subst. destruct r1; [apply Hf|reflexivity].
Qed.

Lemma ig_bind {A B} (k : string) (c : M kdict A) (f : A -> M kdict B) :
  readonly c -> ignores k c -> (forall a, ignores k (f a)) ->
  ignores k (bind c f).
Proof.
  intros Hro Hig Hf s v. apply bind_ignoring; auto. intros a. apply Hf.
Qed.

Ltac ig_step :=
  first
    [ apply ig_ret | apply ig_raise | apply ig_lift
    | apply ig_item; discriminate
    | apply ig_contains; discriminate
    | apply ig_bind; [ro| |]
    | match goal with
      | |- ignores _ (if ?b then _ else _) => destruct b
      | |- ignores _ (match ?x with _ => _ end) => destruct x
      | |- forall _, _ => intro
      end ].

Ltac ig := repeat ig_step.

(** X22.  The ['constrained'] entry of a block is never encoded: adding
    one that has a length to a block changes neither what [kdict2list]
    returns nor whether and how it raises. *)
Theorem constrained_is_never_encoded (kd : kdict) (c : value) (n : nat)
    (N_D : option Z) :
  has "constrained" kd = false ->
  len c = Ok n ->
  kdict2list (set "constrained" c kd) N_D = kdict2list kd N_D.
Proof.
  intros Hc Hn. apply has_false_get in Hc.
  unfold kdict2list, kdict2list_body.
  apply bind_ignoring; [ro|ig|intros ktype].
  apply bind_ignoring; [ro|ig|intros hs].
  apply bind_ignoring; [ro|ig|intros scaling].
  apply bind_ignoring; [ro|ig|intros theta0].
  apply bind_ignoring; [ro|ig|intros hh].
  apply bind_ignoring; [ro|ig|intros ht].
  apply bind_ignoring; [unfold generic_theta; ro|unfold generic_theta; ig|].
  intros [theta N].
  unfold bind, contains, item, has, lift, ret, raise. cbv beta.
  repeat (first [rewrite get_set_same | rewrite Hc | rewrite Hn
                 | rewrite get_set_other by discriminate]; cbv beta iota).
  destruct (get "features" kd); [|destruct N];
    repeat (first [rewrite Hn | rewrite get_set_same]; cbv beta iota);
    now destruct theta.
Qed.

Lemma constrained_is_never_encoded_witness :
  kdict2list
    (set "constrained" (VList [flt 0])
       [("type", VStr "gaussian"); ("width", VList [flt 1; flt 2])]) None
  = kdict2list [("type", VStr "gaussian"); ("width", VList [flt 1; flt 2])]
      None.
Proof.
  apply (constrained_is_never_encoded
           [("type", VStr "gaussian"); ("width", VList [flt 1; flt 2])]
           (VList [flt 0]) 1 None).
  - reflexivity.
  - reflexivity.
Defined.
